(** * Zumbra / Vaja: the bytecode virtual machine, its value model and
    its built-in array library

  A shallow embedding of the Go packages [object], [code] (the part the
  virtual machine reads), [builtins] and [vm], followed by the properties
  of the virtual machine that the specification states.

  Conventions of the embedding.
  - Go's [int64] is a [Z] wrapped into the signed 64-bit range by
    [wrap64]; [uint64] is a [Z] reduced modulo [2^64].
  - Go's [int] (stack pointer, instruction pointer, base pointers, counts)
    is a [Z]; every slice access checks its bounds and panics outside
    them, as the Go runtime does.
  - A Go [string] is a sequence of bytes: Rocq's [string].
  - [float64] is the IEEE-754 binary64 model [spec_float] of the standard
    library, with [prec = 53] and [emax = 1024].
  - Objects whose identity is observable or which are mutated in place
    (arrays, dicts, closures, compiled functions, errors, dates) live in a
    heap and are referred to by address; integers, floats and strings,
    whose identity no code path observes, and the canonical singletons
    [True], [False] and [Null], are carried by value.
  - A function of the VM returns [Ok], the Go [error] it returned ([Err])
    or [Panic] when the Go runtime would abort the program. *)

From Stdlib Require Import ZArith String Ascii List Lia.
From Stdlib Require Import Floats.SpecFloat Numbers.DecimalString.
From Stdlib Require Import Sorting.Sorted.
From stdpp Require Import base option list gmap strings.

Open Scope Z_scope.

(** ** Machine integers *)

Definition wrap64 (z : Z) : Z := (z + 2 ^ 63) mod 2 ^ 64 - 2 ^ 63.
Definition uint64 (z : Z) : Z := z mod 2 ^ 64.

(** [fmt]'s [%d]. *)
Definition fmt_d (z : Z) : string := NilZero.string_of_int (Z.to_int z).

(** Indexing a Go slice: [None] is the run-time panic "index out of range". *)
Definition index {A} (l : list A) (i : Z) : option A :=
if i <? 0 then None else l !! Z.to_nat i.

(** [l[i] = x], with the same panic. *)
Definition store {A} (l : list A) (i : Z) (x : A) : option (list A) :=
if (0 <=? i) && (i <? Z.of_nat (length l))
then Some (<[Z.to_nat i := x]> l) else None.

(** The slice expression [l[lo:hi]] on a slice whose capacity is its length. *)
Definition slice {A} (l : list A) (lo hi : Z) : option (list A) :=
if (0 <=? lo) && (lo <=? hi) && (hi <=? Z.of_nat (length l))
then Some (take (Z.to_nat (hi - lo)) (drop (Z.to_nat lo) l)) else None.

(** ** binary64 arithmetic *)

Abbreviation float64 := spec_float.

Module f64.
Definition prec : Z := 53.
Definition emax : Z := 1024.
Definition zero : float64 := S754_zero false.
Definition add := SFadd prec emax.
Definition sub := SFsub prec emax.
Definition mul := SFmul prec emax.
Definition div := SFdiv prec emax.
Definition eqb := SFeqb.
Definition ltb := SFltb.
Definition leb := SFleb.

(** The conversion [float64(i)] of an [int64]: round to nearest, ties to
    even. *)
Definition of_int64 (i : Z) : float64 := binary_normalize prec emax i 0 false.

(** The conversion [int64(f)]: truncation toward zero. Go leaves the
    result unspecified when the truncated value does not fit; on amd64
    the instruction yields the most negative integer, which is what is
    written here. *)
Definition to_int64 (f : float64) : Z :=
  match f with
  | S754_zero _ => 0
  | S754_finite s m e =>
      let a := if 0 <=? e then Z.shiftl (Zpos m) e else Z.shiftr (Zpos m) (- e) in
      let v := if s then - a else a in
      if (- 2 ^ 63 <=? v) && (v <? 2 ^ 63) then v else - 2 ^ 63
  | _ => - 2 ^ 63
  end.

Definition is_nan (f : float64) : bool :=
  match f with S754_nan => true | _ => false end.
Definition is_zero (f : float64) : bool :=
  match f with S754_zero _ => true | _ => false end.
Definition signbit (f : float64) : bool :=
  match f with
  | S754_zero s | S754_infinity s | S754_finite s _ _ => s
  | S754_nan => false
  end.

(** [math.Max] and [math.Min] of Go's standard library, with their
    special cases for infinities, NaN and signed zeros. *)
Definition Max (x y : float64) : float64 :=
  match x, y with
  | S754_infinity false, _ | _, S754_infinity false => S754_infinity false
  | _, _ =>
      if is_nan x || is_nan y then S754_nan
      else if is_zero x && is_zero y then (if signbit x then y else x)
      else if ltb y x then x else y
  end.

Definition Min (x y : float64) : float64 :=
  match x, y with
  | S754_infinity true, _ | _, S754_infinity true => S754_infinity true
  | _, _ =>
      if is_nan x || is_nan y then S754_nan
      else if is_zero x && is_zero y then (if signbit x then x else y)
      else if ltb x y then x else y
  end.
End f64.

(** ** Package [object] *)

Module object.

Abbreviation ObjectType := string.

Definition INTEGER_OBJ : ObjectType := "INTEGER".
Definition BOOLEAN_OBJ : ObjectType := "BOOLEAN".
Definition NULL_OBJ : ObjectType := "NULL".
Definition RETURN_VALUE_OBJ : ObjectType := "RETURN_VALUE".
Definition ERROR_OBJ : ObjectType := "ERROR".
Definition FUNCTION_OBJ : ObjectType := "FUNCTION".
Definition STRING_OBJ : ObjectType := "STRING".
Definition BUILTIN_OBJ : ObjectType := "BUILTIN".
Definition ARRAY_OBJ : ObjectType := "ARRAY".
Definition DICT_OBJ : ObjectType := "DICT".

(** Modelled from the spec: the type tags of the four value kinds that the
    virtual machine uses and the available [object] source does not
    declare (float, compiled function, closure, date). Only their being
    distinct from each other and from the tags above matters. *)
Definition FLOAT_OBJ : ObjectType := "FLOAT".
Definition COMPILED_FUNCTION_OBJ : ObjectType := "COMPILED_FUNCTION".
Definition CLOSURE_OBJ : ObjectType := "CLOSURE".
Definition DATE_OBJ : ObjectType := "DATE".

(** [DictKey{Type, Value}]: a type tag and an unsigned 64-bit number. *)
Abbreviation DictKey := (string * Z)%type.

(** FNV-1a, 64 bits ([hash/fnv.New64a], [Write], [Sum64]). *)
Definition fnv_offset64 : Z := 14695981039346656037.
Definition fnv_prime64 : Z := 1099511628211.

Fixpoint fnv1a_from (h : Z) (s : string) : Z :=
  match s with
  | EmptyString => h
  | String.String c s' =>
      fnv1a_from (uint64 (Z.lxor h (Z.of_N (N_of_ascii c)) * fnv_prime64)) s'
  end.

Definition fnv1a64 (s : string) : Z := fnv1a_from fnv_offset64 s.

(** The built-in functions: a [Builtin] object wraps the Go function that
    the constructor of that name in package [builtins] returns
    ([RemoveFromArrayBuiltin], ..., [SumBuiltin]); the table of built-ins
    holds one object per function. *)
Inductive BuiltinFunction :=
| RemoveFromArray | AddToArrayStart | AddToArrayEnd | Max | Min
| ArrayFirst | ArrayLast | AllButFirst | IndexOf | Organize | Sum.

Abbreviation ptr := nat.

(** A value of the interface type [object.Object]. [Nil] is the nil
    interface value (an operand-stack or globals slot never written, or a
    built-in that returned nothing). [Ref p] is a pointer to a heap
    object. *)
Inductive Object :=
| Nil
| Integer (Value : Z)
| Float (Value : float64)
| Boolean (Value : bool)
| Null
| String (Value : string)
| Builtin (Fn : BuiltinFunction)
| Ref (p : ptr).

Record DictPair := { Key : Object; Value : Object }.

Record CompiledFunction := {
  Instructions : list Z;
  NumLocals : Z;
  NumParameters : Z
}.

(** Modelled from the spec: the date record ("calendar record with fields
    year/month/day/hour/minute/second and a formatted display string");
    its declaration is not among the available sources. *)
Record Date := {
  Year : Z; Month : Z; Day : Z; Hour : Z; Minute : Z; Second : Z;
  FullDate : string
}.

(** The objects that live in the heap. [Closure] holds its (immutable)
    compiled function by value. *)
Inductive HeapObject :=
| Error (Message : string)
| Array (Elements : list Object)
| Dict (Pairs : gmap (string * Z) DictPair)
| CompiledFn (fn : CompiledFunction)
| Closure (Fn : CompiledFunction) (Free : list Object)
| DateObj (d : Date).

Abbreviation Heap := (list HeapObject).

(** [o.Type()]; [None] is the nil-pointer panic of a method call on the
    nil interface (or on a dangling address, which Go cannot build). *)
Definition Type_ (h : list HeapObject) (o : Object) : option string :=
  match o with
  | Nil => None
  | Integer _ => Some INTEGER_OBJ
  | Float _ => Some FLOAT_OBJ
  | Boolean _ => Some BOOLEAN_OBJ
  | Null => Some NULL_OBJ
  | String _ => Some STRING_OBJ
  | Builtin _ => Some BUILTIN_OBJ
  | Ref p =>
      match h !! p with
      | Some (Error _) => Some ERROR_OBJ
      | Some (Array _) => Some ARRAY_OBJ
      | Some (Dict _) => Some DICT_OBJ
      | Some (CompiledFn _) => Some COMPILED_FUNCTION_OBJ
      | Some (Closure _ _) => Some CLOSURE_OBJ
      | Some (DateObj _) => Some DATE_OBJ
      | None => None
      end
  end.

(** The methods [DictKey] of [*Boolean], [*Integer] and [*String], and
    the type assertion [o.(Dictable)]: [None] when the dynamic type of
    [o] has no [DictKey] method (or [o] is nil). *)
Definition DictKey_Boolean (b : bool) : string * Z :=
  (BOOLEAN_OBJ, if b then 1 else 0).
Definition DictKey_Integer (i : Z) : string * Z :=
  (INTEGER_OBJ, uint64 i).
Definition DictKey_String (s : string) : string * Z :=
  (STRING_OBJ, fnv1a64 s).

Definition Dictable (o : Object) : option (string * Z) :=
  match o with
  | Boolean b => Some (DictKey_Boolean b)
  | Integer i => Some (DictKey_Integer i)
  | String s => Some (DictKey_String s)
  | _ => None
  end.

(** The type assertion of [o] to a pointer to [object.Array]: the address
    and the elements; [None] when the assertion fails. *)
Definition as_Array (h : list HeapObject) (o : Object) : option (nat * list Object) :=
  match o with
  | Ref p => match h !! p with Some (Array els) => Some (p, els) | _ => None end
  | _ => None
  end.

(** The type assertions of [o] to a pointer to [object.Integer],
    [object.Float] and [object.String], followed by [.Value]. *)
Definition as_Integer (o : Object) : option Z :=
  match o with Integer v => Some v | _ => None end.
Definition as_Float (o : Object) : option float64 :=
  match o with Float v => Some v | _ => None end.
Definition as_String (o : Object) : option string :=
  match o with String v => Some v | _ => None end.

End object.


(** ** Package [code]: the part the virtual machine reads *)

Module code.

(** The opcodes, in the order in which the dispatch switch of [vm.Run]
    tests them. *)
Inductive Opcode :=
| OpConstant
| OpAdd | OpSub | OpMul | OpDiv | OpMod
| OpAnd | OpOr
| OpEqual | OpNotEqual | OpGreaterThan | OpLessThan
| OpLessThanOrEqual | OpGreaterThanOrEqual
| OpTrue | OpFalse | OpBang | OpMinus | OpPop
| OpJump | OpJumpNotTruthy | OpNull
| OpSetGlobal | OpGetGlobal
| OpArray | OpDict | OpIndex
| OpCall | OpReturnValue | OpReturn
| OpSetLocal | OpGetLocal | OpGetBuiltin
| OpClosure | OpGetFree | OpCurrentClosure
| OpWhile | OpGetAttr.

Definition Opcode_eqb (a b : Opcode) : bool :=
  match a, b with
  | OpConstant, OpConstant | OpAdd, OpAdd | OpSub, OpSub | OpMul, OpMul
  | OpDiv, OpDiv | OpMod, OpMod | OpAnd, OpAnd | OpOr, OpOr
  | OpEqual, OpEqual | OpNotEqual, OpNotEqual
  | OpGreaterThan, OpGreaterThan | OpLessThan, OpLessThan
  | OpLessThanOrEqual, OpLessThanOrEqual
  | OpGreaterThanOrEqual, OpGreaterThanOrEqual
  | OpTrue, OpTrue | OpFalse, OpFalse | OpBang, OpBang | OpMinus, OpMinus
  | OpPop, OpPop | OpJump, OpJump | OpJumpNotTruthy, OpJumpNotTruthy
  | OpNull, OpNull | OpSetGlobal, OpSetGlobal | OpGetGlobal, OpGetGlobal
  | OpArray, OpArray | OpDict, OpDict | OpIndex, OpIndex | OpCall, OpCall
  | OpReturnValue, OpReturnValue | OpReturn, OpReturn
  | OpSetLocal, OpSetLocal | OpGetLocal, OpGetLocal
  | OpGetBuiltin, OpGetBuiltin | OpClosure, OpClosure
  | OpGetFree, OpGetFree | OpCurrentClosure, OpCurrentClosure
  | OpWhile, OpWhile | OpGetAttr, OpGetAttr => true
  | _, _ => false
  end.

Definition all_opcodes : list Opcode :=
  [ OpConstant; OpAdd; OpSub; OpMul; OpDiv; OpMod; OpAnd; OpOr;
    OpEqual; OpNotEqual; OpGreaterThan; OpLessThan;
    OpLessThanOrEqual; OpGreaterThanOrEqual;
    OpTrue; OpFalse; OpBang; OpMinus; OpPop;
    OpJump; OpJumpNotTruthy; OpNull; OpSetGlobal; OpGetGlobal;
    OpArray; OpDict; OpIndex; OpCall; OpReturnValue; OpReturn;
    OpSetLocal; OpGetLocal; OpGetBuiltin;
    OpClosure; OpGetFree; OpCurrentClosure; OpWhile; OpGetAttr ].

(** Modelled from the spec: [ReadUint16] and [ReadUint8], whose source is
    not available ("16-bit big-endian unsigned" and "8-bit unsigned"
    operands). An instruction stream is a sequence of bytes; the two
    functions are applied to the stream sliced at [off], as in
    [code.ReadUint16(ins[ip+1:])]; [None] is the panic of a slice or an
    index out of range. *)
Definition ReadUint16 (ins : list Z) (off : Z) : option Z :=
  if (0 <=? off) && (off <=? Z.of_nat (length ins)) then
    match index ins off, index ins (off + 1) with
    | Some hi, Some lo => Some (Z.lor (Z.shiftl hi 8) lo)
    | _, _ => None
    end
  else None.

Definition ReadUint8 (ins : list Z) (off : Z) : option Z :=
  if (0 <=? off) && (off <=? Z.of_nat (length ins)) then index ins off
  else None.

End code.

(** ** Package [builtins] *)

Module builtins.
Import object.

(** What a call of a built-in does: it returns an object (possibly the nil
    interface) and leaves a heap, or it panics. *)
Inductive Result :=
| Return (o : Object) (h : list HeapObject)
| Panics.

Definition alloc (h : list HeapObject) (o : HeapObject) : Object * list HeapObject :=
  (Ref (length h), h ++ [o]).

(** Modelled from the spec: [NewError], [NewInteger] and [NewFloat], whose
    source is not available: they build a fresh value of error, integer and
    float kind. The message of [NewError] is passed already formatted. *)
Definition NewError (msg : string) (h : list HeapObject) : Result :=
  let '(o, h') := alloc h (Error msg) in Return o h'.
Definition NewInteger (v : Z) (h : list HeapObject) : Result := Return (Integer v) h.
Definition NewFloat (v : float64) (h : list HeapObject) : Result := Return (Float v) h.

(** [o.Type()] followed by the continuation; a nil receiver panics. *)
Definition with_Type (h : list HeapObject) (o : Object) (k : string -> Result) : Result :=
  match Type_ h o with
  | Some t => k t
  | None => Panics
  end.

Definition wrong_number (got : nat) (want : string) : string :=
  "wrong number of arguments. got=" +:+ fmt_d (Z.of_nat got) +:+ ", want=" +:+ want.

Definition RemoveFromArrayBuiltin (args : list Object) (h : list HeapObject) : Result :=
  match args with
  | [a0; a1] =>
      with_Type h a0 (fun t0 =>
      if negb (String.eqb t0 ARRAY_OBJ)
      then NewError ("argument to `removeFromArray` must be ARRAY, got " +:+ t0) h
      else with_Type h a1 (fun t1 =>
      if negb (String.eqb t1 INTEGER_OBJ)
      then NewError ("index argument to `removeFromArray` must be INTEGER, got " +:+ t1) h
      else
        match as_Array h a0, as_Integer a1 with
        | Some (p, els), Some i =>
            if (i <? 0) || (Z.of_nat (length els) <=? i)
            then NewError ("index out of bounds: " +:+ fmt_d i) h
            else Return a0 (<[p := Array (take (Z.to_nat i) els ++ drop (Z.to_nat (i + 1)) els)]> h)
        | _, _ => Panics
        end))
  | _ => NewError (wrong_number (length args) "2") h
  end.

Definition AddToArrayStartBuiltin (args : list Object) (h : list HeapObject) : Result :=
  match args with
  | [a0; a1] =>
      with_Type h a0 (fun t0 =>
      if negb (String.eqb t0 ARRAY_OBJ)
      then NewError ("argument to `addToArrayStart` must be ARRAY, got " +:+ t0) h
      else
        match as_Array h a0 with
        | Some (p, els) => Return a0 (<[p := Array (a1 :: els)]> h)
        | None => Panics
        end)
  | _ => NewError (wrong_number (length args) "2") h
  end.

Definition AddToArrayEndBuiltin (args : list Object) (h : list HeapObject) : Result :=
  match args with
  | [a0; a1] =>
      with_Type h a0 (fun t0 =>
      if negb (String.eqb t0 ARRAY_OBJ)
      then NewError ("argument to `addToArrayEnd` must be ARRAY, got " +:+ t0) h
      else
        match as_Array h a0 with
        | Some (p, els) => Return a0 (<[p := Array (els ++ [a1])]> h)
        | None => Panics
        end)
  | _ => NewError (wrong_number (length args) "2") h
  end.

(** The loop of [max]: both operands of [math.Max] are asserted to be
    integers on every iteration; [None] is the panic of a failed
    assertion. *)
Fixpoint max_loop (max : Object) (rest : list Object) : option Object :=
  match rest with
  | [] => Some max
  | el :: rest' =>
      match as_Integer max, as_Integer el with
      | Some m, Some e =>
          if f64.eqb (f64.Max (f64.of_int64 m) (f64.of_int64 e)) (f64.of_int64 e)
          then max_loop el rest' else max_loop max rest'
      | _, _ => None
      end
  end.

Definition MaxBuiltin (args : list Object) (h : list HeapObject) : Result :=
  match args with
  | [a0] =>
      with_Type h a0 (fun t0 =>
      if negb (String.eqb t0 ARRAY_OBJ)
      then NewError ("argument to `max` must be ARRAY, got " +:+ t0) h
      else
        match as_Array h a0 with
        | Some (_, []) => Return Nil h
        | Some (_, e0 :: rest) =>
            match max_loop e0 rest with
            | Some m => Return m h
            | None => Panics
            end
        | None => Panics
        end)
  | _ => NewError (wrong_number (length args) "1") h
  end.

Fixpoint min_loop (min : Object) (rest : list Object) : option Object :=
  match rest with
  | [] => Some min
  | el :: rest' =>
      match as_Integer min, as_Integer el with
      | Some m, Some e =>
          if f64.eqb (f64.Min (f64.of_int64 m) (f64.of_int64 e)) (f64.of_int64 e)
          then min_loop el rest' else min_loop min rest'
      | _, _ => None
      end
  end.

Definition MinBuiltin (args : list Object) (h : list HeapObject) : Result :=
  match args with
  | [a0] =>
      with_Type h a0 (fun t0 =>
      if negb (String.eqb t0 ARRAY_OBJ)
      then NewError ("argument to `min` must be ARRAY, got " +:+ t0) h
      else
        match as_Array h a0 with
        | Some (_, []) => Return Nil h
        | Some (_, e0 :: rest) =>
            match min_loop e0 rest with
            | Some m => Return m h
            | None => Panics
            end
        | None => Panics
        end)
  | _ => NewError (wrong_number (length args) "1") h
  end.

Definition ArrayFirstBuiltin (args : list Object) (h : list HeapObject) : Result :=
  match args with
  | [a0] =>
      with_Type h a0 (fun t0 =>
      if negb (String.eqb t0 ARRAY_OBJ)
      then NewError ("argument to `first` must be ARRAY, got " +:+ t0) h
      else
        match as_Array h a0 with
        | Some (_, e0 :: _) => Return e0 h
        | Some (_, []) => Return Nil h
        | None => Panics
        end)
  | _ => NewError (wrong_number (length args) "1") h
  end.

Definition ArrayLastBuiltin (args : list Object) (h : list HeapObject) : Result :=
  match args with
  | [a0] =>
      with_Type h a0 (fun t0 =>
      if negb (String.eqb t0 ARRAY_OBJ)
      then NewError ("argument to `last` must be ARRAY, got " +:+ t0) h
      else
        match as_Array h a0 with
        | Some (_, els) =>
            let length := Z.of_nat (length els) in
            if 0 <? length
            then match index els (length - 1) with
                 | Some e => Return e h
                 | None => Panics
                 end
            else Return Nil h
        | None => Panics
        end)
  | _ => NewError (wrong_number (length args) "1") h
  end.

Definition AllButFirstBuiltin (args : list Object) (h : list HeapObject) : Result :=
  match args with
  | [a0] =>
      with_Type h a0 (fun t0 =>
      if negb (String.eqb t0 ARRAY_OBJ)
      then NewError ("argument to `allButFirst` must be ARRAY, got " +:+ t0) h
      else
        match as_Array h a0 with
        | Some (_, _ :: rest) => let '(o, h') := alloc h (Array rest) in Return o h'
        | Some (_, []) => Return Nil h
        | None => Panics
        end)
  | _ => NewError (wrong_number (length args) "1") h
  end.

(** The loop of [indexOf] for an integer and for a string needle: every
    element visited is asserted to have the type of the needle. *)
Fixpoint indexOf_Integer (needle : Z) (i : Z) (els : list Object) : option Z :=
  match els with
  | [] => Some (-1)
  | el :: rest =>
      match as_Integer el with
      | Some v => if v =? needle then Some i else indexOf_Integer needle (i + 1) rest
      | None => None
      end
  end.

Fixpoint indexOf_String (needle : string) (i : Z) (els : list Object) : option Z :=
  match els with
  | [] => Some (-1)
  | el :: rest =>
      match as_String el with
      | Some v => if String.eqb v needle then Some i else indexOf_String needle (i + 1) rest
      | None => None
      end
  end.

Definition IndexOfBuiltin (args : list Object) (h : list HeapObject) : Result :=
  match args with
  | [a0; a1] =>
      with_Type h a0 (fun t0 =>
      if negb (String.eqb t0 ARRAY_OBJ)
      then NewError ("argument to `indexOf` must be ARRAY, got " +:+ t0) h
      else with_Type h a1 (fun t1 =>
      if negb (String.eqb t1 INTEGER_OBJ) && negb (String.eqb t1 STRING_OBJ)
      then NewError ("index argument to `indexOf` must be INTEGER, got " +:+ t1) h
      else
        match as_Array h a0 with
        | Some (_, els) =>
            let found :=
              match a1 with
              | Integer needle => indexOf_Integer needle 0 els
              | String needle => indexOf_String needle 0 els
              | _ => None
              end in
            match found with
            | Some i => NewInteger i h
            | None => Panics
            end
        | None => Panics
        end))
  | _ => NewError (wrong_number (length args) "2") h
  end.

(** [sort.Slice] with a comparison that asserts both elements to be
    integers. With fewer than two elements the comparison is never called;
    with two or more, every element takes part in a comparison, so one
    element that is not an integer panics. On integers, which are carried by
    value, every sorting algorithm computes the same sequence: insertion
    sort is written here. *)
Fixpoint sort_insert (less : Z -> Z -> bool) (x : Z) (l : list Z) : list Z :=
  match l with
  | [] => [x]
  | y :: l' => if less x y then x :: l else y :: sort_insert less x l'
  end.

Definition sort_Z (less : Z -> Z -> bool) (l : list Z) : list Z :=
  foldr (sort_insert less) [] l.

Definition sort_Slice (less : Z -> Z -> bool) (els : list Object) : option (list Object) :=
  if (length els <? 2)%nat then Some els
  else (fun zs => Integer <$> sort_Z less zs) <$> mapM as_Integer els.

(** [organize] reads [args[0]] before any test of [len(args)]. *)
Definition OrganizeBuiltins (args : list Object) (h : list HeapObject) : Result :=
  match args with
  | [] => Panics
  | a0 :: rest =>
      with_Type h a0 (fun t0 =>
      if negb (String.eqb t0 ARRAY_OBJ)
      then NewError ("first argument to `organize` must be ARRAY, got " +:+ t0) h
      else
        let by_ :=
          match rest with
          | [] => Some "asc"%string
          | a1 :: _ =>
              match Type_ h a1 with
              | Some t1 => if String.eqb t1 STRING_OBJ then as_String a1 else Some "asc"%string
              | None => None
              end
          end in
        match by_, as_Array h a0 with
        | Some by_, Some (p, els) =>
            let sorted :=
              if String.eqb by_ "asc" then sort_Slice Z.ltb els
              else if String.eqb by_ "desc" then sort_Slice Z.gtb els
              else Some els in
            match sorted with
            | Some els' => Return a0 (<[p := Array els']> h)
            | None => Panics
            end
        | _, _ => Panics
        end)
  end.

(** The loop of [sum]: [None] is a panic, [inl] the message of the error
    returned, [inr] the accumulated sum and whether a float was met. *)
Fixpoint sum_loop (h : list HeapObject) (sum : float64) (hasFloat : bool)
    (els : list Object) : option (string + float64 * bool) :=
  match els with
  | [] => Some (inr (sum, hasFloat))
  | el :: rest =>
      match Type_ h el with
      | None => None
      | Some t =>
          if negb (String.eqb t INTEGER_OBJ) && negb (String.eqb t FLOAT_OBJ)
          then Some (inl ("argument to `sum` must be INTEGER or FLOAT, got " +:+ t))
          else
            match el with
            | Float v => sum_loop h (f64.add sum v) true rest
            | Integer v => sum_loop h (f64.add sum (f64.of_int64 v)) hasFloat rest
            | _ => None
            end
      end
  end.

Definition SumBuiltin (args : list Object) (h : list HeapObject) : Result :=
  match args with
  | [a0] =>
      with_Type h a0 (fun t0 =>
      if negb (String.eqb t0 ARRAY_OBJ)
      then NewError ("argument to `sum` must be ARRAY, got " +:+ t0) h
      else
        match as_Array h a0 with
        | Some (_, els) =>
            match sum_loop h f64.zero false els with
            | Some (inl msg) => NewError msg h
            | Some (inr (sum, true)) => NewFloat sum h
            | Some (inr (sum, false)) => NewInteger (f64.to_int64 sum) h
            | None => Panics
            end
        | None => Panics
        end)
  | _ => NewError (wrong_number (length args) "1") h
  end.

(** The Go function that a [Builtin] object wraps. *)
Definition Fn (b : BuiltinFunction) : list Object -> list HeapObject -> Result :=
  match b with
  | RemoveFromArray => RemoveFromArrayBuiltin
  | AddToArrayStart => AddToArrayStartBuiltin
  | AddToArrayEnd => AddToArrayEndBuiltin
  | Max => MaxBuiltin
  | Min => MinBuiltin
  | ArrayFirst => ArrayFirstBuiltin
  | ArrayLast => ArrayLastBuiltin
  | AllButFirst => AllButFirstBuiltin
  | IndexOf => IndexOfBuiltin
  | Organize => OrganizeBuiltins
  | Sum => SumBuiltin
  end.

End builtins.

(** ** Package [vm] *)

Module vm.
Import object code.

Definition StackSize : Z := 2048.
Definition GlobalSize : Z := 65536.
Definition MaxFrames : Z := 1024.

(** The canonical singletons. *)
Definition True_ : Object := Boolean true.
Definition False_ : Object := Boolean false.
Definition Null_ : Object := Null.

(** Modelled from the spec: the activation record ("closure, ip
    (instruction pointer, initially -1), base-pointer"), whose source is
    not available. [cl] is the address of the closure; since a closure is
    never modified once built, the frame carries what that address holds
    ([Fn] and [Free]) next to it. *)
Record Frame := {
  cl : nat;
  Fn : CompiledFunction;
  Free : list Object;
  ip : Z;
  basePointer : Z
}.

Definition NewFrame (p : nat) (fn : CompiledFunction) (free : list Object)
    (basePointer : Z) : Frame :=
  {| cl := p; Fn := fn; Free := free; ip := -1; basePointer := basePointer |}.

Definition Frame_Instructions (f : Frame) : list Z := Instructions (Fn f).

Definition set_ip (f : Frame) (i : Z) : Frame :=
  {| cl := cl f; Fn := Fn f; Free := Free f; ip := i; basePointer := basePointer f |}.

(** The machine. [frames] holds pointers to frames; a slot never written
    is the nil pointer [None]. [heap] is the store of the objects that
    the values of the machine refer to. *)
Record VM := {
  constants : list Object;
  stack : list Object;
  sp : Z;
  globals : list Object;
  frames : list (option Frame);
  framesIndex : Z;
  heap : list HeapObject
}.

Definition set_stack (vm : VM) (s : list Object) : VM :=
  {| constants := constants vm; stack := s; sp := sp vm; globals := globals vm;
     frames := frames vm; framesIndex := framesIndex vm; heap := heap vm |}.
Definition set_sp (vm : VM) (n : Z) : VM :=
  {| constants := constants vm; stack := stack vm; sp := n; globals := globals vm;
     frames := frames vm; framesIndex := framesIndex vm; heap := heap vm |}.
Definition set_globals (vm : VM) (g : list Object) : VM :=
  {| constants := constants vm; stack := stack vm; sp := sp vm; globals := g;
     frames := frames vm; framesIndex := framesIndex vm; heap := heap vm |}.
Definition set_frames (vm : VM) (fs : list (option Frame)) : VM :=
  {| constants := constants vm; stack := stack vm; sp := sp vm; globals := globals vm;
     frames := fs; framesIndex := framesIndex vm; heap := heap vm |}.
Definition set_framesIndex (vm : VM) (n : Z) : VM :=
  {| constants := constants vm; stack := stack vm; sp := sp vm; globals := globals vm;
     frames := frames vm; framesIndex := n; heap := heap vm |}.
Definition set_heap (vm : VM) (h : list HeapObject) : VM :=
  {| constants := constants vm; stack := stack vm; sp := sp vm; globals := globals vm;
     frames := frames vm; framesIndex := framesIndex vm; heap := h |}.

(** *** The monad of the machine

    A method of [*VM] is a function of the machine state that ends in one of
    three ways: normally ([Ok], with the value returned and the new state),
    by returning a Go [error] ([Err], with its message and the state left
    behind) or by a run-time panic ([Panic]), which aborts the program. *)
Inductive res (A : Type) :=
| Ok (a : A) (vm : VM)
| Err (e : string) (vm : VM)
| Panic.
Arguments Ok {A} a vm.
Arguments Err {A} e vm.
Arguments Panic {A}.

Definition M (A : Type) : Type := VM -> res A.

Definition ret {A} (a : A) : M A := fun vm => Ok a vm.

Definition bind {A B} (m : M A) (k : A -> M B) : M B :=
  fun vm =>
    match m vm with
    | Ok a vm' => k a vm'
    | Err e vm' => Err e vm'
    | Panic => Panic
    end.

Notation "'let*' x ':=' m 'in' k" := (bind m (fun x => k))
  (at level 10, x name, m at level 100, k at level 200).

Definition get : M VM := fun vm => Ok vm vm.
Definition modify (f : VM -> VM) : M unit := fun vm => Ok tt (f vm).
Definition panic {A} : M A := fun _ => Panic.
(** [return fmt.Errorf(...)]. *)
Definition Errorf {A} (msg : string) : M A := fun vm => Err msg vm.
(** A slice access or a type assertion: [None] panics. *)
Definition must {A} (o : option A) : M A :=
  match o with Some a => ret a | None => panic end.
(** A call whose returned [error] is dropped, as in the statement
    [vm.push(x)]. *)
Definition discard_error (m : M unit) : M unit :=
  fun vm =>
    match m vm with
    | Ok _ vm' => Ok tt vm'
    | Err _ vm' => Ok tt vm'
    | Panic => Panic
    end.

(** [o.Type()] on the heap of the machine. *)
Definition Type_of (o : Object) : M string :=
  let* vm := get in must (Type_ (heap vm) o).

(** [&T{...}]: a fresh heap object. *)
Definition new (o : HeapObject) : M Object :=
  let* vm := get in
  let* _ := modify (fun vm => set_heap vm (heap vm ++ [o])) in
  ret (Ref (length (heap vm))).

(** *** Stack and frames *)

(** [vm.stack[i] = o]. *)
Definition stack_set (i : Z) (o : Object) : M unit :=
  let* vm := get in
  let* s := must (store (stack vm) i o) in
  modify (fun vm => set_stack vm s).

Definition push (o : Object) : M unit :=
  let* vm := get in
  if StackSize <=? sp vm then Errorf "stack overflow"
  else
    let* _ := stack_set (sp vm) o in
    modify (fun vm => set_sp vm (sp vm + 1)).

Definition pop : M Object :=
  let* vm := get in
  let* o := must (index (stack vm) (sp vm - 1)) in
  let* _ := modify (fun vm => set_sp vm (sp vm - 1)) in
  ret o.

(** [vm.currentFrame()] followed by a field access: a nil frame pointer
    panics. *)
Definition currentFrame : M Frame :=
  let* vm := get in
  let* slot := must (index (frames vm) (framesIndex vm - 1)) in
  must slot.

(** [vm.currentFrame().ip = i]: the frame is updated in place. *)
Definition set_current_ip (i : Z) : M unit :=
  let* f := currentFrame in
  let* vm := get in
  let* fs := must (store (frames vm) (framesIndex vm - 1) (Some (set_ip f i))) in
  modify (fun vm => set_frames vm fs).

(** [vm.currentFrame().ip += n]. *)
Definition add_current_ip (n : Z) : M unit :=
  let* f := currentFrame in
  set_current_ip (ip f + n).

Definition pushFrame (f : Frame) : M unit :=
  let* vm := get in
  let* fs := must (store (frames vm) (framesIndex vm) (Some f)) in
  modify (fun vm => set_framesIndex (set_frames vm fs) (framesIndex vm + 1)).

(** [popFrame] returns the pointer in the slot, which may be nil. *)
Definition popFrame : M (option Frame) :=
  let* _ := modify (fun vm => set_framesIndex vm (framesIndex vm - 1)) in
  let* vm := get in
  must (index (frames vm) (framesIndex vm)).

Definition nativeBoolToBooleanObject (input : bool) : Object :=
  if input then True_ else False_.

Definition isTruthy (obj : Object) : bool :=
  match obj with
  | Boolean v => v
  | Null => false
  | _ => true
  end.

(** *** The handlers of the dispatch loop *)

Section Machine.

(** The byte that encodes each opcode (the constants of package [code],
    whose source is not available) and the table [builtins.Builtins] are
    parameters of the machine. *)
Variable opcode_byte : Opcode -> Z.
Variable Builtins : list BuiltinFunction.

(** [fmt]'s [%d] of an opcode. *)
Definition fmt_op (op : Opcode) : string := fmt_d (opcode_byte op).

Definition executeBinaryIntegerOperation (op : Opcode) (left right : Object) : M unit :=
  let* leftValue := must (as_Integer left) in
  let* rightValue := must (as_Integer right) in
  let* result :=
    match op with
    | OpAdd => ret (wrap64 (leftValue + rightValue))
    | OpSub => ret (wrap64 (leftValue - rightValue))
    | OpMul => ret (wrap64 (leftValue * rightValue))
    | OpDiv =>
        (* integer divide by zero is a run-time panic *)
        if rightValue =? 0 then panic
        else ret (wrap64 (Z.quot leftValue rightValue))
    | OpMod =>
        if rightValue =? 0 then panic
        else ret (wrap64 (Z.rem leftValue rightValue))
    | _ => Errorf ("unknown integer operator: " +:+ fmt_op op)
    end in
  push (Integer result).

(** The four arithmetic operations on floats, shared by the three handlers
    of float operands. *)
Definition float_arith (op : Opcode) (leftValue rightValue : float64) : M unit :=
  let* result :=
    match op with
    | OpAdd => ret (f64.add leftValue rightValue)
    | OpSub => ret (f64.sub leftValue rightValue)
    | OpMul => ret (f64.mul leftValue rightValue)
    | OpDiv => ret (f64.div leftValue rightValue)
    | _ => Errorf ("unknown float operator: " +:+ fmt_op op)
    end in
  push (Float result).

Definition executeFloatOperation (op : Opcode) (left right : Object) : M unit :=
  let* leftValue := must (as_Float left) in
  let* rightValue := must (as_Float right) in
  float_arith op leftValue rightValue.

Definition executeIntLeftFloatRight (op : Opcode) (left right : Object) : M unit :=
  let* leftValue := must (as_Integer left) in
  let* rightValue := must (as_Float right) in
  float_arith op (f64.of_int64 leftValue) rightValue.

Definition executeIntRightFloatLeft (op : Opcode) (left right : Object) : M unit :=
  let* leftValue := must (as_Float left) in
  let* rightValue := must (as_Integer right) in
  float_arith op leftValue (f64.of_int64 rightValue).

Definition executeBinaryStringOperation (op : Opcode) (left right : Object) : M unit :=
  if negb (Opcode_eqb op OpAdd)
  then Errorf ("unknown string operator: " +:+ fmt_op op)
  else
    let* leftValue := must (as_String left) in
    let* rightValue := must (as_String right) in
    push (String (leftValue +:+ rightValue)).

Definition executeBinaryOperation (op : Opcode) : M unit :=
  let* right := pop in
  let* left := pop in
  let* leftType := Type_of left in
  let* rightType := Type_of right in
  if String.eqb leftType INTEGER_OBJ && String.eqb rightType INTEGER_OBJ
  then executeBinaryIntegerOperation op left right
  else if String.eqb leftType FLOAT_OBJ && String.eqb rightType FLOAT_OBJ
  then executeFloatOperation op left right
  else if String.eqb leftType INTEGER_OBJ && String.eqb rightType FLOAT_OBJ
  then executeIntLeftFloatRight op left right
  else if String.eqb leftType FLOAT_OBJ && String.eqb rightType INTEGER_OBJ
  then executeIntRightFloatLeft op left right
  else if String.eqb leftType STRING_OBJ && String.eqb rightType STRING_OBJ
  then executeBinaryStringOperation op left right
  else Errorf ("unsupported types for binary operation: "
               +:+ leftType +:+ " " +:+ rightType).

(** The six comparisons on floats, shared by the three handlers of float
    operands. *)
Definition float_compare (op : Opcode) (leftValue rightValue : float64) : M unit :=
  match op with
  | OpEqual => push (nativeBoolToBooleanObject (f64.eqb leftValue rightValue))
  | OpNotEqual => push (nativeBoolToBooleanObject (negb (f64.eqb leftValue rightValue)))
  | OpGreaterThan => push (nativeBoolToBooleanObject (f64.ltb rightValue leftValue))
  | OpLessThan => push (nativeBoolToBooleanObject (f64.ltb leftValue rightValue))
  | OpGreaterThanOrEqual => push (nativeBoolToBooleanObject (f64.leb rightValue leftValue))
  | OpLessThanOrEqual => push (nativeBoolToBooleanObject (f64.leb leftValue rightValue))
  | _ => Errorf ("unknown float operator: " +:+ fmt_op op)
  end.

Definition executeIntLeftFloatRightComparison (op : Opcode) (left right : Object) : M unit :=
  let* leftValue := must (as_Integer left) in
  let* rightValue := must (as_Float right) in
  float_compare op (f64.of_int64 leftValue) rightValue.

Definition executeIntRightFloatLeftComparison (op : Opcode) (left right : Object) : M unit :=
  let* leftValue := must (as_Float left) in
  let* rightValue := must (as_Integer right) in
  float_compare op leftValue (f64.of_int64 rightValue).

Definition executeFloatComparison (op : Opcode) (left right : Object) : M unit :=
  let* leftValue := must (as_Float left) in
  let* rightValue := must (as_Float right) in
  float_compare op leftValue rightValue.

Definition executeStringComparison (op : Opcode) (left right : Object) : M unit :=
  if negb (Opcode_eqb op OpEqual)
  then Errorf ("unknown string operator: " +:+ fmt_op op)
  else
    let* leftValue := must (as_String left) in
    let* rightValue := must (as_String right) in
    push (nativeBoolToBooleanObject (String.eqb leftValue rightValue)).

Definition executeIntegerComparison (op : Opcode) (left right : Object) : M unit :=
  let* leftValue := must (as_Integer left) in
  let* rightValue := must (as_Integer right) in
  match op with
  | OpEqual => push (nativeBoolToBooleanObject (rightValue =? leftValue))
  | OpNotEqual => push (nativeBoolToBooleanObject (negb (rightValue =? leftValue)))
  | OpGreaterThan => push (nativeBoolToBooleanObject (leftValue >? rightValue))
  | OpLessThan => push (nativeBoolToBooleanObject (leftValue <? rightValue))
  | OpGreaterThanOrEqual => push (nativeBoolToBooleanObject (leftValue >=? rightValue))
  | OpLessThanOrEqual => push (nativeBoolToBooleanObject (leftValue <=? rightValue))
  | _ => Errorf ("unknown operator: " +:+ fmt_op op)
  end.

(** The comparison [right == left] of two interface values: the same
    dynamic type and the same pointer. It is reached only by operands that
    are not two numbers and not two strings; booleans and null are the
    canonical singletons, a built-in is the one object of its table entry,
    and every other object is identified by its address. *)
Definition same_object (a b : Object) : bool :=
  match a, b with
  | Nil, Nil => true
  | Boolean x, Boolean y => Bool.eqb x y
  | Null, Null => true
  | Builtin f, Builtin g =>
      match f, g with
      | RemoveFromArray, RemoveFromArray | AddToArrayStart, AddToArrayStart
      | AddToArrayEnd, AddToArrayEnd | Max, Max | Min, Min
      | ArrayFirst, ArrayFirst | ArrayLast, ArrayLast
      | AllButFirst, AllButFirst | IndexOf, IndexOf
      | Organize, Organize | Sum, Sum => true
      | _, _ => false
      end
  | Ref p, Ref q => Nat.eqb p q
  | _, _ => false
  end.

(** [left.Type() == lt && right.Type() == rt]: the right operand is asked
    for its type only when the left one has type [lt]. *)
Definition both_types (left right : Object) (lt rt : string) : M bool :=
  let* leftType := Type_of left in
  if String.eqb leftType lt
  then (let* rightType := Type_of right in ret (String.eqb rightType rt))
  else ret false.

Definition executeComparison (op : Opcode) : M unit :=
  let* right := pop in
  let* left := pop in
  let* ii := both_types left right INTEGER_OBJ INTEGER_OBJ in
  if ii then executeIntegerComparison op left right else
  let* if_ := both_types left right INTEGER_OBJ FLOAT_OBJ in
  if if_ then executeIntLeftFloatRightComparison op left right else
  let* ff := both_types left right FLOAT_OBJ FLOAT_OBJ in
  if ff then executeFloatComparison op left right else
  let* fi := both_types left right FLOAT_OBJ INTEGER_OBJ in
  if fi then executeIntRightFloatLeftComparison op left right else
  let* ss := both_types left right STRING_OBJ STRING_OBJ in
  if ss then executeStringComparison op left right else
  match op with
  | OpEqual => push (nativeBoolToBooleanObject (same_object right left))
  | OpNotEqual => push (nativeBoolToBooleanObject (negb (same_object right left)))
  | _ =>
      let* leftType := Type_of left in
      let* rightType := Type_of right in
      Errorf ("unknown operator: " +:+ fmt_op op +:+ " ("
              +:+ leftType +:+ " " +:+ rightType +:+ ")")
  end.

Definition executeBangOperator : M unit :=
  let* val := pop in
  match val with
  | Boolean true => push False_
  | Boolean false => push True_
  | Null => push True_
  | _ => push False_
  end.

Definition executeMinusOperator : M unit :=
  let* val := pop in
  let* t := Type_of val in
  if negb (String.eqb t INTEGER_OBJ)
  then Errorf ("unsupported type for negation: " +:+ t)
  else
    let* value := must (as_Integer val) in
    push (Integer (wrap64 (- value))).

(** [buildArray]: the loop copies [stack[startIndex]], ...,
    [stack[endIndex-1]]; [count] is the number of its iterations. *)
Fixpoint read_slots (stack : list Object) (i : Z) (count : nat) : option (list Object) :=
  match count with
  | O => Some []
  | S n =>
      match index stack i, read_slots stack (i + 1) n with
      | Some o, Some rest => Some (o :: rest)
      | _, _ => None
      end
  end.

Definition buildArray (startIndex endIndex : Z) : M Object :=
  let* vm := get in
  let* elements := must (read_slots (stack vm) startIndex (Z.to_nat (endIndex - startIndex))) in
  new (Array elements).

(** The loop of [buildDict], [for i := startIndex; i < endIndex; i += 2]:
    [count] is the number of its iterations. A key without a [DictKey]
    method ends the loop with an error whose message calls [key.Type()]. *)
Fixpoint buildDict_loop (count : nat) (i : Z)
    (dictedPairs : gmap (string * Z) DictPair) : M (gmap (string * Z) DictPair) :=
  match count with
  | O => ret dictedPairs
  | S n =>
      let* vm := get in
      let* key := must (index (stack vm) i) in
      let* value := must (index (stack vm) (i + 1)) in
      let pair := {| Key := key; Value := value |} in
      match Dictable key with
      | None =>
          let* t := Type_of key in
          Errorf ("unusable as hash key: " +:+ t)
      | Some dictKey => buildDict_loop n (i + 2) (<[dictKey := pair]> dictedPairs)
      end
  end.

Definition buildDict (startIndex endIndex : Z) : M Object :=
  let* dictedPairs :=
    buildDict_loop (Z.to_nat ((endIndex - startIndex + 1) / 2)) startIndex ∅ in
  new (Dict dictedPairs).

Definition executeArrayIndex (array index_ : Object) : M unit :=
  let* vm := get in
  let* arrayObject := must (as_Array (heap vm) array) in
  let* i := must (as_Integer index_) in
  let max := Z.of_nat (length (snd arrayObject)) - 1 in
  if (i <? 0) || (i >? max) then push Null_
  else
    let* el := must (index (snd arrayObject) i) in
    push el.

Definition as_Dict (h : list HeapObject) (o : Object) : option (gmap (string * Z) DictPair) :=
  match o with
  | Ref p => match h !! p with Some (Dict pairs) => Some pairs | _ => None end
  | _ => None
  end.

Definition executeDictIndex (dict index_ : Object) : M unit :=
  let* vm := get in
  let* dictObject := must (as_Dict (heap vm) dict) in
  match Dictable index_ with
  | None =>
      let* t := Type_of index_ in
      Errorf ("unusable as hash key: " +:+ t)
  | Some key =>
      match dictObject !! key with
      | None => push Null_
      | Some found => push (Value found)
      end
  end.

Definition executeIndexExpression (left index_ : Object) : M unit :=
  let* ai := both_types left index_ ARRAY_OBJ INTEGER_OBJ in
  if ai then executeArrayIndex left index_ else
  let* leftType := Type_of left in
  if String.eqb leftType DICT_OBJ then executeDictIndex left index_
  else Errorf ("index operator not supported: " +:+ leftType).

Definition callClosure (p : nat) (fn : CompiledFunction) (free : list Object)
    (numArgs : Z) : M unit :=
  if negb (numArgs =? NumParameters fn)
  then Errorf ("wrong number of arguments: want=" +:+ fmt_d (NumParameters fn)
               +:+ ", got=" +:+ fmt_d numArgs)
  else
    let* vm := get in
    let frame := NewFrame p fn free (sp vm - numArgs) in
    let* _ := pushFrame frame in
    modify (fun vm => set_sp vm (basePointer frame + NumLocals fn)).

Definition callBuiltin (builtin : BuiltinFunction) (numArgs : Z) : M unit :=
  let* vm := get in
  let* args := must (slice (stack vm) (sp vm - numArgs) (sp vm)) in
  match builtins.Fn builtin args (heap vm) with
  | builtins.Panics => panic
  | builtins.Return result h =>
      let* _ := modify (fun vm => set_sp (set_heap vm h) (sp vm - numArgs - 1)) in
      match result with
      | Nil => discard_error (push Null_)
      | _ => discard_error (push result)
      end
  end.

Definition executeCall (numArgs : Z) : M unit :=
  let* vm := get in
  let* callee := must (index (stack vm) (sp vm - 1 - numArgs)) in
  match callee with
  | Builtin b => callBuiltin b numArgs
  | Ref p =>
      match heap vm !! p with
      | Some (Closure fn free) => callClosure p fn free numArgs
      | _ =>
          let* t := Type_of callee in
          Errorf ("calling non-function and non-built-in object: " +:+ t)
      end
  | _ =>
      let* t := Type_of callee in
      Errorf ("calling non-function and non-built-in object: " +:+ t)
  end.

(** [fmt]'s [%T]: the name of the dynamic type. *)
Definition fmt_T (h : list HeapObject) (o : Object) : option string :=
  match o with
  | Nil => Some "<nil>"%string
  | Integer _ => Some "*object.Integer"%string
  | Float _ => Some "*object.Float"%string
  | Boolean _ => Some "*object.Boolean"%string
  | Null => Some "*object.Null"%string
  | String _ => Some "*object.String"%string
  | Builtin _ => Some "*object.Builtin"%string
  | Ref p =>
      match h !! p with
      | Some (Error _) => Some "*object.Error"%string
      | Some (Array _) => Some "*object.Array"%string
      | Some (Dict _) => Some "*object.Dict"%string
      | Some (CompiledFn _) => Some "*object.CompiledFunction"%string
      | Some (Closure _ _) => Some "*object.Closure"%string
      | Some (DateObj _) => Some "*object.Date"%string
      | None => None
      end
  end.

Definition as_CompiledFunction (h : list HeapObject) (o : Object) : option CompiledFunction :=
  match o with
  | Ref p => match h !! p with Some (CompiledFn fn) => Some fn | _ => None end
  | _ => None
  end.

Definition pushClosure (constIndex numFree : Z) : M unit :=
  let* vm := get in
  let* constant := must (index (constants vm) constIndex) in
  match as_CompiledFunction (heap vm) constant with
  | None =>
      let* t := must (fmt_T (heap vm) constant) in
      Errorf ("not a function: " +:+ t)
  | Some function =>
      let* free := must (read_slots (stack vm) (sp vm - numFree) (Z.to_nat numFree)) in
      let* _ := modify (fun vm => set_sp vm (sp vm - numFree)) in
      let* closure := new (Closure function free) in
      push closure
  end.

Definition as_Date (h : list HeapObject) (o : Object) : option Date :=
  match o with
  | Ref p => match h !! p with Some (DateObj d) => Some d | _ => None end
  | _ => None
  end.

(** The case [code.OpGetAttr] of the dispatch switch. Modelled from the
    spec for its date part: [d.FullDate.String()] is the "formatted display
    string" of the date record. *)
Definition executeGetAttr : M unit :=
  let* attrNameObj := pop in
  match as_String attrNameObj with
  | None =>
      let* t := Type_of attrNameObj in
      Errorf ("attribute name must be a string, got " +:+ t)
  | Some attrName =>
      let* obj := pop in
      let* vm := get in
      match as_Date (heap vm) obj with
      | Some d =>
          if String.eqb attrName "hour" then discard_error (push (Integer (wrap64 (Hour d))))
          else if String.eqb attrName "minute" then discard_error (push (Integer (wrap64 (Minute d))))
          else if String.eqb attrName "day" then discard_error (push (Integer (wrap64 (Day d))))
          else if String.eqb attrName "second" then discard_error (push (Integer (wrap64 (Second d))))
          else if String.eqb attrName "month" then discard_error (push (Integer (wrap64 (Month d))))
          else if String.eqb attrName "year" then discard_error (push (Integer (wrap64 (Year d))))
          else if String.eqb attrName "fullDate" then discard_error (push (String (FullDate d)))
          else Errorf ("unknown attribute " +:+ attrName +:+ " for Date")
      | None =>
          let* t := Type_of obj in
          Errorf ("object type " +:+ t +:+ " has no attributes")
      end
  end.

(** The body of one case of the switch in [Run]: [ins] and [ip] are the
    instruction stream of the current frame and the position of the opcode,
    as read at the top of the loop body. *)
Definition exec (op : Opcode) (ins : list Z) (ip : Z) : M unit :=
  match op with
  | OpConstant =>
      let* constIndex := must (ReadUint16 ins (ip + 1)) in
      let* _ := add_current_ip 2 in
      let* vm := get in
      let* c := must (index (constants vm) constIndex) in
      push c
  | OpAdd | OpSub | OpMul | OpDiv | OpMod => executeBinaryOperation op
  | OpAnd =>
      let* right := pop in
      let* left := pop in
      let result := isTruthy left && isTruthy right in
      discard_error (push (nativeBoolToBooleanObject result))
  | OpOr =>
      let* right := pop in
      let* left := pop in
      let result := isTruthy left || isTruthy right in
      discard_error (push (nativeBoolToBooleanObject result))
  | OpEqual | OpNotEqual | OpGreaterThan | OpLessThan
  | OpLessThanOrEqual | OpGreaterThanOrEqual => executeComparison op
  | OpTrue => push True_
  | OpFalse => push False_
  | OpBang => executeBangOperator
  | OpMinus => executeMinusOperator
  | OpPop => let* _ := pop in ret tt
  | OpJump =>
      let* pos := must (ReadUint16 ins (ip + 1)) in
      set_current_ip (pos - 1)
  | OpJumpNotTruthy =>
      let* pos := must (ReadUint16 ins (ip + 1)) in
      let* _ := add_current_ip 2 in
      let* condition := pop in
      if negb (isTruthy condition) then set_current_ip (pos - 1) else ret tt
  | OpNull => push Null_
  | OpSetGlobal =>
      let* globalIndex := must (ReadUint16 ins (ip + 1)) in
      let* _ := add_current_ip 2 in
      let* o := pop in
      let* vm := get in
      let* g := must (store (globals vm) globalIndex o) in
      modify (fun vm => set_globals vm g)
  | OpGetGlobal =>
      let* globalIndex := must (ReadUint16 ins (ip + 1)) in
      let* _ := add_current_ip 2 in
      let* vm := get in
      let* o := must (index (globals vm) globalIndex) in
      push o
  | OpArray =>
      let* numElements := must (ReadUint16 ins (ip + 1)) in
      let* _ := add_current_ip 2 in
      let* vm := get in
      let* array := buildArray (sp vm - numElements) (sp vm) in
      let* _ := modify (fun vm => set_sp vm (sp vm - numElements)) in
      push array
  | OpDict =>
      let* numElements := must (ReadUint16 ins (ip + 1)) in
      let* _ := add_current_ip 2 in
      let* vm := get in
      let* dict := buildDict (sp vm - numElements) (sp vm) in
      let* _ := modify (fun vm => set_sp vm (sp vm - numElements)) in
      push dict
  | OpIndex =>
      let* index_ := pop in
      let* left := pop in
      executeIndexExpression left index_
  | OpCall =>
      let* numArgs := must (ReadUint8 ins (ip + 1)) in
      let* _ := add_current_ip 1 in
      executeCall numArgs
  | OpReturnValue =>
      let* returnValue := pop in
      let* slot := popFrame in
      let* frame := must slot in
      let* _ := modify (fun vm => set_sp vm (basePointer frame - 1)) in
      push returnValue
  | OpReturn =>
      let* slot := popFrame in
      let* frame := must slot in
      let* _ := modify (fun vm => set_sp vm (basePointer frame - 1)) in
      push Null_
  | OpSetLocal =>
      let* localIndex := must (ReadUint8 ins (ip + 1)) in
      let* _ := add_current_ip 1 in
      let* frame := currentFrame in
      let* o := pop in
      stack_set (basePointer frame + localIndex) o
  | OpGetLocal =>
      let* localIndex := must (ReadUint8 ins (ip + 1)) in
      let* _ := add_current_ip 1 in
      let* frame := currentFrame in
      let* vm := get in
      let* o := must (index (stack vm) (basePointer frame + localIndex)) in
      push o
  | OpGetBuiltin =>
      let* builtinIndex := must (ReadUint8 ins (ip + 1)) in
      let* _ := add_current_ip 1 in
      let* definition := must (index Builtins builtinIndex) in
      push (Builtin definition)
  | OpClosure =>
      let* constIndex := must (ReadUint16 ins (ip + 1)) in
      let* numFree := must (ReadUint8 ins (ip + 3)) in
      let* _ := add_current_ip 3 in
      pushClosure constIndex numFree
  | OpGetFree =>
      let* freeIndex := must (ReadUint8 ins (ip + 1)) in
      let* _ := add_current_ip 1 in
      let* frame := currentFrame in
      let* o := must (index (Free frame) freeIndex) in
      push o
  | OpCurrentClosure =>
      let* frame := currentFrame in
      push (Ref (cl frame))
  | OpWhile =>
      let* pos := must (ReadUint16 ins (ip + 1)) in
      let* _ := add_current_ip 2 in
      let* condition := pop in
      let* _ := (if negb (isTruthy condition) then set_current_ip (pos - 1) else ret tt) in
      set_current_ip (pos - 1)
  | OpGetAttr => executeGetAttr
  end.

(** [code.Opcode(ins[ip])] followed by the switch: the first opcode, in the
    order of the cases, whose byte is the one read; a byte that matches no
    case does nothing. *)
Definition decode (b : Z) : option Opcode :=
  List.find (fun op => opcode_byte op =? b) all_opcodes.

(** The loop condition of [Run]. *)
Definition running : M bool :=
  let* f := currentFrame in
  ret (ip f <? Z.of_nat (length (Frame_Instructions f)) - 1).

(** One iteration of the loop of [Run]. *)
Definition step : M unit :=
  let* _ := add_current_ip 1 in
  let* f := currentFrame in
  let ip := ip f in
  let ins := Frame_Instructions f in
  let* b := must (index ins ip) in
  match decode b with
  | Some op => exec op ins ip
  | None => ret tt
  end.

(** [Run], with a bound on the number of iterations: [None] when the bound
    is reached before the loop ends. *)
Fixpoint Run (fuel : nat) (vm : VM) : option (res unit) :=
  match running vm with
  | Ok true vm1 =>
      match fuel with
      | O => None
      | S fuel' =>
          match step vm1 with
          | Ok _ vm2 => Run fuel' vm2
          | r => Some r
          end
      end
  | Ok false vm1 => Some (Ok tt vm1)
  | Err e vm1 => Some (Err e vm1)
  | Panic => Some Panic
  end.

Definition LastPoppedStackElem (vm : VM) : option Object :=
  index (stack vm) (sp vm).

Definition StackTop (vm : VM) : option Object :=
  if sp vm =? 0 then Some Nil else index (stack vm) (sp vm - 1).

End Machine.

(** [New]: the bytecode is its instructions, its constants and the heap
    that the constants refer to. *)
Definition New (instructions : list Z) (consts : list Object) (h : list HeapObject) : VM :=
  let mainFct := {| Instructions := instructions; NumLocals := 0; NumParameters := 0 |} in
  let mainClosure := length h in
  let mainFrame := NewFrame mainClosure mainFct [] 0 in
  {| constants := consts;
     stack := replicate (Z.to_nat StackSize) Nil;
     sp := 0;
     globals := replicate (Z.to_nat GlobalSize) Nil;
     frames := Some mainFrame :: replicate (Z.to_nat MaxFrames - 1) None;
     framesIndex := 1;
     heap := h ++ [Closure mainFct []] |}.

Definition NewWithGlobalsStore (instructions : list Z) (consts : list Object)
    (h : list HeapObject) (s : list Object) : VM :=
  set_globals (New instructions consts h) s.

End vm.

(** ** Concrete machines

    The byte of each opcode is a parameter of the machine; where a concrete
    machine is run below, the opcodes are numbered in the order in which the
    dispatch switch lists them. *)

Definition table_order (op : code.Opcode) : Z :=
  match find (fun p => code.Opcode_eqb (snd p) op)
             (imap (fun i o => (Z.of_nat i, o)) code.all_opcodes) with
  | Some (i, _) => i
  | None => 255
  end.

(** The table of built-ins in the order of the specification's list. *)
Definition spec_order_builtins : list object.BuiltinFunction :=
  [ object.ArrayFirst; object.ArrayLast; object.AllButFirst;
    object.AddToArrayStart; object.AddToArrayEnd; object.RemoveFromArray;
    object.IndexOf; object.Organize; object.Sum; object.Min; object.Max ].

(** The machines below are built by [NewWithGlobalsStore] on a globals
    store of sixteen slots. *)
Definition small_store : list object.Object := replicate 16 object.Nil.

Definition fresh_machine (instructions : list Z) (consts : list object.Object)
    (h : list object.HeapObject) : vm.VM :=
  vm.NewWithGlobalsStore instructions consts h small_store.

(** The frame of the main program in a freshly built machine. *)
Definition main_frame (instructions : list Z) (h : list object.HeapObject) : vm.Frame :=
  vm.NewFrame (length h)
    {| object.Instructions := instructions;
       object.NumLocals := 0; object.NumParameters := 0 |} [] 0.

(** A freshly built machine on which [operands] have been pushed. *)
Definition machine_with (instructions : list Z) (consts : list object.Object)
    (h : list object.HeapObject) (operands : list object.Object) : vm.VM :=
  let m := fresh_machine instructions consts h in
  vm.set_sp
    (vm.set_stack m (operands ++ drop (length operands) (vm.stack m)))
    (Z.of_nat (length operands)).

(** [n] iterations of the dispatch loop, when all of them complete. *)
Fixpoint iterate_step (n : nat) (m : vm.VM) : option vm.VM :=
  match n with
  | O => Some m
  | S n' =>
      match vm.step table_order spec_order_builtins m with
      | vm.Ok _ m' => iterate_step n' m'
      | _ => None
      end
  end.

(** The machine after [n] iterations of its dispatch loop (the machine
    itself when one of them does not complete). *)
Definition run_for (n : nat) (m : vm.VM) : vm.VM :=
  match iterate_step n m with
  | Some m' => m'
  | None => m
  end.

(** [var f << fct() { f() }; f()]: a function that calls itself without
    end. *)
Definition recursion_fn : object.CompiledFunction :=
  {| object.Instructions :=
       [ table_order code.OpCurrentClosure;
         table_order code.OpCall; 0;
         table_order code.OpReturnValue ];
     object.NumLocals := 0;
     object.NumParameters := 0 |}.

Definition recursion_machine : vm.VM :=
  fresh_machine
    [ table_order code.OpClosure; 0; 0; 0;
      table_order code.OpSetGlobal; 0; 0;
      table_order code.OpGetGlobal; 0; 0;
      table_order code.OpCall; 0;
      table_order code.OpPop ]
    [object.Ref 0%nat]
    [object.CompiledFn recursion_fn].

(** [fct(a, b) { a + b }(3, 4)]. *)
Definition add_fn : object.CompiledFunction :=
  {| object.Instructions :=
       [ table_order code.OpGetLocal; 0;
         table_order code.OpGetLocal; 1;
         table_order code.OpAdd;
         table_order code.OpReturnValue ];
     object.NumLocals := 2;
     object.NumParameters := 2 |}.

Definition add_machine : vm.VM :=
  fresh_machine
    [ table_order code.OpClosure; 0; 0; 0;
      table_order code.OpConstant; 0; 1;
      table_order code.OpConstant; 0; 2;
      table_order code.OpCall; 2;
      table_order code.OpPop ]
    [object.Ref 0%nat; object.Integer 3; object.Integer 4]
    [object.CompiledFn add_fn].

(** The end-to-end scenarios of the specification, assembled by hand from
    its compilation rules. [var fib << fct(n) { if (n < 2) { return n; }
    return fib(n-1) + fib(n-2); }; fib(10)]: *)
Definition fib_fn : object.CompiledFunction :=
  {| object.Instructions :=
       [ table_order code.OpConstant; 0; 1;
         table_order code.OpGetLocal; 0;
         table_order code.OpGreaterThan;
         table_order code.OpJumpNotTruthy; 0; 15;
         table_order code.OpGetLocal; 0;
         table_order code.OpReturnValue;
         table_order code.OpJump; 0; 16;
         table_order code.OpNull;
         table_order code.OpPop;
         table_order code.OpCurrentClosure;
         table_order code.OpGetLocal; 0;
         table_order code.OpConstant; 0; 2;
         table_order code.OpSub;
         table_order code.OpCall; 1;
         table_order code.OpCurrentClosure;
         table_order code.OpGetLocal; 0;
         table_order code.OpConstant; 0; 1;
         table_order code.OpSub;
         table_order code.OpCall; 1;
         table_order code.OpAdd;
         table_order code.OpReturnValue ];
     object.NumLocals := 1;
     object.NumParameters := 1 |}.

Definition fib_machine : vm.VM :=
  fresh_machine
    [ table_order code.OpClosure; 0; 0; 0;
      table_order code.OpSetGlobal; 0; 0;
      table_order code.OpGetGlobal; 0; 0;
      table_order code.OpConstant; 0; 3;
      table_order code.OpCall; 1;
      table_order code.OpPop ]
    [object.Ref 0%nat; object.Integer 2; object.Integer 1; object.Integer 10]
    [object.CompiledFn fib_fn].

(** [var newAdder << fct(a) { fct(b) { a + b } };
    var addTwo << newAdder(2); addTwo(3)]: *)
Definition adder_inner_fn : object.CompiledFunction :=
  {| object.Instructions :=
       [ table_order code.OpGetFree; 0;
         table_order code.OpGetLocal; 0;
         table_order code.OpAdd;
         table_order code.OpReturnValue ];
     object.NumLocals := 1;
     object.NumParameters := 1 |}.

Definition adder_outer_fn : object.CompiledFunction :=
  {| object.Instructions :=
       [ table_order code.OpGetLocal; 0;
         table_order code.OpClosure; 0; 0; 1;
         table_order code.OpReturnValue ];
     object.NumLocals := 1;
     object.NumParameters := 1 |}.

Definition adder_machine : vm.VM :=
  fresh_machine
    [ table_order code.OpClosure; 0; 1; 0;
      table_order code.OpSetGlobal; 0; 0;
      table_order code.OpGetGlobal; 0; 0;
      table_order code.OpConstant; 0; 2;
      table_order code.OpCall; 1;
      table_order code.OpSetGlobal; 0; 1;
      table_order code.OpGetGlobal; 0; 1;
      table_order code.OpConstant; 0; 3;
      table_order code.OpCall; 1;
      table_order code.OpPop ]
    [object.Ref 0%nat; object.Ref 1%nat; object.Integer 2; object.Integer 3]
    [object.CompiledFn adder_inner_fn; object.CompiledFn adder_outer_fn].

(** [{1: 1, 2: 2}[2]] and ["Va" + "ja" + "lang"]: *)
Definition dict_machine : vm.VM :=
  fresh_machine
    [ table_order code.OpConstant; 0; 0;
      table_order code.OpConstant; 0; 0;
      table_order code.OpConstant; 0; 1;
      table_order code.OpConstant; 0; 1;
      table_order code.OpDict; 0; 4;
      table_order code.OpConstant; 0; 1;
      table_order code.OpIndex;
      table_order code.OpPop ]
    [object.Integer 1; object.Integer 2] [].

Definition concat_machine : vm.VM :=
  fresh_machine
    [ table_order code.OpConstant; 0; 0;
      table_order code.OpConstant; 0; 1;
      table_order code.OpAdd;
      table_order code.OpConstant; 0; 2;
      table_order code.OpAdd;
      table_order code.OpPop ]
    [object.String "Va"; object.String "ja"; object.String "lang"] [].

(** What [Run] leaves when it ends normally within [fuel] iterations: the
    stack pointer and the element last popped. *)
Definition outcome (fuel : nat) (m : vm.VM) : option (Z * option object.Object) :=
  match vm.Run table_order spec_order_builtins fuel m with
  | Some (vm.Ok _ m') => Some (vm.sp m', vm.LastPoppedStackElem m')
  | _ => None
  end.

(** A function of one parameter and three local slots, and a machine
    about to call it with [args]. *)
Definition one_parameter_fn : object.CompiledFunction :=
  {| object.Instructions :=
       [table_order code.OpGetLocal; 0; table_order code.OpReturnValue];
     object.NumLocals := 3;
     object.NumParameters := 1 |}.

Definition calling_machine (args : list object.Object) : vm.VM :=
  machine_with [table_order code.OpCall; Z.of_nat (length args)] []
    [object.Closure one_parameter_fn []] (object.Ref 0%nat :: args).

(** ** Specification-side definitions *)

(** The exact integer that each arithmetic operator of the host denotes
    before it is reduced to 64 bits: division truncates toward zero
    ([Z.quot]) and the remainder takes the sign of the dividend ([Z.rem]). *)
Definition host_exact (op : code.Opcode) (x y : Z) : Z :=
  match op with
  | code.OpAdd => x + y
  | code.OpSub => x - y
  | code.OpMul => x * y
  | code.OpDiv => Z.quot x y
  | _ => Z.rem x y
  end.

Definition arithmetic_opcodes : list code.Opcode :=
  [code.OpAdd; code.OpSub; code.OpMul; code.OpDiv; code.OpMod].

Definition comparison_opcodes : list code.Opcode :=
  [code.OpEqual; code.OpNotEqual; code.OpGreaterThan; code.OpLessThan;
   code.OpGreaterThanOrEqual; code.OpLessThanOrEqual].

(** The built-ins that return nothing when their array is empty. *)
Definition returns_nothing_on_empty : list object.BuiltinFunction :=
  [object.ArrayFirst; object.ArrayLast; object.AllButFirst; object.Min; object.Max].

(** FNV-1a on 64 bits as it is specified: start from the offset basis and,
    for each byte in turn, xor the byte into the hash and multiply by the
    FNV prime modulo [2^64]. *)
Definition bytes_of (s : string) : list Z :=
  map (fun c => Z.of_N (N_of_ascii c)) (list_ascii_of_string s).

Definition FNV1a_64 (bytes : list Z) : Z :=
  fold_left (fun hash byte => (Z.lxor hash byte * 1099511628211) mod 2 ^ 64)
            bytes 14695981039346656037.

(** An [int64] read as a [uint64]: the same 64 bits. *)
Definition reinterpret_unsigned (i : Z) : Z :=
  if i <? 0 then i + 2 ^ 64 else i.

(** The map that holds, for every key of [pairs] in turn, the pair of that
    key: a later pair replaces an earlier one with the same [DictKey]. *)
Definition insert_pair (m : gmap (string * Z) object.DictPair)
    (kv : object.Object * object.Object) : gmap (string * Z) object.DictPair :=
  match object.Dictable (fst kv) with
  | Some dictKey => <[dictKey := {| object.Key := fst kv; object.Value := snd kv |}]> m
  | None => m
  end.

Definition dict_of_pairs (pairs : list (object.Object * object.Object))
  : gmap (string * Z) object.DictPair :=
  fold_left insert_pair pairs ∅.

(** The operand stack holds [pairs], key below value, from slot [start]
    upward. *)
Definition holds_pairs (stack : list object.Object) (start : Z)
    (pairs : list (object.Object * object.Object)) : Prop :=
  forall (j : nat) key value,
    pairs !! j = Some (key, value) ->
    index stack (start + 2 * Z.of_nat j) = Some key
    /\ index stack (start + 2 * Z.of_nat j + 1) = Some value.

(** The number of arguments that each built-in other than [organize]
    tests for. *)
Definition arity (b : object.BuiltinFunction) : nat :=
  match b with
  | object.RemoveFromArray | object.AddToArrayStart | object.AddToArrayEnd
  | object.IndexOf => 2
  | _ => 1
  end.

(** A result of a built-in that is a value of error kind. *)
Definition is_error_result (r : builtins.Result) : Prop :=
  match r with
  | builtins.Return (object.Ref p) h =>
      exists msg, h !! p = Some (object.Error msg)
  | _ => False
  end.

(** Between two states, the frame stack has the same height, the operand
    stack and the frame stack keep their capacity, and every frame keeps
    its base pointer (only instruction pointers move). *)
Definition frame_stable (a b : vm.VM) : Prop :=
  vm.framesIndex b = vm.framesIndex a
  /\ length (vm.stack b) = length (vm.stack a)
  /\ length (vm.frames b) = length (vm.frames a)
  /\ forall i f, index (vm.frames a) i = Some (Some f) ->
       exists f', index (vm.frames b) i = Some (Some f')
                  /\ vm.basePointer f' = vm.basePointer f.

(** A computation that leaves the frames stable, whether it ends normally
    or with an error. *)
Definition preserves {A} (m : vm.M A) : Prop :=
  forall s,
    match m s with
    | vm.Ok _ s' | vm.Err _ s' => frame_stable s s'
    | vm.Panic => True
    end.

(** Between two states, the operand stack keeps its capacity and every
    frame below the top of the frame stack of the first state keeps its
    base pointer: what one iteration of the dispatch loop guarantees, a
    call and a return included. *)
Definition frame_step (a b : vm.VM) : Prop :=
  length (vm.stack b) = length (vm.stack a)
  /\ forall i f, i < vm.framesIndex a ->
       index (vm.frames a) i = Some (Some f) ->
       exists f', index (vm.frames b) i = Some (Some f')
                  /\ vm.basePointer f' = vm.basePointer f.

Definition advances {A} (m : vm.M A) : Prop :=
  forall s,
    match m s with
    | vm.Ok _ s' => frame_step s s'
    | _ => True
    end.

(** [n] iterations of the dispatch loop that all complete normally and
    all start with more than [depth] frames active: the execution of the
    body of a function called from depth [depth], nested calls included,
    up to but not including its return to that depth. *)
Fixpoint steps_above (opcode_byte : code.Opcode -> Z)
    (Builtins : list object.BuiltinFunction) (depth : Z) (n : nat)
    (s : vm.VM) : option vm.VM :=
  match n with
  | O => Some s
  | S n' =>
      if depth <? vm.framesIndex s then
        match vm.step opcode_byte Builtins s with
        | vm.Ok _ s' => steps_above opcode_byte Builtins depth n' s'
        | _ => None
        end
      else None
  end.

(** The message of the error that a computation returned, if it did. *)
Definition error_of {A} (r : vm.res A) : option string :=
  match r with
  | vm.Err e _ => Some e
  | _ => None
  end.

(** The object on top of the operand stack. *)
Definition top (m : vm.VM) : option object.Object :=
  index (vm.stack m) (vm.sp m - 1).

(** The frame that [currentFrame] returns. *)
Definition current (m : vm.VM) : option (option vm.Frame) :=
  index (vm.frames m) (vm.framesIndex m - 1).

(** The machine after [vm.currentFrame().ip = i], when the current frame
    is [f]. *)
Definition jumped (m : vm.VM) (f : vm.Frame) (i : Z) : vm.VM :=
  vm.set_frames m
    (<[Z.to_nat (vm.framesIndex m - 1) := Some (vm.set_ip f i)]> (vm.frames m)).

(** A machine about to execute, in the body of [recursion_fn], the call of
    that function by itself, with every frame of the frame stack in use:
    the instruction at position 1 is [OpCall 0], the callee on top of the
    stack is the closure of [recursion_fn], which takes no parameter; the
    call, and with it the iteration of the dispatch loop, panics. *)
Definition call_on_full_frame_stack (s : vm.VM) : Prop :=
  vm.framesIndex s = vm.MaxFrames
  /\ current s
     = Some (Some {| vm.cl := 2; vm.Fn := recursion_fn; vm.Free := [];
                     vm.ip := 0; vm.basePointer := 1023 |})
  /\ index (object.Instructions recursion_fn) 1 = Some (table_order code.OpCall)
  /\ vm.decode table_order (table_order code.OpCall) = Some code.OpCall
  /\ code.ReadUint8 (object.Instructions recursion_fn) 2 = Some 0
  /\ index (vm.stack s) (vm.sp s - 1 - 0) = Some (object.Ref 2%nat)
  /\ vm.heap s !! 2%nat = Some (object.Closure recursion_fn [])
  /\ object.NumParameters recursion_fn = 0
  /\ vm.exec table_order spec_order_builtins code.OpCall
       (object.Instructions recursion_fn) 1 s = vm.Panic
  /\ vm.step table_order spec_order_builtins s = vm.Panic.

(** ** Definitions for the further properties of the code *)

(** *** Operand kinds *)

(** A type tag of a number. *)
Definition is_number (t : string) : Prop :=
  t = object.INTEGER_OBJ \/ t = object.FLOAT_OBJ.

(** The operand types for which the arithmetic and the comparison
    handlers have a case of their own: two numbers, or two strings. *)
Definition dispatched (lt rt : string) : Prop :=
  (is_number lt /\ is_number rt)
  \/ (lt = object.STRING_OBJ /\ rt = object.STRING_OBJ).

(** A number as a float: an integer is converted, a float is itself. *)
Definition float_value (o : object.Object) : option float64 :=
  match o with
  | object.Integer x => Some (f64.of_int64 x)
  | object.Float y => Some y
  | _ => None
  end.

(** The float operation of each of the four arithmetic opcodes that the
    float handlers know. *)
Definition float_exact (op : code.Opcode) (a b : float64) : float64 :=
  match op with
  | code.OpAdd => f64.add a b
  | code.OpSub => f64.sub a b
  | code.OpMul => f64.mul a b
  | _ => f64.div a b
  end.

(** What each comparison opcode asks of two integers. *)
Definition Z_holds (op : code.Opcode) (x y : Z) : Prop :=
  match op with
  | code.OpEqual => x = y
  | code.OpNotEqual => x <> y
  | code.OpGreaterThan => x > y
  | code.OpLessThan => x < y
  | code.OpGreaterThanOrEqual => x >= y
  | _ => x <= y
  end.

(** What each comparison opcode asks of the IEEE-754 comparison of two
    floats, which has no result when an operand is not a number. *)
Definition float_holds (op : code.Opcode) (c : option comparison) : Prop :=
  match op with
  | code.OpEqual => c = Some Eq
  | code.OpNotEqual => c <> Some Eq
  | code.OpGreaterThan => c = Some Gt
  | code.OpLessThan => c = Some Lt
  | code.OpGreaterThanOrEqual => c = Some Gt \/ c = Some Eq
  | _ => c = Some Lt \/ c = Some Eq
  end.

Definition is_Float (o : object.Object) : bool :=
  match o with object.Float _ => true | _ => false end.

Definition is_numeric (o : object.Object) : Prop :=
  match o with object.Integer _ | object.Float _ => True | _ => False end.

(** What [callBuiltin] pushes for the result [r] of a built-in: [Null]
    when the built-in returned nothing. *)
Definition result_pushed (r : object.Object) : object.Object :=
  match r with object.Nil => vm.Null_ | _ => r end.

(** *** The shape of the machine *)

(** The heap [h'] holds every object of [h] at the same address, with the
    same contents unless it is an array, which is still an array. *)
Definition heap_extends (h h' : list object.HeapObject) : Prop :=
  forall p o, h !! p = Some o ->
    match o with
    | object.Array _ => exists els, h' !! p = Some (object.Array els)
    | _ => h' !! p = Some o
    end.

(** Between two states the constants are the same, the operand stack, the
    globals store and the frame stack keep their capacity, and the heap
    extends. *)
Definition machine_stable (a b : vm.VM) : Prop :=
  vm.constants b = vm.constants a
  /\ length (vm.stack b) = length (vm.stack a)
  /\ length (vm.globals b) = length (vm.globals a)
  /\ length (vm.frames b) = length (vm.frames a)
  /\ heap_extends (vm.heap a) (vm.heap b).

(** Every frame of the frame stack, live or left behind by a return, holds
    the function and the free variables of the closure it refers to. *)
Definition closures_cached (s : vm.VM) : Prop :=
  forall i f, index (vm.frames s) i = Some (Some f) ->
    vm.heap s !! vm.cl f = Some (object.Closure (vm.Fn f) (vm.Free f)).

(** A computation that, from a state whose frames hold their closures,
    leaves the machine stable and its frames holding their closures,
    whether it ends normally or with an error. *)
Definition sound {A} (m : vm.M A) : Prop :=
  forall s, closures_cached s ->
    match m s with
    | vm.Ok _ s' | vm.Err _ s' => machine_stable s s' /\ closures_cached s'
    | vm.Panic => True
    end.

(** The loop condition of [Run] is false: the instruction pointer of the
    current frame is at or past the last instruction. *)
Definition ended (s : vm.VM) : Prop :=
  exists f, current s = Some (Some f)
    /\ Z.of_nat (length (vm.Frame_Instructions f)) - 1 <= vm.ip f.

(** ** Properties *)

Import object code vm.

(** *** Slices *)

Lemma index_Some_range {A} (l : list A) i x :
  index l i = Some x -> 0 <= i < Z.of_nat (length l).
Proof.
  unfold index. destruct (i <? 0) eqn:E; [discriminate|].
  intros H. apply lookup_lt_Some in H. lia.
Qed.

Lemma index_in_range {A} (l : list A) i :
  0 <= i < Z.of_nat (length l) -> exists x, index l i = Some x.
Proof.
  intros H. unfold index. replace (i <? 0) with false by lia.
  destruct (lookup_lt_is_Some_2 l (Z.to_nat i)) as [x Hx]; [lia|]. eauto.
Qed.

Lemma store_in_range {A} (l : list A) i x :
  0 <= i < Z.of_nat (length l) -> store l i x = Some (<[Z.to_nat i := x]> l).
Proof.
  intros H. unfold store.
  replace (0 <=? i) with true by lia.
  replace (i <? Z.of_nat (length l)) with true by lia.
  reflexivity.
Qed.

Lemma store_Some {A} (l l' : list A) i x :
  store l i x = Some l' ->
  0 <= i < Z.of_nat (length l) /\ l' = <[Z.to_nat i := x]> l.
Proof.
  unfold store. destruct (0 <=? i) eqn:E1; [|discriminate].
  destruct (i <? Z.of_nat (length l)) eqn:E2; [|discriminate].
  simpl. intros [= <-]. split; [lia | reflexivity].
Qed.

Lemma index_insert_eq {A} (l : list A) i x :
  0 <= i < Z.of_nat (length l) -> index (<[Z.to_nat i := x]> l) i = Some x.
Proof.
  intros H. unfold index. replace (i <? 0) with false by lia.
  apply list_lookup_insert_eq. lia.
Qed.

Lemma index_insert_ne {A} (l : list A) i j x :
  0 <= i -> i <> j -> index (<[Z.to_nat i := x]> l) j = index l j.
Proof.
  intros Hi Hne. unfold index. destruct (j <? 0) eqn:E; [reflexivity|].
  apply list_lookup_insert_ne. lia.
Qed.

(** *** The monad *)

Lemma bind_Ok {A B} (m : M A) (k : A -> M B) vm b vm2 :
  bind m k vm = Ok b vm2 ->
  exists a vm1, m vm = Ok a vm1 /\ k a vm1 = Ok b vm2.
Proof.
  unfold bind. destruct (m vm) as [a vm1| |]; [eauto | discriminate | discriminate].
Qed.

Lemma must_Ok {A} (o : option A) vm a vm' :
  must o vm = Ok a vm' -> o = Some a /\ vm' = vm.
Proof. destruct o; simpl; [intros [= -> ->]; auto | discriminate]. Qed.

Lemma bind_must {A B} (o : option A) a (k : A -> M B) vm :
  o = Some a -> bind (must o) k vm = k a vm.
Proof. intros ->. reflexivity. Qed.

Lemma bind_eq {A B} (m : M A) (k : A -> M B) vm a vm1 :
  m vm = Ok a vm1 -> bind m k vm = k a vm1.
Proof. unfold bind. intros ->. reflexivity. Qed.

(** *** Stack primitives *)

Lemma push_ok vm o :
  0 <= sp vm < StackSize -> sp vm < Z.of_nat (length (stack vm)) ->
  push o vm = Ok tt (set_sp (set_stack vm (<[Z.to_nat (sp vm) := o]> (stack vm)))
                            (sp vm + 1)).
Proof.
  intros H1 H2. unfold push, stack_set, bind, get.
  replace (StackSize <=? sp vm) with false by lia.
  rewrite store_in_range by lia. reflexivity.
Qed.

Lemma push_Ok_sp o s s' : push o s = Ok tt s' -> sp s' = sp s + 1.
Proof.
  unfold push, stack_set, bind, get, modify, must, ret, panic, Errorf.
  destruct (StackSize <=? sp s); [discriminate|].
  destruct (store (stack s) (sp s) o) as [l|]; [|discriminate].
  intros [= <-]. reflexivity.
Qed.

Lemma pop_ok vm i o :
  i = sp vm - 1 -> index (stack vm) i = Some o ->
  pop vm = Ok o (set_sp vm (sp vm - 1)).
Proof.
  intros -> H. unfold pop, bind, get. rewrite H. reflexivity.
Qed.

Lemma push_after_two_pops vm x y o :
  sp vm <= StackSize ->
  index (stack vm) (sp vm - 2) = Some x ->
  index (stack vm) (sp vm - 1) = Some y ->
  exists vm', push o (set_sp (set_sp vm (sp vm - 1)) (sp vm - 1 - 1)) = Ok tt vm'
    /\ sp vm' = sp vm - 1
    /\ index (stack vm') (sp vm' - 1) = Some o
    /\ frames vm' = frames vm /\ framesIndex vm' = framesIndex vm
    /\ heap vm' = heap vm.
Proof.
  intros Hsp H2 H1. pose proof (index_Some_range _ _ _ H2) as R.
  eexists. split.
  - apply push_ok; simpl; unfold StackSize in *; lia.
  - simpl. repeat split; try lia.
    replace (sp vm - 1 - 1 + 1 - 1) with (sp vm - 1 - 1) by lia.
    apply index_insert_eq. lia.
Qed.

Lemma two_pops {A} vm x y (k : Object -> Object -> M A) :
  index (stack vm) (sp vm - 2) = Some x ->
  index (stack vm) (sp vm - 1) = Some y ->
  (let* right := pop in let* left := pop in k right left) vm
  = k y x (set_sp (set_sp vm (sp vm - 1)) (sp vm - 1 - 1)).
Proof.
  intros H2 H1. unfold bind at 1. rewrite (pop_ok vm _ _ eq_refl H1).
  unfold bind at 1. erewrite pop_ok; [reflexivity | reflexivity |].
  simpl. replace (sp vm - 1 - 1) with (sp vm - 2) by lia. exact H2.
Qed.

(** *** Machine integers *)

Lemma wrap64_range z : - 2 ^ 63 <= wrap64 z < 2 ^ 63.
Proof. unfold wrap64. pose proof (Z.mod_pos_bound (z + 2 ^ 63) (2 ^ 64)). lia. Qed.

Lemma wrap64_congruent z : (wrap64 z - z) mod 2 ^ 64 = 0.
Proof.
  unfold wrap64.
  replace ((z + 2 ^ 63) mod 2 ^ 64 - 2 ^ 63 - z)
    with (- (2 ^ 64 * ((z + 2 ^ 63) / 2 ^ 64))).
  - rewrite Z.mul_comm, <- Z.mul_opp_l. apply Z.mod_mul. lia.
  - pose proof (Z.div_mod (z + 2 ^ 63) (2 ^ 64)). lia.
Qed.

Lemma wrap64_id z : - 2 ^ 63 <= z < 2 ^ 63 -> wrap64 z = z.
Proof. intros H. unfold wrap64. rewrite Z.mod_small; lia. Qed.

Section Properties.

Variable opcode_byte : Opcode -> Z.
Variable Builtins : list BuiltinFunction.

(** *** Arithmetic on two integers *)

Lemma exec_arithmetic op ins ip :
  In op arithmetic_opcodes ->
  exec opcode_byte Builtins op ins ip = executeBinaryOperation opcode_byte op.
Proof.
  simpl. intros [<-|[<-|[<-|[<-|[<-|[]]]]]]; reflexivity.
Qed.

(** C2 (amended): for every pair of Integer operands and every arithmetic
    opcode, provided the divisor is not zero under [OpDiv] and [OpMod], the
    opcode pops both operands and pushes the Integer that the host computes
    in 64-bit signed arithmetic: the exact result (division truncating
    toward zero) wrapped into the signed 64-bit range. *)
Theorem C2_integer_arithmetic vm ins ip op x y :
  In op arithmetic_opcodes ->
  (op = OpDiv \/ op = OpMod -> y <> 0) ->
  sp vm <= StackSize ->
  index (stack vm) (sp vm - 2) = Some (Integer x) ->
  index (stack vm) (sp vm - 1) = Some (Integer y) ->
  exists vm',
    exec opcode_byte Builtins op ins ip vm = Ok tt vm'
    /\ sp vm' = sp vm - 1
    /\ top vm' = Some (Integer (wrap64 (host_exact op x y))).
Proof.
  intros Hop Hz Hsp H2 H1.
  rewrite exec_arithmetic by assumption.
  unfold executeBinaryOperation. rewrite (two_pops _ _ _ _ H2 H1).
  cbn -[push wrap64 Z.quot Z.rem Z.mul Z.add Z.sub].
  unfold executeBinaryIntegerOperation.
  cbn -[push wrap64 Z.quot Z.rem Z.mul Z.add Z.sub].
  assert (Q : forall r, exists vm',
    push (Integer r) (set_sp (set_sp vm (sp vm - 1)) (sp vm - 1 - 1)) = Ok tt vm'
    /\ sp vm' = sp vm - 1 /\ top vm' = Some (Integer r)).
  { intros r. destruct (push_after_two_pops vm _ _ (Integer r) Hsp H2 H1)
      as (vm' & E & S & T & _). exists vm'. auto. }
  simpl in Hop. destruct Hop as [<-|[<-|[<-|[<-|[<-|[]]]]]];
    simpl host_exact; cbv iota beta; try apply Q.
  - destruct (Z.eqb_spec y 0) as [->|]; [exfalso; apply Hz; auto | apply Q].
  - destruct (Z.eqb_spec y 0) as [->|]; [exfalso; apply Hz; auto | apply Q].
Qed.

(** *** Comparison of two strings *)

Lemma exec_comparison op ins ip :
  In op comparison_opcodes ->
  exec opcode_byte Builtins op ins ip = executeComparison opcode_byte op.
Proof.
  simpl. intros [<-|[<-|[<-|[<-|[<-|[<-|[]]]]]]]; reflexivity.
Qed.

Lemma executeComparison_strings vm op s1 s2 :
  index (stack vm) (sp vm - 2) = Some (String s1) ->
  index (stack vm) (sp vm - 1) = Some (String s2) ->
  executeComparison opcode_byte op vm
  = executeStringComparison opcode_byte op (String s1) (String s2)
      (set_sp (set_sp vm (sp vm - 1)) (sp vm - 1 - 1)).
Proof.
  intros H2 H1. unfold executeComparison. rewrite (two_pops _ _ _ _ H2 H1).
  reflexivity.
Qed.

(** C3 (amended): for every pair of String operands, [OpEqual] pops both
    and pushes the Boolean that tells whether the two strings are equal;
    every other comparison opcode, [OpNotEqual] included, fails with the
    run-time error "unknown string operator: <opcode>". *)
Theorem C3_string_comparison vm ins ip op s1 s2 :
  In op comparison_opcodes ->
  sp vm <= StackSize ->
  index (stack vm) (sp vm - 2) = Some (String s1) ->
  index (stack vm) (sp vm - 1) = Some (String s2) ->
  (op = OpEqual ->
     exists vm',
       exec opcode_byte Builtins op ins ip vm = Ok tt vm'
       /\ sp vm' = sp vm - 1
       /\ top vm' = Some (Boolean (bool_decide (s1 = s2))))
  /\ (op <> OpEqual ->
     exists vm',
       exec opcode_byte Builtins op ins ip vm
       = Err ("unknown string operator: " +:+ fmt_d (opcode_byte op)) vm').
Proof.
  intros Hop Hsp H2 H1.
  rewrite exec_comparison by assumption.
  rewrite (executeComparison_strings _ _ _ _ H2 H1).
  unfold executeStringComparison. split.
  - intros ->. cbn -[push String.eqb].
    destruct (push_after_two_pops vm _ _
                (nativeBoolToBooleanObject (String.eqb s1 s2)) Hsp H2 H1)
      as (vm' & E & S & T & _).
    exists vm'. split; [exact E|]. split; [exact S|].
    unfold top. rewrite T. f_equal.
    unfold nativeBoolToBooleanObject, True_, False_.
    destruct (String.eqb_spec s1 s2) as [->|Hne].
    + rewrite bool_decide_eq_true_2; reflexivity.
    + rewrite bool_decide_eq_false_2; [reflexivity | assumption].
  - intros Hne. eexists.
    simpl in Hop. destruct Hop as [<-|[<-|[<-|[<-|[<-|[<-|[]]]]]]];
      [contradiction | reflexivity ..].
Qed.

(** *** The current frame and its instruction pointer *)

Lemma currentFrame_ok vm f :
  current vm = Some (Some f) -> currentFrame vm = Ok f vm.
Proof.
  unfold current, currentFrame, bind, get. intros ->. reflexivity.
Qed.

Lemma set_current_ip_ok vm f i :
  current vm = Some (Some f) -> set_current_ip i vm = Ok tt (jumped vm f i).
Proof.
  intros H. unfold set_current_ip. unfold bind at 1.
  rewrite (currentFrame_ok _ _ H). unfold bind, get.
  rewrite store_in_range by (eapply index_Some_range; exact H).
  reflexivity.
Qed.

Lemma add_current_ip_ok vm f n :
  current vm = Some (Some f) -> add_current_ip n vm = Ok tt (jumped vm f (ip f + n)).
Proof.
  intros H. unfold add_current_ip, bind. rewrite (currentFrame_ok _ _ H).
  apply set_current_ip_ok, H.
Qed.

Lemma current_jumped vm f i :
  current vm = Some (Some f) -> current (jumped vm f i) = Some (Some (set_ip f i)).
Proof.
  intros H. unfold current, jumped. simpl.
  apply index_insert_eq. eapply index_Some_range. exact H.
Qed.

Lemma current_set_sp vm n : current (set_sp vm n) = current vm.
Proof. reflexivity. Qed.

(** The top of the loop body of [Run]: the instruction pointer of the
    current frame advances to the opcode, which is fetched and decoded. *)
Lemma step_fetch vm f b op :
  current vm = Some (Some f) ->
  index (Frame_Instructions f) (ip f + 1) = Some b ->
  decode opcode_byte b = Some op ->
  step opcode_byte Builtins vm
  = exec opcode_byte Builtins op (Frame_Instructions f) (ip f + 1)
      (jumped vm f (ip f + 1)).
Proof.
  intros Hf Hb Hop. unfold step. unfold bind at 1.
  rewrite (add_current_ip_ok _ _ _ Hf). unfold bind at 1.
  rewrite (currentFrame_ok _ _ (current_jumped _ _ _ Hf)).
  simpl ip. change (Frame_Instructions (set_ip f (ip f + 1)))
    with (Frame_Instructions f).
  unfold bind at 1. rewrite Hb. simpl. rewrite Hop. reflexivity.
Qed.

(** *** [OpWhile] *)

(** C5: when the instruction executed is [OpWhile] with operand [target],
    the iteration completes with the instruction pointer of the current
    frame equal to [target - 1], whatever the condition popped: truthy or
    falsy, the next instruction fetched is the one at [target]. *)
Theorem C5_OpWhile_always_jumps vm f b target condition :
  current vm = Some (Some f) ->
  index (Frame_Instructions f) (ip f + 1) = Some b ->
  decode opcode_byte b = Some OpWhile ->
  ReadUint16 (Frame_Instructions f) (ip f + 2) = Some target ->
  top vm = Some condition ->
  exists vm' f',
    step opcode_byte Builtins vm = Ok tt vm'
    /\ current vm' = Some (Some f')
    /\ ip f' = target - 1
    /\ framesIndex vm' = framesIndex vm
    /\ sp vm' = sp vm - 1.
Proof.
  intros Hf Hb Hop Hread Hcond.
  rewrite (step_fetch _ _ _ _ Hf Hb Hop).
  pose proof (current_jumped vm f (ip f + 1) Hf) as H1.
  set (vm1 := jumped vm f (ip f + 1)) in *.
  set (f1 := set_ip f (ip f + 1)) in *.
  unfold exec.
  replace (ip f + 1 + 1) with (ip f + 2) by lia.
  rewrite (bind_must _ _ _ _ Hread).
  rewrite (bind_eq _ _ _ _ _ (add_current_ip_ok _ _ 2 H1)).
  pose proof (current_jumped vm1 f1 (ip f1 + 2) H1) as H2.
  set (vm2 := jumped vm1 f1 (ip f1 + 2)) in *.
  set (f2 := set_ip f1 (ip f1 + 2)) in *.
  rewrite (bind_eq _ _ _ _ _ (pop_ok vm2 (sp vm - 1) condition eq_refl Hcond)).
  set (vm3 := set_sp vm2 (sp vm2 - 1)).
  assert (H3 : current vm3 = Some (Some f2)) by exact H2.
  destruct (isTruthy condition); simpl negb; cbv iota.
  - rewrite (bind_eq _ _ _ tt vm3 eq_refl).
    rewrite (set_current_ip_ok _ _ _ H3).
    eexists _, _. split; [reflexivity|].
    split; [apply current_jumped, H3|]. repeat split; reflexivity.
  - rewrite (bind_eq _ _ _ _ _ (set_current_ip_ok _ _ (target - 1) H3)).
    pose proof (current_jumped vm3 f2 (target - 1) H3) as H4.
    rewrite (set_current_ip_ok _ _ _ H4).
    eexists _, _. split; [reflexivity|].
    split; [apply current_jumped, H4|]. repeat split; reflexivity.
Qed.

(** *** [OpIndex] *)

Lemma exec_OpIndex vm ins ip left index_ :
  index (stack vm) (sp vm - 2) = Some left ->
  index (stack vm) (sp vm - 1) = Some index_ ->
  exec opcode_byte Builtins OpIndex ins ip vm
  = executeIndexExpression left index_
      (set_sp (set_sp vm (sp vm - 1)) (sp vm - 1 - 1)).
Proof.
  intros H2 H1. unfold exec.
  apply (two_pops vm left index_ (fun r l => executeIndexExpression l r) H2 H1).
Qed.

Lemma Type_of_ok o vm t :
  Type_ (heap vm) o = Some t -> Type_of o vm = Ok t vm.
Proof. unfold Type_of, bind, get. intros ->. reflexivity. Qed.

Lemma both_types_left vm left right lt rt tl tr :
  Type_ (heap vm) left = Some tl -> String.eqb tl lt = true ->
  Type_ (heap vm) right = Some tr ->
  both_types left right lt rt vm = Ok (String.eqb tr rt) vm.
Proof.
  intros Hl E Hr. unfold both_types.
  rewrite (bind_eq _ _ _ _ _ (Type_of_ok left vm tl Hl)), E.
  rewrite (bind_eq _ _ _ _ _ (Type_of_ok right vm tr Hr)). reflexivity.
Qed.

Lemma both_types_other vm left right lt rt tl :
  Type_ (heap vm) left = Some tl -> String.eqb tl lt = false ->
  both_types left right lt rt vm = Ok false vm.
Proof.
  intros Hl E. unfold both_types.
  rewrite (bind_eq _ _ _ _ _ (Type_of_ok left vm tl Hl)), E. reflexivity.
Qed.

(** C4: [OpIndex] pops the index and the container. On an Array with an
    Integer index [i] it pushes the element when [0 <= i <= len - 1] and
    Null otherwise; on a Dict with a hashable key it pushes the stored
    value, or Null when the key is absent; on a Dict with a key that has
    a type but no [DictKey] it fails with "unusable as hash key"; every
    other combination of types fails with "index operator not supported". *)
Theorem C4_OpIndex vm ins ip left index_ :
  sp vm <= StackSize ->
  index (stack vm) (sp vm - 2) = Some left ->
  index (stack vm) (sp vm - 1) = Some index_ ->
  (forall p els i,
      left = Ref p -> heap vm !! p = Some (Array els) -> index_ = Integer i ->
      exists vm',
        exec opcode_byte Builtins OpIndex ins ip vm = Ok tt vm'
        /\ sp vm' = sp vm - 1
        /\ (0 <= i <= Z.of_nat (length els) - 1 ->
            exists el, index els i = Some el /\ top vm' = Some el)
        /\ (~ 0 <= i <= Z.of_nat (length els) - 1 -> top vm' = Some Null))
  /\ (forall p pairs key,
      left = Ref p -> heap vm !! p = Some (Dict pairs) ->
      Dictable index_ = Some key ->
      exists vm',
        exec opcode_byte Builtins OpIndex ins ip vm = Ok tt vm'
        /\ sp vm' = sp vm - 1
        /\ top vm' = Some (match pairs !! key with
                           | Some found => Value found
                           | None => Null
                           end))
  /\ (forall p pairs t,
      left = Ref p -> heap vm !! p = Some (Dict pairs) ->
      Dictable index_ = None -> Type_ (heap vm) index_ = Some t ->
      exists vm',
        exec opcode_byte Builtins OpIndex ins ip vm
        = Err ("unusable as hash key: " +:+ t) vm')
  /\ (forall tl,
      Type_ (heap vm) left = Some tl -> tl <> DICT_OBJ ->
      (tl = ARRAY_OBJ ->
       exists ti, Type_ (heap vm) index_ = Some ti /\ ti <> INTEGER_OBJ) ->
      exists vm',
        exec opcode_byte Builtins OpIndex ins ip vm
        = Err ("index operator not supported: " +:+ tl) vm').
Proof.
  intros Hsp H2 H1. rewrite (exec_OpIndex _ _ _ _ _ H2 H1).
  set (vm2 := set_sp (set_sp vm (sp vm - 1)) (sp vm - 1 - 1)).
  assert (Hh : heap vm2 = heap vm) by reflexivity.
  assert (P : forall o, exists vm',
    push o vm2 = Ok tt vm' /\ sp vm' = sp vm - 1 /\ top vm' = Some o).
  { intros o. destruct (push_after_two_pops vm _ _ o Hsp H2 H1)
      as (vm' & E & S & T & _). exists vm'. auto. }
  assert (TA : forall p els, heap vm !! p = Some (Array els) ->
                Type_ (heap vm2) (Ref p) = Some ARRAY_OBJ).
  { intros p els Hp. simpl. rewrite Hp. reflexivity. }
  assert (TD : forall p pairs, heap vm !! p = Some (Dict pairs) ->
                Type_ (heap vm2) (Ref p) = Some DICT_OBJ).
  { intros p pairs Hp. simpl. rewrite Hp. reflexivity. }
  repeat split.
  - intros p els i -> Hp ->.
    unfold executeIndexExpression.
    rewrite (bind_eq _ _ _ _ _
               (both_types_left vm2 _ (Integer i) ARRAY_OBJ INTEGER_OBJ _ INTEGER_OBJ
                  (TA _ _ Hp) eq_refl eq_refl)).
    rewrite String.eqb_refl. cbv beta iota.
    unfold executeArrayIndex. unfold bind at 1, get.
    unfold as_Array. rewrite Hh, Hp. simpl must. unfold bind at 1, ret.
    unfold bind at 1. simpl as_Integer. simpl must. unfold ret.
    cbv beta iota. cbn [snd].
    destruct (Z.ltb_spec i 0) as [Hneg|Hpos]; cbn [orb].
    + destruct (P Null) as (vm' & E & S & T). exists vm'.
      split; [exact E|]. split; [exact S|]. split; [lia | auto].
    + destruct (Z.gtb_spec i (Z.of_nat (length els) - 1)) as [Hbig|Hin].
      * destruct (P Null) as (vm' & E & S & T). exists vm'.
        split; [exact E|]. split; [exact S|]. split; [lia | auto].
      * destruct (index_in_range els i ltac:(lia)) as [el Hel].
        rewrite (bind_must _ _ _ _ Hel).
        destruct (P el) as (vm' & E & S & T). exists vm'.
        split; [exact E|]. split; [exact S|]. split; [eauto | lia].
  - intros p pairs key -> Hp Hkey.
    unfold executeIndexExpression.
    rewrite (bind_eq _ _ _ _ _
               (both_types_other vm2 _ index_ ARRAY_OBJ INTEGER_OBJ _
                  (TD _ _ Hp) eq_refl)).
    cbv iota.
    rewrite (bind_eq _ _ _ _ _ (Type_of_ok (Ref p) vm2 DICT_OBJ (TD _ _ Hp))).
    rewrite String.eqb_refl. cbv beta iota.
    unfold executeDictIndex. unfold bind at 1, get.
    unfold as_Dict. rewrite Hh, Hp. simpl must. unfold bind at 1, ret.
    rewrite Hkey. destruct (pairs !! key); apply P.
  - intros p pairs t -> Hp Hkey Ht.
    unfold executeIndexExpression.
    rewrite (bind_eq _ _ _ _ _
               (both_types_other vm2 _ index_ ARRAY_OBJ INTEGER_OBJ _
                  (TD _ _ Hp) eq_refl)).
    cbv iota.
    rewrite (bind_eq _ _ _ _ _ (Type_of_ok (Ref p) vm2 DICT_OBJ (TD _ _ Hp))).
    rewrite String.eqb_refl. cbv beta iota.
    unfold executeDictIndex. unfold bind at 1, get.
    unfold as_Dict. rewrite Hh, Hp. simpl must. unfold bind at 1, ret.
    rewrite Hkey.
    rewrite (bind_eq _ _ _ _ _ (Type_of_ok index_ vm2 t Ht)).
    eexists. reflexivity.
  - intros tl Hl Hnd Harr.
    unfold executeIndexExpression.
    assert (E : both_types left index_ ARRAY_OBJ INTEGER_OBJ vm2 = Ok false vm2).
    { destruct (String.eqb tl ARRAY_OBJ) eqn:Ea.
      - destruct (Harr (proj1 (String.eqb_eq _ _) Ea)) as (ti & Hti & Hni).
        rewrite (both_types_left vm2 _ _ ARRAY_OBJ INTEGER_OBJ tl ti Hl Ea Hti).
        apply String.eqb_neq in Hni. rewrite Hni. reflexivity.
      - apply (both_types_other vm2 _ _ _ _ tl Hl Ea). }
    rewrite (bind_eq _ _ _ _ _ E). cbv iota.
    rewrite (bind_eq _ _ _ _ _ (Type_of_ok left vm2 tl Hl)).
    destruct (String.eqb_spec tl DICT_OBJ); [contradiction|].
    eexists. reflexivity.
Qed.

(** *** Calling a closure *)

Lemma pushFrame_ok vm fr :
  0 <= framesIndex vm < Z.of_nat (length (frames vm)) ->
  pushFrame fr vm
  = Ok tt (set_framesIndex
             (set_frames vm (<[Z.to_nat (framesIndex vm) := Some fr]> (frames vm)))
             (framesIndex vm + 1)).
Proof.
  intros H. unfold pushFrame, bind, get. rewrite store_in_range by lia.
  reflexivity.
Qed.

Lemma executeCall_closure vm nargs p fn free :
  index (stack vm) (sp vm - 1 - nargs) = Some (Ref p) ->
  heap vm !! p = Some (Closure fn free) ->
  executeCall nargs vm = callClosure p fn free nargs vm.
Proof.
  intros Hc Hp. unfold executeCall. unfold bind at 1, get.
  rewrite (bind_must _ _ _ _ Hc). rewrite Hp. reflexivity.
Qed.

(** C6 (amended): when [OpCall nargs] finds a Closure as callee and [nargs]
    differs from the number of parameters of its function, the call fails
    with "wrong number of arguments: want=N, got=M" and leaves the frame
    stack as it was; when [nargs] equals the number of parameters and
    the frame stack is not full, a frame with base pointer [sp - nargs]
    (and instruction pointer -1) is pushed and [sp] becomes the base
    pointer plus the number of locals. *)
Theorem C6_closure_call vm f ins ip nargs p fn free :
  current vm = Some (Some f) ->
  ReadUint8 ins (ip + 1) = Some nargs ->
  index (stack vm) (sp vm - 1 - nargs) = Some (Ref p) ->
  heap vm !! p = Some (Closure fn free) ->
  (nargs <> NumParameters fn ->
     exists vm',
       exec opcode_byte Builtins OpCall ins ip vm
       = Err ("wrong number of arguments: want=" +:+ fmt_d (NumParameters fn)
              +:+ ", got=" +:+ fmt_d nargs) vm'
       /\ framesIndex vm' = framesIndex vm
       /\ length (frames vm') = length (frames vm)
       /\ sp vm' = sp vm)
  /\ (nargs = NumParameters fn ->
      framesIndex vm < Z.of_nat (length (frames vm)) ->
      exists vm' fr,
        exec opcode_byte Builtins OpCall ins ip vm = Ok tt vm'
        /\ framesIndex vm' = framesIndex vm + 1
        /\ current vm' = Some (Some fr)
        /\ basePointer fr = sp vm - nargs
        /\ vm.ip fr = -1
        /\ cl fr = p
        /\ sp vm' = basePointer fr + NumLocals fn).
Proof.
  intros Hf Hn Hc Hp.
  pose proof (index_Some_range _ _ _ Hf) as Rf.
  unfold exec. rewrite (bind_must _ _ _ _ Hn).
  rewrite (bind_eq _ _ _ _ _ (add_current_ip_ok _ _ 1 Hf)).
  set (vm1 := jumped vm f (vm.ip f + 1)).
  rewrite (executeCall_closure vm1 nargs p fn free Hc Hp).
  unfold callClosure. split.
  - intros Hne. apply Z.eqb_neq in Hne. rewrite Hne.
    change (negb false) with true. cbv iota.
    eexists. split; [reflexivity|]. simpl.
    rewrite length_insert. auto.
  - intros He Hroom. apply Z.eqb_eq in He. rewrite He.
    change (negb true) with false. cbv iota.
    unfold bind at 1, get. cbv beta zeta.
    rewrite (bind_eq _ _ _ _ _
               (pushFrame_ok vm1 _ ltac:(simpl; rewrite length_insert; lia))).
    eexists _, _. split; [reflexivity|]. simpl.
    split; [reflexivity|]. split.
    + unfold current. simpl.
      replace (framesIndex vm + 1 - 1) with (framesIndex vm) by lia.
      apply index_insert_eq. rewrite length_insert. lia.
    + simpl. auto.
Qed.

(** *** Built-ins on an empty array *)

Lemma slice_one {A} (l : list A) i x :
  index l (i - 1) = Some x -> slice l (i - 1) i = Some [x].
Proof.
  intros H. pose proof (index_Some_range _ _ _ H) as R.
  unfold slice.
  replace (0 <=? i - 1) with true by lia.
  replace (i - 1 <=? i) with true by lia.
  replace (i <=? Z.of_nat (length l)) with true by lia.
  simpl andb. cbv iota.
  unfold index in H. replace (i - 1 <? 0) with false in H by lia.
  rewrite (drop_S _ _ _ H).
  replace (Z.to_nat (i - (i - 1))) with 1%nat by lia. reflexivity.
Qed.

Lemma builtin_on_empty_array b h p :
  In b returns_nothing_on_empty -> h !! p = Some (Array []) ->
  builtins.Fn b [Ref p] h = builtins.Return Nil h.
Proof.
  intros Hb Hp. simpl in Hb.
  destruct Hb as [<-|[<-|[<-|[<-|[<-|[]]]]]]; simpl builtins.Fn;
    [ unfold builtins.ArrayFirstBuiltin | unfold builtins.ArrayLastBuiltin
    | unfold builtins.AllButFirstBuiltin | unfold builtins.MinBuiltin
    | unfold builtins.MaxBuiltin ];
    unfold builtins.with_Type, Type_, as_Array; rewrite Hp; reflexivity.
Qed.

(** C10: [first], [last], [allButFirst], [min] and [max], called with one
    argument that is an empty Array, return no value, and the call pushes
    Null in place of the callee and its argument: no error value is
    produced. *)
Theorem C10_builtin_on_empty_array vm b p :
  In b returns_nothing_on_empty ->
  sp vm <= StackSize ->
  index (stack vm) (sp vm - 2) = Some (Builtin b) ->
  index (stack vm) (sp vm - 1) = Some (Ref p) ->
  heap vm !! p = Some (Array []) ->
  builtins.Fn b [Ref p] (heap vm) = builtins.Return Nil (heap vm)
  /\ exists vm',
       executeCall 1 vm = Ok tt vm'
       /\ sp vm' = sp vm - 1
       /\ top vm' = Some Null
       /\ heap vm' = heap vm.
Proof.
  intros Hb Hsp Hc Ha Hp.
  pose proof (builtin_on_empty_array b (heap vm) p Hb Hp) as E.
  split; [exact E|].
  pose proof (index_Some_range _ _ _ Hc) as Rc.
  pose proof (index_Some_range _ _ _ Ha) as Ra.
  unfold executeCall. unfold bind at 1, get.
  replace (sp vm - 1 - 1) with (sp vm - 2) by lia.
  rewrite (bind_must _ _ _ _ Hc).
  unfold callBuiltin. unfold bind at 1, get.
  rewrite (bind_must _ _ _ _ (slice_one _ _ _ Ha)).
  rewrite E. unfold bind at 1. unfold modify at 1.
  unfold discard_error.
  rewrite push_ok by (simpl; unfold StackSize in *; lia).
  eexists. split; [reflexivity|]. simpl.
  split; [lia|]. split; [|reflexivity].
  unfold top. simpl.
  replace (sp vm - 1 - 1 + 1 - 1) with (sp vm - 1 - 1) by lia.
  apply index_insert_eq. lia.
Qed.

(** *** Dict keys *)

Lemma fnv1a_from_fold h s :
  fnv1a_from h s
  = fold_left (fun hash byte => (Z.lxor hash byte * 1099511628211) mod 2 ^ 64)
              (bytes_of s) h.
Proof.
  revert h. induction s as [|c s IH]; intros h; [reflexivity|].
  simpl. rewrite IH. reflexivity.
Qed.

Lemma fnv1a64_spec s : fnv1a64 s = FNV1a_64 (bytes_of s).
Proof. apply fnv1a_from_fold. Qed.

(** The published test vectors of FNV-1a 64: the empty string, "a" and
    "foobar". *)
Example fnv1a64_vectors :
  fnv1a64 "" = 0xcbf29ce484222325
  /\ fnv1a64 "a" = 0xaf63dc4c8601ec8c
  /\ fnv1a64 "foobar" = 0x85944171f73967e8.
Proof. repeat split; vm_compute; reflexivity. Qed.

Lemma uint64_reinterpret i :
  - 2 ^ 63 <= i < 2 ^ 63 -> uint64 i = reinterpret_unsigned i.
Proof.
  intros H. unfold uint64, reinterpret_unsigned.
  destruct (Z.ltb_spec i 0).
  - symmetry. apply (Z.mod_unique_pos _ _ (-1)); lia.
  - apply Z.mod_small. lia.
Qed.

Lemma Dictable_Some_inv o key :
  Dictable o = Some key ->
  (exists i, o = Integer i) \/ (exists b, o = Boolean b) \/ (exists s, o = String s).
Proof. destruct o; simpl; intros [=]; eauto. Qed.

Lemma holds_pairs_cons stack start key value pairs :
  holds_pairs stack start ((key, value) :: pairs) ->
  index stack start = Some key /\ index stack (start + 1) = Some value
  /\ holds_pairs stack (start + 2) pairs.
Proof.
  intros H. destruct (H 0%nat key value eq_refl) as [Hk Hv].
  replace (start + 2 * Z.of_nat 0) with start in * by lia.
  split; [exact Hk|]. split; [exact Hv|].
  intros j k v Hj. destruct (H (S j) k v Hj) as [Hk' Hv'].
  replace (start + 2 + 2 * Z.of_nat j) with (start + 2 * Z.of_nat (S j)) by lia.
  auto.
Qed.

(** The loop of [buildDict] over a run of hashable keys. *)
Lemma buildDict_loop_pairs vm pairs n start m :
  holds_pairs (stack vm) start pairs ->
  (forall key value, In (key, value) pairs -> is_Some (Dictable key)) ->
  buildDict_loop (length pairs + n) start m vm
  = buildDict_loop n (start + 2 * Z.of_nat (length pairs))
      (fold_left insert_pair pairs m) vm.
Proof.
  revert start m. induction pairs as [|[key value] pairs IH]; intros start m Hh Hd.
  - simpl length. simpl Nat.add.
    replace (start + 2 * Z.of_nat 0) with start by lia. reflexivity.
  - destruct (holds_pairs_cons _ _ _ _ _ Hh) as (Hk & Hv & Hrest).
    destruct (Hd key value (or_introl eq_refl)) as [dk Hdk].
    simpl length. simpl Nat.add. simpl buildDict_loop at 1. unfold bind at 1, get.
    rewrite (bind_must _ _ _ _ Hk). cbv beta.
    rewrite (bind_must _ _ _ _ Hv). cbv beta. rewrite Hdk.
    rewrite IH; [| exact Hrest | intros k v Hin; apply (Hd k v); right; exact Hin].
    simpl fold_left.
    assert (E : insert_pair m (key, value)
                = <[dk := {| Key := key; Value := value |}]> m).
    { unfold insert_pair. simpl. rewrite Hdk. reflexivity. }
    rewrite E. f_equal. lia.
Qed.

Lemma buildDict_loop_unhashable vm n i key value t m :
  index (stack vm) i = Some key ->
  index (stack vm) (i + 1) = Some value ->
  Dictable key = None ->
  Type_ (heap vm) key = Some t ->
  buildDict_loop (S n) i m vm = Err ("unusable as hash key: " +:+ t) vm.
Proof.
  intros Hk Hv Hd Ht. simpl. unfold bind at 1, get.
  rewrite (bind_must _ _ _ _ Hk). cbv beta.
  rewrite (bind_must _ _ _ _ Hv). cbv beta. rewrite Hd.
  rewrite (bind_eq _ _ _ _ _ (Type_of_ok key vm t Ht)). reflexivity.
Qed.

Lemma holds_pairs_app stack start l1 l2 :
  holds_pairs stack start (l1 ++ l2) ->
  holds_pairs stack start l1
  /\ holds_pairs stack (start + 2 * Z.of_nat (length l1)) l2.
Proof.
  intros H. split.
  - intros j k v Hj. apply H. apply lookup_app_l_Some. exact Hj.
  - intros j k v Hj.
    destruct (H (length l1 + j)%nat k v) as [Hk Hv].
    { rewrite lookup_app_r by lia.
      replace (length l1 + j - length l1)%nat with j by lia. exact Hj. }
    replace (start + 2 * Z.of_nat (length l1) + 2 * Z.of_nat j)
      with (start + 2 * Z.of_nat (length l1 + j)) by lia.
    auto.
Qed.

(** C8: the [DictKey] of an Integer is the tag INTEGER with its value read
    as an unsigned 64-bit number, that of a Boolean the tag BOOLEAN with 1
    or 0, that of a String the tag STRING with the FNV-1a 64-bit hash of its
    bytes; no other value has a [DictKey], and a dict literal in which the
    first key without a [DictKey] is such a value of type [t], or a dict
    indexed by it, fails with "unusable as hash key: t". *)
Theorem C8_DictKey :
  (forall i, - 2 ^ 63 <= i < 2 ^ 63 ->
     Dictable (Integer i) = Some (INTEGER_OBJ, reinterpret_unsigned i))
  /\ (forall b, Dictable (Boolean b) = Some (BOOLEAN_OBJ, if b then 1 else 0))
  /\ (forall s, Dictable (String s) = Some (STRING_OBJ, FNV1a_64 (bytes_of s)))
  /\ (forall o,
        is_Some (Dictable o) <->
        (exists i, o = Integer i) \/ (exists b, o = Boolean b)
        \/ (exists s, o = String s))
  /\ (forall vm hashable key value t n,
        holds_pairs (stack vm) (sp vm - n) (hashable ++ [(key, value)]) ->
        (forall k v, In (k, v) hashable -> is_Some (Dictable k)) ->
        Dictable key = None -> Type_ (heap vm) key = Some t ->
        2 * Z.of_nat (length hashable + 1) <= n ->
        buildDict (sp vm - n) (sp vm) vm
        = Err ("unusable as hash key: " +:+ t) vm)
  /\ (forall vm p pairs key t,
        Dictable key = None -> Type_ (heap vm) key = Some t ->
        heap vm !! p = Some (Dict pairs) ->
        executeDictIndex (Ref p) key vm
        = Err ("unusable as hash key: " +:+ t) vm).
Proof.
  split; [|split; [|split; [|split; [|split]]]].
  - intros i Hi. simpl. unfold DictKey_Integer.
    rewrite (uint64_reinterpret i Hi). reflexivity.
  - intros b. reflexivity.
  - intros s. simpl. unfold DictKey_String. rewrite fnv1a64_spec. reflexivity.
  - intros o. split.
    + intros [key Hk]. exact (Dictable_Some_inv o key Hk).
    + intros [[i ->]|[[b ->]|[s ->]]]; simpl; eauto.
  - intros vm hashable key value t n Hh Hall Hd Ht Hn. unfold buildDict.
    replace (sp vm - (sp vm - n) + 1) with (n + 1) by lia.
    assert (E : exists c, Z.to_nat ((n + 1) / 2) = (length hashable + S c)%nat).
    { exists (Z.to_nat ((n + 1) / 2) - length hashable - 1)%nat.
      assert (Z.of_nat (length hashable + 1) <= (n + 1) / 2)
        by (apply Z.div_le_lower_bound; lia).
      lia. }
    destruct E as [c ->]. unfold bind.
    destruct (holds_pairs_app _ _ _ _ Hh) as [Hh1 Hh2].
    rewrite (buildDict_loop_pairs vm hashable (S c) _ ∅ Hh1 Hall).
    destruct (holds_pairs_cons _ _ _ _ _ Hh2) as (Hk & Hv & _).
    rewrite (buildDict_loop_unhashable vm c _ key value t _ Hk Hv Hd Ht).
    reflexivity.
  - intros vm p pairs key t Hd Ht Hp. unfold executeDictIndex.
    unfold bind at 1, get. unfold as_Dict. rewrite Hp. simpl must.
    unfold bind at 1, ret. rewrite Hd.
    rewrite (bind_eq _ _ _ _ _ (Type_of_ok key vm t Ht)). reflexivity.
Qed.

(** *** Dict literals with repeated keys *)

Lemma fold_insert_pair_untouched pairs m dk :
  (forall key value, In (key, value) pairs -> Dictable key <> Some dk) ->
  fold_left insert_pair pairs m !! dk = m !! dk.
Proof.
  revert m. induction pairs as [|[key value] pairs IH]; intros m H; [reflexivity|].
  simpl. rewrite IH by (intros k v Hin; apply (H k v); right; exact Hin).
  unfold insert_pair. simpl.
  destruct (Dictable key) as [dk'|] eqn:E; [|reflexivity].
  apply lookup_insert_ne. intros ->. exact (H key value (or_introl eq_refl) E).
Qed.

(** In the map built from [pairs], a key is bound to the last pair that
    has its [DictKey]. *)
Lemma fold_insert_pair_last pairs m (j : nat) key value dk :
  pairs !! j = Some (key, value) ->
  Dictable key = Some dk ->
  (forall (j' : nat) key' value',
      (j < j')%nat -> pairs !! j' = Some (key', value') ->
      Dictable key' <> Some dk) ->
  fold_left insert_pair pairs m !! dk = Some {| Key := key; Value := value |}.
Proof.
  revert m j. induction pairs as [|[k0 v0] pairs IH]; intros m j Hj Hdk Hlast.
  - rewrite lookup_nil in Hj. discriminate.
  - destruct j as [|j]; simpl in Hj.
    + injection Hj as -> ->. simpl.
      rewrite fold_insert_pair_untouched.
      * unfold insert_pair. simpl. rewrite Hdk. apply lookup_insert_eq.
      * intros k v Hin. apply list_elem_of_In, list_elem_of_lookup in Hin.
        destruct Hin as [i Hi]. apply (Hlast (S i) k v); [lia | exact Hi].
    + simpl. apply (IH _ j Hj Hdk).
      intros j' k v Hlt Hj'. apply (Hlast (S j') k v); [lia | exact Hj'].
Qed.

(** C9: an [OpDict] whose key/value pairs all have hashable keys builds
    its dict without error, also when several keys have the same
    [DictKey]: the dict pushed binds each [DictKey] to the pair that comes
    last, in stack order, among those that have it. *)
Theorem C9_later_binding_wins vm f ins ip pairs :
  current vm = Some (Some f) ->
  ReadUint16 ins (ip + 1) = Some (2 * Z.of_nat (length pairs)) ->
  sp vm <= StackSize ->
  pairs <> [] ->
  holds_pairs (stack vm) (sp vm - 2 * Z.of_nat (length pairs)) pairs ->
  (forall key value, In (key, value) pairs -> is_Some (Dictable key)) ->
  exists vm' d,
    exec opcode_byte Builtins OpDict ins ip vm = Ok tt vm'
    /\ sp vm' = sp vm - 2 * Z.of_nat (length pairs) + 1
    /\ top vm' = Some (Ref d)
    /\ heap vm' !! d = Some (Dict (dict_of_pairs pairs))
    /\ forall (j : nat) key value dk,
         pairs !! j = Some (key, value) ->
         Dictable key = Some dk ->
         (forall (j' : nat) key' value',
             (j < j')%nat -> pairs !! j' = Some (key', value') ->
             Dictable key' <> Some dk) ->
         dict_of_pairs pairs !! dk = Some {| Key := key; Value := value |}.
Proof.
  intros Hf Hn Hsp Hne Hh Hall.
  set (n := 2 * Z.of_nat (length pairs)) in *.
  assert (Hlen : (0 < length pairs)%nat) by (destruct pairs; simpl; [congruence | lia]).
  assert (Hfirst : 0 <= sp vm - n < Z.of_nat (length (stack vm))).
  { destruct pairs as [|[k v] rest]; [congruence|].
    destruct (holds_pairs_cons _ _ _ _ _ Hh) as (Hk & _).
    exact (index_Some_range _ _ _ Hk). }
  unfold exec. rewrite (bind_must _ _ _ _ Hn). cbv beta.
  rewrite (bind_eq _ _ _ _ _ (add_current_ip_ok _ _ 2 Hf)).
  set (vm1 := jumped vm f (vm.ip f + 2)).
  unfold bind at 1, get. cbv beta.
  change (sp vm1) with (sp vm).
  assert (B : buildDict (sp vm - n) (sp vm) vm1
              = Ok (Ref (length (heap vm)))
                   (set_heap vm1 (heap vm ++ [Dict (dict_of_pairs pairs)]))).
  { unfold buildDict.
    replace (Z.to_nat ((sp vm - (sp vm - n) + 1) / 2)) with (length pairs + 0)%nat.
    - rewrite (bind_eq _ _ _ _ _
                 (buildDict_loop_pairs vm1 pairs 0 (sp vm - n) ∅ Hh Hall)).
      reflexivity.
    - replace (sp vm - (sp vm - n) + 1) with (1 + Z.of_nat (length pairs) * 2)
        by (subst n; lia).
      rewrite Z.div_add by lia. change (1 / 2) with 0. lia. }
  rewrite (bind_eq _ _ _ _ _ B).
  unfold bind at 1, modify at 1.
  rewrite push_ok by (simpl; unfold StackSize in *; lia).
  eexists _, _. split; [reflexivity|]. simpl.
  split; [reflexivity|]. split; [|split].
  - unfold top. simpl.
    replace (sp vm - n + 1 - 1) with (sp vm - n) by lia.
    apply index_insert_eq. lia.
  - apply list_lookup_middle. reflexivity.
  - intros j key value dk Hj Hdk Hlast.
    exact (fold_insert_pair_last pairs ∅ j key value dk Hj Hdk Hlast).
Qed.

(** *** Built-ins that validate their arguments, and those that do not *)

Lemma NewError_is_error msg h : is_error_result (builtins.NewError msg h).
Proof.
  unfold builtins.NewError, builtins.alloc, is_error_result.
  exists msg. apply list_lookup_middle. reflexivity.
Qed.

(** Every built-in except [organize] answers a wrong number of arguments
    with an error value. *)
Lemma wrong_arity_is_reported b args h :
  b <> Organize -> length args <> arity b ->
  is_error_result (builtins.Fn b args h).
Proof.
  intros Hb Hlen.
  destruct b; try congruence; simpl builtins.Fn; simpl arity in Hlen;
    [ unfold builtins.RemoveFromArrayBuiltin
    | unfold builtins.AddToArrayStartBuiltin
    | unfold builtins.AddToArrayEndBuiltin
    | unfold builtins.MaxBuiltin | unfold builtins.MinBuiltin
    | unfold builtins.ArrayFirstBuiltin | unfold builtins.ArrayLastBuiltin
    | unfold builtins.AllButFirstBuiltin | unfold builtins.IndexOfBuiltin
    | unfold builtins.SumBuiltin ];
    destruct args as [|a0 [|a1 [|a2 args]]]; simpl in Hlen;
    try congruence; apply NewError_is_error.
Qed.

Lemma max_loop_panics m rest :
  (as_Integer m = None /\ rest <> [])
  \/ (exists el, In el rest /\ as_Integer el = None) ->
  builtins.max_loop m rest = None.
Proof.
  revert m. induction rest as [|el rest IH]; intros m H.
  - destruct H as [[_ H]|[el [[] _]]]. congruence.
  - simpl. destruct (as_Integer m) as [mv|] eqn:Em; [|reflexivity].
    destruct (as_Integer el) as [ev|] eqn:Ee; [|reflexivity].
    assert (Hrest : exists el', In el' rest /\ as_Integer el' = None).
    { destruct H as [[H _]|[el' [[<-|Hin] Hn]]]; [congruence | congruence | eauto]. }
    destruct (f64.eqb _ _); apply IH; right; exact Hrest.
Qed.

Lemma min_loop_panics m rest :
  (as_Integer m = None /\ rest <> [])
  \/ (exists el, In el rest /\ as_Integer el = None) ->
  builtins.min_loop m rest = None.
Proof.
  revert m. induction rest as [|el rest IH]; intros m H.
  - destruct H as [[_ H]|[el [[] _]]]. congruence.
  - simpl. destruct (as_Integer m) as [mv|] eqn:Em; [|reflexivity].
    destruct (as_Integer el) as [ev|] eqn:Ee; [|reflexivity].
    assert (Hrest : exists el', In el' rest /\ as_Integer el' = None).
    { destruct H as [[H _]|[el' [[<-|Hin] Hn]]]; [congruence | congruence | eauto]. }
    destruct (f64.eqb _ _); apply IH; right; exact Hrest.
Qed.

(** C7 (the code against the specification): [organize] called with no argument
    panics, whatever the heap, and so does the call instruction that
    invokes it; [max] and [min] panic on every array of two or more
    elements one of which is not an Integer. None of them returns an error
    value there. *)
Theorem C7_builtins_that_panic :
  (forall h, builtins.Fn Organize [] h = builtins.Panics)
  /\ (forall vm, index (stack vm) (sp vm - 1 - 0) = Some (Builtin Organize) ->
        executeCall 0 vm = Panic)
  /\ (forall h p els el,
        h !! p = Some (Array els) -> (2 <= length els)%nat ->
        In el els -> as_Integer el = None ->
        builtins.Fn Max [Ref p] h = builtins.Panics
        /\ builtins.Fn Min [Ref p] h = builtins.Panics).
Proof.
  split; [reflexivity|]. split.
  - intros vm Hc. unfold executeCall. unfold bind at 1, get.
    rewrite (bind_must _ _ _ _ Hc). cbv beta iota.
    unfold callBuiltin. unfold bind at 1, get.
    unfold slice.
    destruct ((0 <=? sp vm - 0) && (sp vm - 0 <=? sp vm)
              && (sp vm <=? Z.of_nat (length (stack vm)))); [|reflexivity].
    replace (sp vm - (sp vm - 0)) with 0 by lia. reflexivity.
  - intros h p els el Hp Hlen Hin Hn.
    destruct els as [|e0 [|e1 rest]]; simpl in Hlen; try lia.
    assert (H : (as_Integer e0 = None /\ e1 :: rest <> [])
                \/ (exists el', In el' (e1 :: rest) /\ as_Integer el' = None)).
    { destruct Hin as [<-|Hin]; [left; split; [exact Hn | discriminate] | right; eauto]. }
    simpl builtins.Fn. unfold builtins.MaxBuiltin, builtins.MinBuiltin.
    unfold builtins.with_Type, Type_, as_Array. rewrite Hp.
    cbv beta iota. rewrite String.eqb_refl. simpl negb. cbv iota.
    rewrite (max_loop_panics e0 (e1 :: rest) H).
    rewrite (min_loop_panics e0 (e1 :: rest) H). split; reflexivity.
Qed.

(** *** Frames across one iteration of the dispatch loop *)

Lemma frame_stable_refl s : frame_stable s s.
Proof. repeat split; eauto. Qed.

Lemma frame_stable_trans a b c :
  frame_stable a b -> frame_stable b c -> frame_stable a c.
Proof.
  intros (I1 & S1 & L1 & F1) (I2 & S2 & L2 & F2).
  repeat split; try congruence.
  intros i f Hf. destruct (F1 i f Hf) as (f1 & Hf1 & B1).
  destruct (F2 i f1 Hf1) as (f2 & Hf2 & B2). exists f2. split; congruence.
Qed.

Lemma frame_stable_same_frames a b :
  framesIndex b = framesIndex a -> frames b = frames a ->
  length (stack b) = length (stack a) ->
  frame_stable a b.
Proof.
  intros I F S. repeat split; try congruence. intros i f Hf. rewrite F. eauto.
Qed.

Lemma preserves_ret {A} (a : A) : preserves (ret a).
Proof. intros s. apply frame_stable_refl. Qed.

Lemma preserves_bind {A B} (m : M A) (k : A -> M B) :
  preserves m -> (forall a, preserves (k a)) -> preserves (bind m k).
Proof.
  intros Hm Hk s. unfold bind. specialize (Hm s).
  destruct (m s) as [a s1|e s1|]; [|exact Hm|exact I].
  specialize (Hk a s1). destruct (k a s1) as [b s2|e s2|]; [| |exact I];
    eapply frame_stable_trans; eassumption.
Qed.

Lemma preserves_get : preserves get.
Proof. intros s. apply frame_stable_refl. Qed.

Lemma preserves_panic {A} : preserves (@panic A).
Proof. intros s. exact I. Qed.

Lemma preserves_Errorf {A} msg : preserves (@Errorf A msg).
Proof. intros s. apply frame_stable_refl. Qed.

Lemma preserves_must {A} (o : option A) : preserves (must o).
Proof. destruct o; [apply preserves_ret | apply preserves_panic]. Qed.

Lemma preserves_modify (g : VM -> VM) :
  (forall s, frame_stable s (g s)) -> preserves (modify g).
Proof. intros H s. apply H. Qed.

Lemma preserves_discard_error (m : M unit) :
  preserves m -> preserves (discard_error m).
Proof.
  intros H s. unfold discard_error. specialize (H s).
  destruct (m s); assumption.
Qed.

Lemma preserves_set_sp n : preserves (modify (fun s => set_sp s n)).
Proof. apply preserves_modify. intros s. apply frame_stable_same_frames; reflexivity. Qed.

Lemma preserves_Type_of o : preserves (Type_of o).
Proof.
  unfold Type_of. apply preserves_bind; [apply preserves_get|].
  intros s. apply preserves_must.
Qed.

Lemma preserves_new o : preserves (new o).
Proof.
  unfold new. apply preserves_bind; [apply preserves_get|]. intros s0.
  apply preserves_bind; [|intros; apply preserves_ret].
  apply preserves_modify. intros s. apply frame_stable_same_frames; reflexivity.
Qed.

Lemma preserves_stack_set i o : preserves (stack_set i o).
Proof.
  intros s. unfold stack_set, bind, get.
  destruct (store (stack s) i o) as [l|] eqn:E; simpl; [|exact I].
  apply store_Some in E. destruct E as [_ ->].
  apply frame_stable_same_frames; simpl; try reflexivity.
  apply length_insert.
Qed.

Lemma preserves_push o : preserves (push o).
Proof.
  unfold push. apply preserves_bind; [apply preserves_get|]. intros s0.
  destruct (StackSize <=? sp s0); [apply preserves_Errorf|].
  apply preserves_bind; [apply preserves_stack_set|]. intros _.
  apply preserves_modify. intros s. apply frame_stable_same_frames; reflexivity.
Qed.

Lemma preserves_pop : preserves pop.
Proof.
  unfold pop. apply preserves_bind; [apply preserves_get|]. intros s0.
  apply preserves_bind; [apply preserves_must|]. intros o.
  apply preserves_bind; [|intros; apply preserves_ret].
  apply preserves_modify. intros s. apply frame_stable_same_frames; reflexivity.
Qed.

Lemma preserves_currentFrame : preserves currentFrame.
Proof.
  unfold currentFrame. apply preserves_bind; [apply preserves_get|]. intros s0.
  apply preserves_bind; [apply preserves_must|]. intros o. apply preserves_must.
Qed.

Lemma preserves_set_current_ip i : preserves (set_current_ip i).
Proof.
  intros s. unfold set_current_ip. unfold bind at 1.
  pose proof (preserves_currentFrame s) as Hc.
  destruct (currentFrame s) as [f s1|e s1|] eqn:Ec; [|exact Hc|exact I].
  assert (s1 = s /\ current s = Some (Some f)) as [-> Hf].
  { unfold currentFrame, bind, get in Ec. unfold current.
    destruct (index (frames s) (framesIndex s - 1)) as [[f'|]|];
      simpl in Ec; try discriminate. injection Ec as -> ->. auto. }
  unfold bind, get.
  destruct (store (frames s) (framesIndex s - 1) (Some (set_ip f i)))
    as [l|] eqn:E; simpl; [|exact I].
  apply store_Some in E. destruct E as [R ->].
  repeat split; simpl; try reflexivity; [apply length_insert|].
  intros j g Hg.
  destruct (Z.eq_dec j (framesIndex s - 1)) as [->|Hne].
  - rewrite index_insert_eq by lia. unfold current in Hf.
    rewrite Hf in Hg. injection Hg as <-. eexists. split; reflexivity.
  - rewrite index_insert_ne by lia. eauto.
Qed.

Lemma preserves_add_current_ip n : preserves (add_current_ip n).
Proof.
  unfold add_current_ip. apply preserves_bind; [apply preserves_currentFrame|].
  intros f. apply preserves_set_current_ip.
Qed.

Ltac pres_step :=
  first
    [ apply preserves_ret | apply preserves_get | apply preserves_panic
    | apply preserves_Errorf | apply preserves_must | apply preserves_push
    | apply preserves_pop | apply preserves_Type_of | apply preserves_new
    | apply preserves_stack_set | apply preserves_currentFrame
    | apply preserves_set_current_ip | apply preserves_add_current_ip
    | apply preserves_discard_error
    | apply preserves_modify; intros ?;
      apply frame_stable_same_frames; reflexivity
    | apply preserves_bind; [|intros ?]
    | match goal with
      | |- preserves (match ?x with _ => _ end) => destruct x
      end ].

Ltac pres := repeat pres_step.

Lemma preserves_executeBinaryOperation op :
  preserves (executeBinaryOperation opcode_byte op).
Proof.
  unfold executeBinaryOperation, executeBinaryIntegerOperation,
    executeFloatOperation, executeIntLeftFloatRight, executeIntRightFloatLeft,
    executeBinaryStringOperation, float_arith.
  pres.
Qed.

Lemma preserves_both_types l r lt rt : preserves (both_types l r lt rt).
Proof. unfold both_types. pres. Qed.

Lemma preserves_executeComparison op :
  preserves (executeComparison opcode_byte op).
Proof.
  unfold executeComparison, executeIntegerComparison,
    executeIntLeftFloatRightComparison, executeFloatComparison,
    executeIntRightFloatLeftComparison, executeStringComparison, float_compare.
  repeat first [apply preserves_both_types | pres_step].
Qed.

Lemma preserves_executeBangOperator : preserves executeBangOperator.
Proof. unfold executeBangOperator. pres. Qed.

Lemma preserves_executeMinusOperator : preserves executeMinusOperator.
Proof. unfold executeMinusOperator. pres. Qed.

Lemma preserves_buildArray a b : preserves (buildArray a b).
Proof. unfold buildArray. pres. Qed.

Lemma preserves_buildDict_loop n i m : preserves (buildDict_loop n i m).
Proof.
  revert i m. induction n as [|n IH]; intros i m; simpl; [apply preserves_ret|].
  repeat first [apply IH | pres_step].
Qed.

Lemma preserves_buildDict a b : preserves (buildDict a b).
Proof.
  unfold buildDict. repeat first [apply preserves_buildDict_loop | pres_step].
Qed.

Lemma preserves_executeIndexExpression l i :
  preserves (executeIndexExpression l i).
Proof.
  unfold executeIndexExpression, executeArrayIndex, executeDictIndex.
  repeat first [apply preserves_both_types | pres_step].
Qed.

Lemma preserves_callBuiltin b n : preserves (callBuiltin b n).
Proof. unfold callBuiltin. pres. Qed.

Lemma preserves_pushClosure c n : preserves (pushClosure c n).
Proof. unfold pushClosure. pres. Qed.

Lemma preserves_executeGetAttr : preserves executeGetAttr.
Proof. unfold executeGetAttr. pres. Qed.

(** Every instruction other than a call and the two returns leaves the
    frames stable. *)
Lemma preserves_exec op ins ip :
  op <> OpCall -> op <> OpReturnValue -> op <> OpReturn ->
  preserves (exec opcode_byte Builtins op ins ip).
Proof.
  intros H1 H2 H3.
  destruct op; try congruence; unfold exec;
    repeat first
      [ apply preserves_executeBinaryOperation
      | apply preserves_executeComparison
      | apply preserves_executeBangOperator
      | apply preserves_executeMinusOperator
      | apply preserves_buildArray | apply preserves_buildDict
      | apply preserves_executeIndexExpression
      | apply preserves_pushClosure | apply preserves_executeGetAttr
      | pres_step ].
Qed.

Lemma preserves_Ok {A} (m : M A) s a s' :
  preserves m -> m s = Ok a s' -> frame_stable s s'.
Proof. intros H E. specialize (H s). rewrite E in H. exact H. Qed.

Lemma frame_stable_step s s' : frame_stable s s' -> frame_step s s'.
Proof. intros (_ & S & _ & F). split; [exact S|]. intros i f _. apply F. Qed.

Lemma frame_stable_then_step a b c :
  frame_stable a b -> frame_step b c -> frame_step a c.
Proof.
  intros (I1 & S1 & L1 & F1) (S2 & F2). split; [congruence|].
  intros i f Hi Hf. destruct (F1 i f Hf) as (f1 & Hf1 & B1).
  destruct (F2 i f1 ltac:(lia) Hf1) as (f2 & Hf2 & B2).
  exists f2. split; congruence.
Qed.

Lemma advances_of_preserves {A} (m : M A) : preserves m -> advances m.
Proof.
  intros H s. specialize (H s). destruct (m s); try exact I.
  apply frame_stable_step, H.
Qed.

Lemma advances_bind {A B} (m : M A) (k : A -> M B) :
  preserves m -> (forall a, advances (k a)) -> advances (bind m k).
Proof.
  intros Hm Hk s. unfold bind. specialize (Hm s).
  destruct (m s) as [a s1|e s1|]; try exact I.
  specialize (Hk a s1). destruct (k a s1) as [b s2|e s2|]; try exact I.
  eapply frame_stable_then_step; eassumption.
Qed.

Lemma advances_callClosure p fn free n : advances (callClosure p fn free n).
Proof.
  intros s. unfold callClosure.
  destruct (negb (n =? NumParameters fn)); [exact I|].
  unfold bind at 1, get. cbv beta zeta. unfold pushFrame, bind, get.
  destruct (store (frames s) (framesIndex s) _) as [l|] eqn:E; simpl; [|exact I].
  apply store_Some in E. destruct E as [R ->].
  split; simpl; [reflexivity|].
  intros i f Hi Hf. rewrite index_insert_ne by lia. eauto.
Qed.

Lemma advances_executeCall n : advances (executeCall n).
Proof.
  unfold executeCall.
  apply advances_bind; [apply preserves_get|]. intros s0.
  apply advances_bind; [apply preserves_must|]. intros callee.
  destruct callee;
    try (apply advances_of_preserves; pres; fail);
    try (apply advances_of_preserves, preserves_callBuiltin).
  destruct (heap s0 !! p) as [[]|];
    try (apply advances_of_preserves; pres; fail).
  apply advances_callClosure.
Qed.

Lemma popFrame_Ok s slot s' :
  popFrame s = Ok slot s' ->
  s' = set_framesIndex s (framesIndex s - 1)
  /\ index (frames s) (framesIndex s - 1) = Some slot.
Proof.
  unfold popFrame, bind, modify, get. simpl.
  destruct (index (frames s) (framesIndex s - 1)) as [o|]; simpl; [|discriminate].
  intros [= -> ->]. auto.
Qed.

(** What a return does to the machine: it pops the frame [fr] on top of
    the frame stack, and leaves [sp] at the base pointer of [fr] (one below
    it for the callee, plus one for the value pushed). *)
Lemma return_Ok op ins ip s s' :
  op = OpReturnValue \/ op = OpReturn ->
  exec opcode_byte Builtins op ins ip s = Ok tt s' ->
  frame_step s s'
  /\ framesIndex s' = framesIndex s - 1
  /\ exists fr, index (frames s) (framesIndex s - 1) = Some (Some fr)
                /\ sp s' = basePointer fr - 1 + 1.
Proof.
  intros Hop E.
  assert (H : exists s1 slot fr rv,
             frame_stable s s1 /\ framesIndex s1 = framesIndex s
             /\ frames s1 = frames s
             /\ popFrame s1 = Ok slot (set_framesIndex s1 (framesIndex s1 - 1))
             /\ slot = Some fr
             /\ push rv (set_sp (set_framesIndex s1 (framesIndex s1 - 1))
                                (basePointer fr - 1)) = Ok tt s').
  { destruct Hop as [-> | ->]; unfold exec in E.
    - apply bind_Ok in E. destruct E as (rv & s1 & Epop & E).
      apply bind_Ok in E. destruct E as (slot & s2 & Epf & E).
      apply bind_Ok in E. destruct E as (fr & s3 & Em & E).
      apply must_Ok in Em. destruct Em as [-> ->].
      destruct (popFrame_Ok _ _ _ Epf) as [-> _].
      exists s1, (Some fr), fr, rv.
      split; [exact (preserves_Ok _ _ _ _ preserves_pop Epop)|].
      unfold pop, bind, get, modify, ret in Epop.
      destruct (index (stack s) (sp s - 1)); simpl in Epop; [|discriminate].
      injection Epop as _ <-. simpl. repeat split; auto.
    - apply bind_Ok in E. destruct E as (slot & s2 & Epf & E).
      apply bind_Ok in E. destruct E as (fr & s3 & Em & E).
      apply must_Ok in Em. destruct Em as [-> ->].
      destruct (popFrame_Ok _ _ _ Epf) as [-> _].
      exists s, (Some fr), fr, Null_.
      split; [apply frame_stable_refl|]. repeat split; auto. }
  destruct H as (s1 & slot & fr & rv & St & I1 & F1 & Epf & -> & Epush).
  destruct (popFrame_Ok _ _ _ Epf) as [_ Hslot].
  pose proof (preserves_Ok _ _ _ _ (preserves_push rv) Epush) as St2.
  assert (Esp : sp s' = basePointer fr - 1 + 1).
  { apply (push_Ok_sp _ _ _ Epush). }
  split; [|split].
  - eapply frame_stable_then_step; [exact St|].
    destruct St2 as (_ & S2 & _ & F2). split; [exact S2|].
    intros i f _ Hf. apply (F2 i f Hf).
  - destruct St2 as (I2 & _). simpl in I2. lia.
  - exists fr. rewrite <- F1, <- I1. auto.
Qed.

Lemma advances_exec op ins ip : advances (exec opcode_byte Builtins op ins ip).
Proof.
  destruct (Opcode_eqb op OpCall) eqn:E1;
    [|destruct (Opcode_eqb op OpReturnValue) eqn:E2;
      [|destruct (Opcode_eqb op OpReturn) eqn:E3]].
  - destruct op; try discriminate. unfold exec.
    apply advances_bind; [apply preserves_must|]. intros n.
    apply advances_bind; [apply preserves_add_current_ip|]. intros _.
    apply advances_executeCall.
  - destruct op; try discriminate. intros s.
    destruct (exec opcode_byte Builtins OpReturnValue ins ip s) as [[] s'| |] eqn:E;
      try exact I.
    apply (return_Ok OpReturnValue ins ip s s' (or_introl eq_refl) E).
  - destruct op; try discriminate. intros s.
    destruct (exec opcode_byte Builtins OpReturn ins ip s) as [[] s'| |] eqn:E;
      try exact I.
    apply (return_Ok OpReturn ins ip s s' (or_intror eq_refl) E).
  - apply advances_of_preserves, preserves_exec; intros ->; discriminate.
Qed.

(** One iteration of the dispatch loop keeps the base pointer of every
    frame below the top of the frame stack. *)
Lemma step_frame_step s s' :
  step opcode_byte Builtins s = Ok tt s' -> frame_step s s'.
Proof.
  intros E.
  assert (A : advances (step opcode_byte Builtins)).
  { unfold step.
    apply advances_bind; [apply preserves_add_current_ip|]. intros _.
    apply advances_bind; [apply preserves_currentFrame|]. intros f.
    apply advances_bind; [apply preserves_must|]. intros b.
    destruct (decode opcode_byte b);
      [apply advances_exec | apply advances_of_preserves, preserves_ret]. }
  specialize (A s). rewrite E in A. exact A.
Qed.

(** While the body of a callee runs above depth [depth], the frame at
    [depth] keeps its base pointer and the operand stack its capacity. *)
Lemma steps_above_invariant depth n s sk f :
  0 <= depth ->
  steps_above opcode_byte Builtins depth n s = Some sk ->
  index (frames s) depth = Some (Some f) ->
  length (stack sk) = length (stack s)
  /\ exists fk, index (frames sk) depth = Some (Some fk)
                /\ basePointer fk = basePointer f.
Proof.
  intros Hd. revert s f. induction n as [|n IH]; intros s f E Hf.
  - injection E as <-. eauto.
  - simpl in E. destruct (Z.ltb_spec depth (framesIndex s)) as [Hlt|]; [|discriminate].
    destruct (step opcode_byte Builtins s) as [[] s1| |] eqn:Es; try discriminate.
    destruct (step_frame_step _ _ Es) as (S1 & F1).
    destruct (F1 depth f Hlt Hf) as (f1 & Hf1 & B1).
    destruct (IH s1 f1 E Hf1) as (Sk & fk & Hfk & Bk).
    split; [congruence|]. exists fk. split; [exact Hfk | congruence].
Qed.

(** *** A call and its return *)

(** A call of a closure that completes has pushed a frame whose base
    pointer is [sp - nargs], above the frames that were there. *)
Lemma closure_call_Ok s f ins ip nargs p fn free s' :
  current s = Some (Some f) ->
  ReadUint8 ins (ip + 1) = Some nargs ->
  index (stack s) (sp s - 1 - nargs) = Some (Ref p) ->
  heap s !! p = Some (Closure fn free) ->
  exec opcode_byte Builtins OpCall ins ip s = Ok tt s' ->
  framesIndex s' = framesIndex s + 1
  /\ length (stack s') = length (stack s)
  /\ exists fr, index (frames s') (framesIndex s) = Some (Some fr)
                /\ basePointer fr = sp s - nargs.
Proof.
  intros Hf Hn Hc Hp E.
  pose proof (index_Some_range _ _ _ Hf) as Rf.
  unfold exec in E. rewrite (bind_must _ _ _ _ Hn) in E. cbv beta in E.
  rewrite (bind_eq _ _ _ _ _ (add_current_ip_ok _ _ 1 Hf)) in E.
  set (s1 := jumped s f (vm.ip f + 1)) in *.
  rewrite (executeCall_closure s1 nargs p fn free Hc Hp) in E.
  unfold callClosure in E.
  destruct (negb (nargs =? NumParameters fn)); [discriminate|].
  unfold bind at 1, get in E. cbv beta zeta in E.
  unfold pushFrame, bind, get, modify, must in E.
  destruct (store (frames s1) (framesIndex s1) _) as [l|] eqn:Es;
    [|discriminate].
  apply store_Some in Es. destruct Es as [R ->].
  injection E as <-. simpl. split; [reflexivity|]. split; [reflexivity|].
  eexists. split; [apply index_insert_eq; exact R | reflexivity].
Qed.

(** A return whose frame has its base pointer inside the operand stack
    completes: it leaves [sp] at that base pointer, with the value returned
    on top, and one frame fewer. *)
Lemma return_step_ok s f b op rv :
  current s = Some (Some f) ->
  index (Frame_Instructions f) (vm.ip f + 1) = Some b ->
  decode opcode_byte b = Some op ->
  (op = OpReturnValue /\ top s = Some rv) \/ (op = OpReturn /\ rv = Null) ->
  0 <= basePointer f - 1 < StackSize ->
  basePointer f - 1 < Z.of_nat (length (stack s)) ->
  exists s',
    step opcode_byte Builtins s = Ok tt s'
    /\ sp s' = basePointer f - 1 + 1
    /\ top s' = Some rv
    /\ framesIndex s' = framesIndex s - 1.
Proof.
  intros Hf Hb Hop Hrv Hbp Hlen.
  pose proof (index_Some_range _ _ _ Hf) as Rf.
  rewrite (step_fetch _ _ _ _ Hf Hb Hop).
  set (s1 := jumped s f (vm.ip f + 1)).
  assert (Hpf : forall n, popFrame (set_sp s1 n)
            = Ok (Some (set_ip f (vm.ip f + 1)))
                 (set_framesIndex (set_sp s1 n) (framesIndex s - 1))).
  { intros n. unfold popFrame, bind, modify, get. simpl.
    rewrite index_insert_eq by lia. reflexivity. }
  assert (Hpush : forall n,
            exists s', push rv (set_sp (set_framesIndex (set_sp s1 n)
                                          (framesIndex s - 1))
                                       (basePointer f - 1)) = Ok tt s'
                       /\ sp s' = basePointer f - 1 + 1
                       /\ top s' = Some rv
                       /\ framesIndex s' = framesIndex s - 1).
  { intros n. eexists. split; [apply push_ok; simpl; lia|].
    simpl. split; [reflexivity|]. split; [|reflexivity].
    unfold top. simpl.
    replace (basePointer f - 1 + 1 - 1) with (basePointer f - 1) by lia.
    apply index_insert_eq. lia. }
  destruct Hrv as [[-> Htop] | [-> ->]]; unfold exec.
  - rewrite (bind_eq _ _ _ _ _ (pop_ok s1 (sp s - 1) rv eq_refl Htop)).
    rewrite (bind_eq _ _ _ _ _ (Hpf (sp s1 - 1))).
    simpl must. unfold bind at 1, ret. unfold bind at 1, modify at 1.
    apply (Hpush (sp s1 - 1)).
  - change s1 with (set_sp s1 (sp s1)).
    rewrite (bind_eq _ _ _ _ _ (Hpf (sp s1))).
    simpl must. unfold bind at 1, ret. unfold bind at 1, modify at 1.
    apply (Hpush (sp s1)).
Qed.

(** C1: a closure is called with [nargs] arguments; the body of the callee
    runs, nested calls included, without returning to the caller; then
    the matching [OpReturnValue] (or [OpReturn]) executes. That return
    completes and leaves the stack pointer at its value at the call minus
    [nargs] (the arguments) minus 1 (the callee) plus 1 (the value
    returned, which is on top of the stack; Null for [OpReturn]). *)
Theorem C1_call_return_stack_effect
    vm0 f0 b0 nargs p fn free vm1 n vmk fk bk op rv :
  current vm0 = Some (Some f0) ->
  index (Frame_Instructions f0) (vm.ip f0 + 1) = Some b0 ->
  decode opcode_byte b0 = Some OpCall ->
  ReadUint8 (Frame_Instructions f0) (vm.ip f0 + 2) = Some nargs ->
  0 <= nargs ->
  sp vm0 <= StackSize ->
  index (stack vm0) (sp vm0 - 1 - nargs) = Some (Ref p) ->
  heap vm0 !! p = Some (Closure fn free) ->
  step opcode_byte Builtins vm0 = Ok tt vm1 ->
  steps_above opcode_byte Builtins (framesIndex vm0) n vm1 = Some vmk ->
  framesIndex vmk = framesIndex vm0 + 1 ->
  current vmk = Some (Some fk) ->
  index (Frame_Instructions fk) (vm.ip fk + 1) = Some bk ->
  decode opcode_byte bk = Some op ->
  (op = OpReturnValue /\ top vmk = Some rv) \/ (op = OpReturn /\ rv = Null) ->
  exists vm',
    step opcode_byte Builtins vmk = Ok tt vm'
    /\ sp vm' = sp vm0 - nargs - 1 + 1
    /\ top vm' = Some rv
    /\ framesIndex vm' = framesIndex vm0.
Proof.
  intros Hf0 Hb0 Hop0 Hn Hnn Hsp Hc Hp Hcall Hbody Hdepth Hfk Hbk Hopk Hrv.
  pose proof (index_Some_range _ _ _ Hf0) as Rf0.
  pose proof (index_Some_range _ _ _ Hc) as Rc.
  rewrite (step_fetch _ _ _ _ Hf0 Hb0 Hop0) in Hcall.
  destruct (closure_call_Ok (jumped vm0 f0 (vm.ip f0 + 1))
              (set_ip f0 (vm.ip f0 + 1)) (Frame_Instructions f0)
              (vm.ip f0 + 1) nargs p fn free vm1
              (current_jumped _ _ _ Hf0)
              ltac:(replace (vm.ip f0 + 1 + 1) with (vm.ip f0 + 2) by lia; exact Hn)
              Hc Hp Hcall)
    as (I1 & S1 & fr & Hfr & Bfr).
  simpl in I1, S1, Hfr, Bfr.
  destruct (steps_above_invariant (framesIndex vm0) n vm1 vmk fr
              ltac:(lia) Hbody Hfr) as (Sk & fk' & Hfk' & Bk).
  assert (fk' = fk) as ->.
  { unfold current in Hfk. rewrite Hdepth in Hfk.
    replace (framesIndex vm0 + 1 - 1) with (framesIndex vm0) in Hfk by lia.
    congruence. }
  destruct (return_step_ok vmk fk bk op rv Hfk Hbk Hopk Hrv)
    as (vm' & E & Esp & Etop & Eidx).
  - rewrite Bk, Bfr. unfold StackSize in *. lia.
  - rewrite Bk, Bfr, Sk, S1. lia.
  - exists vm'. split; [exact E|]. split; [|split; [exact Etop|]]; lia.
Qed.

End Properties.

(** ** The theorems at concrete machines *)

(** The machine runs the end-to-end scenarios of the specification to the
    results it gives for them. *)
Example scenario_fib : outcome 4000 fib_machine = Some (0, Some (Integer 55)).
Proof. vm_compute. reflexivity. Qed.

Example scenario_closure : outcome 100 adder_machine = Some (0, Some (Integer 5)).
Proof. vm_compute. reflexivity. Qed.

Example scenario_dict : outcome 100 dict_machine = Some (0, Some (Integer 2)).
Proof. vm_compute. reflexivity. Qed.

Example scenario_concat :
  outcome 100 concat_machine = Some (0, Some (String "Vajalang")).
Proof. vm_compute. reflexivity. Qed.

Lemma C2_integer_arithmetic_witness :
  exists vm',
    exec table_order spec_order_builtins OpDiv [] 0
      (machine_with [] [] [] [Integer (-7); Integer 2]) = Ok tt vm'
    /\ sp vm' = 1
    /\ top vm' = Some (Integer (-3)).
Proof.
  destruct (C2_integer_arithmetic table_order spec_order_builtins
              (machine_with [] [] [] [Integer (-7); Integer 2]) [] 0 OpDiv (-7) 2)
    as (vm' & E & S & T).
  - simpl. auto.
  - intros _. discriminate.
  - vm_compute. discriminate.
  - reflexivity.
  - reflexivity.
  - exists vm'. split; [exact E|]. split; [exact S | exact T].
Defined.

(** C2 as the specification states it fails: with the operands 1 and 0, [OpDiv]
    pushes nothing; the machine panics with the host's division by zero. *)
Lemma C2_division_by_zero_counterexample :
  index (stack (machine_with [] [] [] [Integer 1; Integer 0])) 0 = Some (Integer 1)
  /\ index (stack (machine_with [] [] [] [Integer 1; Integer 0])) 1 = Some (Integer 0)
  /\ sp (machine_with [] [] [] [Integer 1; Integer 0]) = 2
  /\ exec table_order spec_order_builtins OpDiv [] 0
       (machine_with [] [] [] [Integer 1; Integer 0]) = Panic
  /\ exec table_order spec_order_builtins OpMod [] 0
       (machine_with [] [] [] [Integer 1; Integer 0]) = Panic.
Proof. repeat split; vm_compute; reflexivity. Qed.

Lemma C3_string_comparison_witness :
  (exists vm',
     exec table_order spec_order_builtins OpEqual [] 0
       (machine_with [] [] [] [String "va"; String "va"]) = Ok tt vm'
     /\ sp vm' = 1
     /\ top vm' = Some (Boolean true))
  /\ (exists vm',
     exec table_order spec_order_builtins OpLessThan [] 0
       (machine_with [] [] [] [String "va"; String "ja"])
     = Err "unknown string operator: 11" vm').
Proof.
  split.
  - destruct (C3_string_comparison table_order spec_order_builtins
                (machine_with [] [] [] [String "va"; String "va"]) [] 0
                OpEqual "va" "va") as [H _].
    + simpl. auto.
    + vm_compute. discriminate.
    + reflexivity.
    + reflexivity.
    + exact (H eq_refl).
  - destruct (C3_string_comparison table_order spec_order_builtins
                (machine_with [] [] [] [String "va"; String "ja"]) [] 0
                OpLessThan "va" "ja") as [_ H].
    + simpl. auto.
    + vm_compute. discriminate.
    + reflexivity.
    + reflexivity.
    + apply H. discriminate.
Defined.

(** C3 as the specification states it fails: on two strings [OpNotEqual] pushes no
    Boolean; it fails with "unknown string operator". *)
Lemma C3_not_equal_counterexample :
  error_of (exec table_order spec_order_builtins OpNotEqual [] 0
              (machine_with [] [] [] [String "va"; String "ja"]))
  = Some "unknown string operator: 9"%string.
Proof. vm_compute. reflexivity. Qed.

Lemma C5_OpWhile_always_jumps_witness :
  (exists vm' f',
     step table_order spec_order_builtins
       (machine_with [table_order OpWhile; 0; 7] [] [] [Boolean true])
     = Ok tt vm'
     /\ current vm' = Some (Some f') /\ ip f' = 7 - 1
     /\ framesIndex vm' = 1 /\ sp vm' = 1 - 1)
  /\ (exists vm' f',
     step table_order spec_order_builtins
       (machine_with [table_order OpWhile; 0; 7] [] [] [Boolean false])
     = Ok tt vm'
     /\ current vm' = Some (Some f') /\ ip f' = 7 - 1
     /\ framesIndex vm' = 1 /\ sp vm' = 1 - 1).
Proof.
  split.
  - eapply (C5_OpWhile_always_jumps table_order spec_order_builtins
              (machine_with [table_order OpWhile; 0; 7] [] [] [Boolean true])
              _ (table_order OpWhile) 7 (Boolean true));
      vm_compute; reflexivity.
  - eapply (C5_OpWhile_always_jumps table_order spec_order_builtins
              (machine_with [table_order OpWhile; 0; 7] [] [] [Boolean false])
              _ (table_order OpWhile) 7 (Boolean false));
      vm_compute; reflexivity.
Defined.

Lemma C1_call_return_stack_effect_witness :
  exists vm',
    step table_order spec_order_builtins (run_for 7 add_machine) = Ok tt vm'
    /\ sp vm' = sp (run_for 3 add_machine) - 2 - 1 + 1
    /\ top vm' = Some (Integer 7)
    /\ framesIndex vm' = framesIndex (run_for 3 add_machine).
Proof.
  eapply (C1_call_return_stack_effect table_order spec_order_builtins
            (run_for 3 add_machine) _ (table_order OpCall) 2 _ _ _
            (run_for 4 add_machine) 3 (run_for 7 add_machine)
            _ (table_order OpReturnValue) OpReturnValue (Integer 7)).
  - vm_compute. reflexivity.
  - vm_compute. reflexivity.
  - vm_compute. reflexivity.
  - vm_compute. reflexivity.
  - lia.
  - vm_compute. discriminate.
  - vm_compute. reflexivity.
  - vm_compute. reflexivity.
  - vm_compute. reflexivity.
  - vm_compute. reflexivity.
  - vm_compute. reflexivity.
  - vm_compute. reflexivity.
  - vm_compute. reflexivity.
  - vm_compute. reflexivity.
  - left. split; [reflexivity | vm_compute; reflexivity].
Defined.

Lemma C4_OpIndex_witness :
  (exists vm',
     exec table_order spec_order_builtins OpIndex [] 0
       (machine_with [] [] [Array [Integer 10; Integer 20]] [Ref 0%nat; Integer 1])
     = Ok tt vm'
     /\ top vm' = Some (Integer 20))
  /\ (exists vm',
     exec table_order spec_order_builtins OpIndex [] 0
       (machine_with [] [] [Array [Integer 10; Integer 20]] [Ref 0%nat; Integer 2])
     = Ok tt vm'
     /\ top vm' = Some Null)
  /\ (exists vm',
     exec table_order spec_order_builtins OpIndex [] 0
       (machine_with [] [] [] [String "va"; Integer 0])
     = Err "index operator not supported: STRING" vm').
Proof.
  split; [|split].
  - destruct (C4_OpIndex table_order spec_order_builtins
                (machine_with [] [] [Array [Integer 10; Integer 20]]
                   [Ref 0%nat; Integer 1]) [] 0 (Ref 0%nat) (Integer 1))
      as (H & _).
    + vm_compute. discriminate.
    + reflexivity.
    + reflexivity.
    + destruct (H 0%nat [Integer 10; Integer 20] 1 eq_refl eq_refl eq_refl)
        as (vm' & E & _ & Hin & _).
      exists vm'. split; [exact E|].
      destruct (Hin ltac:(simpl; lia)) as (el & Hel & T).
      vm_compute in Hel. injection Hel as <-. exact T.
  - destruct (C4_OpIndex table_order spec_order_builtins
                (machine_with [] [] [Array [Integer 10; Integer 20]]
                   [Ref 0%nat; Integer 2]) [] 0 (Ref 0%nat) (Integer 2))
      as (H & _).
    + vm_compute. discriminate.
    + reflexivity.
    + reflexivity.
    + destruct (H 0%nat [Integer 10; Integer 20] 2 eq_refl eq_refl eq_refl)
        as (vm' & E & _ & _ & Hout).
      exists vm'. split; [exact E|]. apply Hout. simpl. lia.
  - destruct (C4_OpIndex table_order spec_order_builtins
                (machine_with [] [] [] [String "va"; Integer 0]) [] 0
                (String "va") (Integer 0))
      as (_ & _ & _ & H).
    + vm_compute. discriminate.
    + reflexivity.
    + reflexivity.
    + apply (H STRING_OBJ eq_refl); [discriminate|]. intros [=].
Defined.

Lemma C6_closure_call_witness :
  (exists vm',
     exec table_order spec_order_builtins OpCall
       [table_order OpCall; 2] 0
       (calling_machine [Integer 5; Integer 6])
     = Err "wrong number of arguments: want=1, got=2" vm'
     /\ framesIndex vm' = 1)
  /\ (exists vm' fr,
     exec table_order spec_order_builtins OpCall
       [table_order OpCall; 1] 0
       (calling_machine [Integer 5])
     = Ok tt vm'
     /\ framesIndex vm' = 2
     /\ current vm' = Some (Some fr)
     /\ basePointer fr = 2 - 1
     /\ sp vm' = 1 + 3).
Proof.
  split.
  - destruct (C6_closure_call table_order spec_order_builtins
                 (calling_machine [Integer 5; Integer 6])
                 (main_frame [table_order OpCall; 2] [Closure one_parameter_fn []])
                 [table_order OpCall; 2] 0 2 0%nat one_parameter_fn [])
      as (H & _).
    + vm_compute. reflexivity.
    + reflexivity.
    + reflexivity.
    + reflexivity.
    + destruct (H ltac:(discriminate)) as (vm' & E & I & _).
      exists vm'. split; [exact E | exact I].
  - destruct (C6_closure_call table_order spec_order_builtins
                 (calling_machine [Integer 5])
                 (main_frame [table_order OpCall; 1] [Closure one_parameter_fn []])
                 [table_order OpCall; 1] 0 1 0%nat one_parameter_fn [])
      as (_ & H).
    + vm_compute. reflexivity.
    + reflexivity.
    + reflexivity.
    + reflexivity.
    + destruct (H eq_refl ltac:(vm_compute; reflexivity))
        as (vm' & fr & E & I & C & B & _ & _ & S).
      exists vm', fr. split; [exact E|]. split; [exact I|].
      split; [exact C|]. split; [exact B|]. rewrite S, B. reflexivity.
Defined.

(** C6 as the specification states it fails: the function that calls itself without
    end reaches, after 2049 iterations of the dispatch loop, a call of a
    closure with the right number of arguments (none) while all 1024 frames
    are in use; that call pushes no frame: the machine panics, and so does
    [Run] on that program. *)
Lemma C6_full_frame_stack_counterexample :
  call_on_full_frame_stack (run_for 2049 recursion_machine)
  /\ Run table_order spec_order_builtins 2100 recursion_machine = Some Panic.
Proof.
  split.
  - vm_compute. repeat (split; [reflexivity|]). reflexivity.
  - vm_compute. reflexivity.
Qed.

Lemma C7_builtins_that_panic_witness :
  builtins.Fn Organize [] [] = builtins.Panics
  /\ executeCall 0 (machine_with [] [] [] [Builtin Organize]) = Panic
  /\ builtins.Fn Max [Ref 0%nat] [Array [Integer 1; String "a"]] = builtins.Panics
  /\ builtins.Fn Min [Ref 0%nat] [Array [Integer 1; String "a"]] = builtins.Panics.
Proof.
  destruct C7_builtins_that_panic as (H1 & H2 & H3).
  split; [apply H1|]. split.
  - apply H2. reflexivity.
  - apply (H3 [Array [Integer 1; String "a"]] 0%nat
              [Integer 1; String "a"] (String "a")).
    + reflexivity.
    + simpl. lia.
    + simpl. auto.
    + reflexivity.
Defined.

Lemma C8_DictKey_witness :
  Dictable (Integer (-1)) = Some (INTEGER_OBJ, 18446744073709551615)
  /\ Dictable (Boolean true) = Some (BOOLEAN_OBJ, 1)
  /\ Dictable (String "a") = Some (STRING_OBJ, 12638187200555641996)
  /\ buildDict (2 - 2) 2 (machine_with [] [] [] [Null; Integer 1])
     = Err "unusable as hash key: NULL" (machine_with [] [] [] [Null; Integer 1])
  /\ executeDictIndex (Ref 0%nat) (Float f64.zero)
       (machine_with [] [] [Dict ∅] [])
     = Err "unusable as hash key: FLOAT" (machine_with [] [] [Dict ∅] []).
Proof.
  destruct C8_DictKey as (H1 & H2 & H3 & _ & H5 & H6).
  split; [|split; [|split; [|split]]].
  - rewrite (H1 (-1)); [reflexivity | lia].
  - apply (H2 true).
  - rewrite (H3 "a"%string). reflexivity.
  - apply (H5 (machine_with [] [] [] [Null; Integer 1]) [] Null (Integer 1)
              NULL_OBJ 2).
    + intros j key value Hj. destruct j as [|[|j]]; simpl in Hj;
        [injection Hj as <- <-; split; reflexivity | discriminate | discriminate].
    + intros k v [].
    + reflexivity.
    + reflexivity.
    + simpl. lia.
  - apply (H6 (machine_with [] [] [Dict ∅] []) 0%nat ∅ (Float f64.zero) FLOAT_OBJ);
      reflexivity.
Defined.

Lemma C9_later_binding_wins_witness :
  exists vm' d,
    exec table_order spec_order_builtins OpDict [table_order OpDict; 0; 4] 0
      (machine_with [table_order OpDict; 0; 4] [] []
         [Integer 1; String "a"; Integer 1; String "b"])
    = Ok tt vm'
    /\ top vm' = Some (Ref d)
    /\ heap vm' !! d
       = Some (Dict (dict_of_pairs [(Integer 1, String "a"); (Integer 1, String "b")]))
    /\ dict_of_pairs [(Integer 1, String "a"); (Integer 1, String "b")]
         !! (INTEGER_OBJ, 1)
       = Some {| Key := Integer 1; Value := String "b" |}.
Proof.
  destruct (C9_later_binding_wins table_order spec_order_builtins
              (machine_with [table_order OpDict; 0; 4] [] []
                 [Integer 1; String "a"; Integer 1; String "b"])
              (main_frame [table_order OpDict; 0; 4] [])
              [table_order OpDict; 0; 4] 0
              [(Integer 1, String "a"); (Integer 1, String "b")])
    as (vm' & d & E & _ & T & Hd & Hlast).
  - vm_compute. reflexivity.
  - reflexivity.
  - vm_compute. discriminate.
  - discriminate.
  - intros j key value Hj. destruct j as [|[|j]]; simpl in Hj;
      [injection Hj as <- <-; split; reflexivity
      | injection Hj as <- <-; split; reflexivity
      | discriminate].
  - intros key value [[= <- <-]|[[= <- <-]|[]]]; simpl; eauto.
  - exists vm', d. split; [exact E|]. split; [exact T|]. split; [exact Hd|].
    apply (Hlast 1%nat (Integer 1) (String "b") (INTEGER_OBJ, 1)).
    + reflexivity.
    + reflexivity.
    + intros j' key' value' Hlt Hj'. destruct j' as [|[|j']]; [lia | lia |].
      simpl in Hj'. discriminate.
Defined.

Lemma C10_builtin_on_empty_array_witness :
  builtins.Fn ArrayFirst [Ref 0%nat]
    (heap (machine_with [] [] [Array []] [Builtin ArrayFirst; Ref 0%nat]))
  = builtins.Return Nil
      (heap (machine_with [] [] [Array []] [Builtin ArrayFirst; Ref 0%nat]))
  /\ exists vm',
       executeCall 1 (machine_with [] [] [Array []] [Builtin Min; Ref 0%nat])
       = Ok tt vm'
       /\ sp vm' = 2 - 1
       /\ top vm' = Some Null.
Proof.
  split.
  - destruct (C10_builtin_on_empty_array
                (machine_with [] [] [Array []] [Builtin ArrayFirst; Ref 0%nat])
                ArrayFirst 0%nat) as (H & _).
    + simpl. auto.
    + vm_compute. discriminate.
    + reflexivity.
    + reflexivity.
    + reflexivity.
    + exact H.
  - destruct (C10_builtin_on_empty_array
                (machine_with [] [] [Array []] [Builtin Min; Ref 0%nat])
                Min 0%nat) as (_ & vm' & E & S & T & _).
    + simpl. auto.
    + vm_compute. discriminate.
    + reflexivity.
    + reflexivity.
    + reflexivity.
    + exists vm'. split; [exact E|]. split; [exact S | exact T].
Defined.

(** ** Further properties of the code *)

Section Further.

Variable opcode_byte : Opcode -> Z.
Variable Builtins : list BuiltinFunction.

(** *** The operand stack *)

(** X1: [push] on a full operand stack (sp at or above [StackSize])
    returns the error "stack overflow" and leaves the machine as it was;
    a push that completes stores the object at slot [sp], increments [sp]
    (which then lies in 1..StackSize) and touches no other slot, nor the
    globals, the frames or the heap. *)
Theorem push_overflow_is_an_error o s :
  (StackSize <= sp s -> push o s = Err "stack overflow" s)
  /\ (forall s', push o s = Ok tt s' ->
        sp s' = sp s + 1 /\ 0 < sp s' <= StackSize
        /\ top s' = Some o
        /\ (forall j, j <> sp s -> index (stack s') j = index (stack s) j)
        /\ globals s' = globals s /\ frames s' = frames s /\ heap s' = heap s).
Proof.
  split.
  - intros H. unfold push, bind, get.
    replace (StackSize <=? sp s) with true by lia. reflexivity.
  - intros s'. unfold push, stack_set, bind, get, modify, must, ret, panic, Errorf.
    destruct (Z.leb_spec StackSize (sp s)) as [|Hlt]; [discriminate|].
    destruct (store (stack s) (sp s) o) as [l|] eqn:E; [|discriminate].
    apply store_Some in E. destruct E as [R ->].
    intros [= <-]. simpl. split; [reflexivity|]. split; [lia|].
    split; [|split; [|auto]].
    + unfold top. simpl. replace (sp s + 1 - 1) with (sp s) by lia.
      apply index_insert_eq. exact R.
    + intros j Hj. apply index_insert_ne; lia.
Qed.

(** X2: [pop] on an empty stack panics (the slice index is -1); a pop
    that completes returns the object on top, decrements [sp] and leaves
    the slot as it was, so that [LastPoppedStackElem] reads the object
    popped; a push followed by a pop returns the object pushed and
    restores [sp]. *)
Theorem pop_returns_top_and_keeps_it s :
  (sp s <= 0 -> pop s = Panic)
  /\ (forall o s', pop s = Ok o s' ->
        top s = Some o /\ sp s' = sp s - 1 /\ stack s' = stack s
        /\ LastPoppedStackElem s' = Some o)
  /\ (forall o, 0 <= sp s < StackSize -> sp s < Z.of_nat (length (stack s)) ->
        exists s1 s2,
          push o s = Ok tt s1 /\ pop s1 = Ok o s2
          /\ sp s2 = sp s
          /\ LastPoppedStackElem s2 = Some o
          /\ (forall j, j <> sp s -> index (stack s2) j = index (stack s) j)).
Proof.
  split; [|split].
  - intros H. unfold pop, bind, get, index.
    replace (sp s - 1 <? 0) with true by lia. reflexivity.
  - intros o s'. unfold pop, bind, get, modify, must, ret, panic.
    destruct (index (stack s) (sp s - 1)) as [x|] eqn:E; [|discriminate].
    intros [= <- <-]. simpl. unfold top, LastPoppedStackElem. simpl. auto.
  - intros o H1 H2. eexists _, _. split; [apply push_ok; assumption|].
    split.
    + eapply pop_ok; [reflexivity|]. simpl.
      replace (sp s + 1 - 1) with (sp s) by lia. apply index_insert_eq. lia.
    + simpl. split; [lia|]. split.
      * unfold LastPoppedStackElem. simpl.
        replace (sp s + 1 - 1) with (sp s) by lia. apply index_insert_eq. lia.
      * intros j Hj. apply index_insert_ne; lia.
Qed.

Lemma pushed_after_two_pops vm x y o :
  sp vm <= StackSize ->
  index (stack vm) (sp vm - 2) = Some x ->
  index (stack vm) (sp vm - 1) = Some y ->
  exists vm', push o (set_sp (set_sp vm (sp vm - 1)) (sp vm - 1 - 1)) = Ok tt vm'
    /\ sp vm' = sp vm - 1 /\ top vm' = Some o.
Proof.
  intros Hsp H2 H1.
  destruct (push_after_two_pops vm x y o Hsp H2 H1) as (vm' & E & S & T & _).
  exists vm'. auto.
Qed.

Lemma push_after_one_pop vm x o :
  sp vm <= StackSize ->
  top vm = Some x ->
  exists vm', push o (set_sp vm (sp vm - 1)) = Ok tt vm'
    /\ sp vm' = sp vm /\ top vm' = Some o
    /\ (forall j, j <> sp vm - 1 -> index (stack vm') j = index (stack vm) j).
Proof.
  intros Hsp Hx. pose proof (index_Some_range _ _ _ Hx) as R.
  eexists. split; [apply push_ok; simpl; unfold StackSize in *; lia|].
  simpl. split; [lia|]. split.
  - unfold top. simpl. replace (sp vm - 1 + 1 - 1) with (sp vm - 1) by lia.
    apply index_insert_eq. lia.
  - intros j Hj. apply index_insert_ne; lia.
Qed.

(** *** Control flow, globals and locals *)

(** X3: a byte that matches no case of the dispatch switch is skipped:
    the iteration only advances the instruction pointer of the current
    frame by one. *)
Theorem unknown_opcode_is_skipped s f b :
  current s = Some (Some f) ->
  index (Frame_Instructions f) (ip f + 1) = Some b ->
  decode opcode_byte b = None ->
  step opcode_byte Builtins s = Ok tt (jumped s f (ip f + 1)).
Proof.
  intros Hf Hb Hd. unfold step.
  rewrite (bind_eq _ _ _ _ _ (add_current_ip_ok _ _ 1 Hf)).
  rewrite (bind_eq _ _ _ _ _ (currentFrame_ok _ _ (current_jumped _ _ _ Hf))).
  simpl ip. change (Frame_Instructions (set_ip f (ip f + 1))) with (Frame_Instructions f).
  rewrite (bind_must _ _ _ _ Hb). cbv beta. rewrite Hd. reflexivity.
Qed.

(** X4: [OpJump target] leaves the instruction pointer at [target - 1],
    so that the next instruction fetched is the one at [target];
    [OpJumpNotTruthy target] pops the condition and does the same when the
    condition is not truthy, and otherwise leaves the instruction pointer
    on the last byte of its own operand. *)
Theorem jump_targets s f b target :
  current s = Some (Some f) ->
  index (Frame_Instructions f) (ip f + 1) = Some b ->
  ReadUint16 (Frame_Instructions f) (ip f + 2) = Some target ->
  (decode opcode_byte b = Some OpJump ->
     step opcode_byte Builtins s = Ok tt (jumped (jumped s f (ip f + 1))
                                            (set_ip f (ip f + 1)) (target - 1)))
  /\ (decode opcode_byte b = Some OpJumpNotTruthy ->
      forall condition, top s = Some condition ->
      exists s' f',
        step opcode_byte Builtins s = Ok tt s'
        /\ current s' = Some (Some f')
        /\ ip f' = (if isTruthy condition then ip f + 3 else target - 1)
        /\ sp s' = sp s - 1
        /\ stack s' = stack s).
Proof.
  intros Hf Hb Hread.
  pose proof (current_jumped s f (ip f + 1) Hf) as H1.
  split.
  - intros Hop. rewrite (step_fetch _ _ _ _ _ _ Hf Hb Hop). unfold exec.
    replace (ip f + 1 + 1) with (ip f + 2) by lia.
    rewrite (bind_must _ _ _ _ Hread). cbv beta.
    apply (set_current_ip_ok _ _ _ H1).
  - intros Hop condition Hc. rewrite (step_fetch _ _ _ _ _ _ Hf Hb Hop).
    unfold exec. replace (ip f + 1 + 1) with (ip f + 2) by lia.
    rewrite (bind_must _ _ _ _ Hread). cbv beta.
    rewrite (bind_eq _ _ _ _ _ (add_current_ip_ok _ _ 2 H1)).
    pose proof (current_jumped _ _ (ip (set_ip f (ip f + 1)) + 2) H1) as H2.
    set (s2 := jumped (jumped s f (ip f + 1)) (set_ip f (ip f + 1))
                 (ip (set_ip f (ip f + 1)) + 2)) in *.
    rewrite (bind_eq _ _ _ _ _ (pop_ok s2 (sp s - 1) condition eq_refl Hc)).
    assert (H3 : current (set_sp s2 (sp s2 - 1)) = Some (Some (set_ip (set_ip f (ip f + 1)) (ip (set_ip f (ip f + 1)) + 2)))) by exact H2.
    destruct (isTruthy condition).
    + change (negb true) with false. cbv iota.
      eexists _, _. split; [reflexivity|]. split; [exact H3|].
      simpl. repeat split; lia.
    + change (negb false) with true. cbv iota.
      rewrite (set_current_ip_ok _ _ _ H3).
      eexists _, _. split; [reflexivity|].
      split; [apply current_jumped, H3|]. simpl. repeat split; lia.
Qed.

(** X5: [OpSetGlobal i] pops the top of the stack into [globals[i]] and
    changes no other global; [OpGetGlobal i] executed next pushes that
    value back. *)
Theorem global_set_then_get s f ins ip ins' ip' idx v :
  current s = Some (Some f) ->
  ReadUint16 ins (ip + 1) = Some idx ->
  ReadUint16 ins' (ip' + 1) = Some idx ->
  top s = Some v ->
  sp s <= StackSize ->
  0 <= idx < Z.of_nat (length (globals s)) ->
  exists s1 s2,
    exec opcode_byte Builtins OpSetGlobal ins ip s = Ok tt s1
    /\ sp s1 = sp s - 1
    /\ index (globals s1) idx = Some v
    /\ (forall j, j <> idx -> index (globals s1) j = index (globals s) j)
    /\ exec opcode_byte Builtins OpGetGlobal ins' ip' s1 = Ok tt s2
    /\ sp s2 = sp s
    /\ top s2 = Some v
    /\ globals s2 = globals s1.
Proof.
  intros Hf Hr Hr' Hv Hsp Hidx.
  pose proof (index_Some_range _ _ _ Hv) as Rv.
  pose proof (current_jumped s f (vm.ip f + 2) Hf) as H1.
  set (s0 := jumped s f (vm.ip f + 2)) in *.
  set (s1 := set_globals (set_sp s0 (sp s0 - 1)) (<[Z.to_nat idx := v]> (globals s))).
  assert (E1 : exec opcode_byte Builtins OpSetGlobal ins ip s = Ok tt s1).
  { unfold exec. rewrite (bind_must _ _ _ _ Hr). cbv beta.
    rewrite (bind_eq _ _ _ _ _ (add_current_ip_ok _ _ 2 Hf)).
    rewrite (bind_eq _ _ _ _ _ (pop_ok s0 (sp s - 1) v eq_refl Hv)).
    unfold bind at 1, get. cbv beta.
    rewrite (bind_must _ _ _ _ (store_in_range (globals s) idx v Hidx)).
    reflexivity. }
  assert (H2 : current s1 = Some (Some (set_ip f (vm.ip f + 2)))) by exact H1.
  pose proof (current_jumped s1 _ (vm.ip (set_ip f (vm.ip f + 2)) + 2) H2) as H3.
  exists s1. eexists. split; [exact E1|]. split; [reflexivity|].
  split; [apply index_insert_eq; exact Hidx|].
  split; [intros j Hj; apply index_insert_ne; lia|].
  split.
  - unfold exec. rewrite (bind_must _ _ _ _ Hr'). cbv beta.
    rewrite (bind_eq _ _ _ _ _ (add_current_ip_ok _ _ 2 H2)).
    unfold bind at 1, get. cbv beta.
    rewrite (bind_must _ _ _ _ (index_insert_eq (globals s) idx v Hidx)).
    cbv beta. apply push_ok; simpl; unfold StackSize in *; lia.
  - simpl. split; [lia|]. split; [|reflexivity].
    unfold top. simpl. replace (sp s - 1 + 1 - 1) with (sp s - 1) by lia.
    apply index_insert_eq. lia.
Qed.

(** X6: [OpSetLocal i] pops the top of the stack into the slot
    [basePointer + i] of the current frame and changes no other slot;
    [OpGetLocal i] executed next pushes that value back. *)
Theorem local_set_then_get s f ins ip ins' ip' idx v :
  current s = Some (Some f) ->
  ReadUint8 ins (ip + 1) = Some idx ->
  ReadUint8 ins' (ip' + 1) = Some idx ->
  top s = Some v ->
  sp s <= StackSize ->
  0 <= basePointer f + idx < Z.of_nat (length (stack s)) ->
  exists s1 s2,
    exec opcode_byte Builtins OpSetLocal ins ip s = Ok tt s1
    /\ sp s1 = sp s - 1
    /\ index (stack s1) (basePointer f + idx) = Some v
    /\ (forall j, j <> basePointer f + idx -> index (stack s1) j = index (stack s) j)
    /\ exec opcode_byte Builtins OpGetLocal ins' ip' s1 = Ok tt s2
    /\ sp s2 = sp s
    /\ top s2 = Some v
    /\ index (stack s2) (basePointer f + idx) = Some v.
Proof.
  intros Hf Hr Hr' Hv Hsp Hidx.
  pose proof (index_Some_range _ _ _ Hv) as Rv.
  pose proof (current_jumped s f (vm.ip f + 1) Hf) as H1.
  set (s0 := jumped s f (vm.ip f + 1)) in *.
  set (s1 := set_stack (set_sp s0 (sp s0 - 1))
               (<[Z.to_nat (basePointer f + idx) := v]> (stack s))).
  assert (E1 : exec opcode_byte Builtins OpSetLocal ins ip s = Ok tt s1).
  { unfold exec. rewrite (bind_must _ _ _ _ Hr). cbv beta.
    rewrite (bind_eq _ _ _ _ _ (add_current_ip_ok _ _ 1 Hf)).
    rewrite (bind_eq _ _ _ _ _ (currentFrame_ok _ _ H1)).
    rewrite (bind_eq _ _ _ _ _ (pop_ok s0 (sp s - 1) v eq_refl Hv)).
    unfold stack_set, bind at 1, get. cbv beta. simpl basePointer.
    rewrite (bind_must _ _ _ _ (store_in_range (stack s) _ v Hidx)).
    reflexivity. }
  assert (H2 : current s1 = Some (Some (set_ip f (vm.ip f + 1)))) by exact H1.
  exists s1. eexists. split; [exact E1|]. split; [reflexivity|].
  split; [apply index_insert_eq; exact Hidx|].
  split; [intros j Hj; apply index_insert_ne; lia|].
  assert (L : length (stack s1) = length (stack s)) by (simpl; apply length_insert).
  split.
  - unfold exec. rewrite (bind_must _ _ _ _ Hr'). cbv beta.
    rewrite (bind_eq _ _ _ _ _ (add_current_ip_ok _ _ 1 H2)).
    rewrite (bind_eq _ _ _ _ _ (currentFrame_ok _ _ (current_jumped _ _ _ H2))).
    unfold bind at 1, get. cbv beta. simpl basePointer.
    rewrite (bind_must _ _ _ _ (index_insert_eq (stack s) _ v Hidx)).
    cbv beta. apply push_ok; simpl; rewrite ?length_insert; unfold StackSize in *; lia.
  - simpl. split; [lia|]. split.
    + unfold top. simpl. replace (sp s - 1 + 1 - 1) with (sp s - 1) by lia.
      apply index_insert_eq. rewrite length_insert. lia.
    + destruct (Z.eq_dec (sp s - 1) (basePointer f + idx)) as [e|n].
      * rewrite e. apply index_insert_eq. rewrite length_insert. lia.
      * rewrite index_insert_ne by lia. apply index_insert_eq. lia.
Qed.

(** *** Arithmetic *)

Lemma binary_operation_types vm op left right lt rt :
  index (stack vm) (sp vm - 2) = Some left ->
  index (stack vm) (sp vm - 1) = Some right ->
  Type_ (heap vm) left = Some lt ->
  Type_ (heap vm) right = Some rt ->
  executeBinaryOperation opcode_byte op vm
  = (if String.eqb lt INTEGER_OBJ && String.eqb rt INTEGER_OBJ
     then executeBinaryIntegerOperation opcode_byte op left right
     else if String.eqb lt FLOAT_OBJ && String.eqb rt FLOAT_OBJ
     then executeFloatOperation opcode_byte op left right
     else if String.eqb lt INTEGER_OBJ && String.eqb rt FLOAT_OBJ
     then executeIntLeftFloatRight opcode_byte op left right
     else if String.eqb lt FLOAT_OBJ && String.eqb rt INTEGER_OBJ
     then executeIntRightFloatLeft opcode_byte op left right
     else if String.eqb lt STRING_OBJ && String.eqb rt STRING_OBJ
     then executeBinaryStringOperation opcode_byte op left right
     else Errorf ("unsupported types for binary operation: "
                  +:+ lt +:+ " " +:+ rt))
      (set_sp (set_sp vm (sp vm - 1)) (sp vm - 1 - 1)).
Proof.
  intros H2 H1 Hl Hr. unfold executeBinaryOperation.
  rewrite (two_pops _ _ _ _ H2 H1).
  set (vm2 := set_sp (set_sp vm (sp vm - 1)) (sp vm - 1 - 1)).
  rewrite (bind_eq _ _ _ _ _ (Type_of_ok left vm2 lt Hl)).
  rewrite (bind_eq _ _ _ _ _ (Type_of_ok right vm2 rt Hr)).
  reflexivity.
Qed.

(** X7: on two String operands [OpAdd] pushes their concatenation (left
    operand first); every other arithmetic opcode fails with "unknown
    string operator: <opcode>". *)
Theorem string_concatenation vm ins ip op s1 s2 :
  In op arithmetic_opcodes ->
  sp vm <= StackSize ->
  index (stack vm) (sp vm - 2) = Some (String s1) ->
  index (stack vm) (sp vm - 1) = Some (String s2) ->
  (op = OpAdd ->
     exists vm',
       exec opcode_byte Builtins op ins ip vm = Ok tt vm'
       /\ sp vm' = sp vm - 1
       /\ top vm' = Some (String (s1 +:+ s2)))
  /\ (op <> OpAdd ->
      exists vm',
        exec opcode_byte Builtins op ins ip vm
        = Err ("unknown string operator: " +:+ fmt_d (opcode_byte op)) vm').
Proof.
  intros Hop Hsp H2 H1. rewrite (exec_arithmetic _ _ _ _ _ Hop).
  rewrite (binary_operation_types vm op _ _ STRING_OBJ STRING_OBJ H2 H1 eq_refl eq_refl).
  change (String.eqb STRING_OBJ INTEGER_OBJ) with false.
  change (String.eqb STRING_OBJ FLOAT_OBJ) with false.
  change (String.eqb STRING_OBJ STRING_OBJ) with true.
  cbv iota beta. simpl andb. cbv iota.
  unfold executeBinaryStringOperation. split.
  - intros ->. cbn -[push append].
    apply (pushed_after_two_pops vm _ _ _ Hsp H2 H1).
  - intros Hne. eexists.
    simpl in Hop. destruct Hop as [<-|[<-|[<-|[<-|[<-|[]]]]]];
      [contradiction | reflexivity ..].
Qed.

(** X8: an arithmetic opcode whose operands are neither two numbers nor
    two strings fails with "unsupported types for binary operation: L R",
    after both operands have been popped. *)
Theorem unsupported_operand_types vm ins ip op left right lt rt :
  In op arithmetic_opcodes ->
  index (stack vm) (sp vm - 2) = Some left ->
  index (stack vm) (sp vm - 1) = Some right ->
  Type_ (heap vm) left = Some lt ->
  Type_ (heap vm) right = Some rt ->
  ~ dispatched lt rt ->
  exists vm',
    exec opcode_byte Builtins op ins ip vm
    = Err ("unsupported types for binary operation: " +:+ lt +:+ " " +:+ rt) vm'
    /\ sp vm' = sp vm - 2.
Proof.
  intros Hop H2 H1 Hl Hr Hnd. rewrite (exec_arithmetic _ _ _ _ _ Hop).
  rewrite (binary_operation_types vm op _ _ lt rt H2 H1 Hl Hr).
  unfold dispatched, is_number in Hnd.
  destruct (String.eqb_spec lt INTEGER_OBJ), (String.eqb_spec rt INTEGER_OBJ),
    (String.eqb_spec lt FLOAT_OBJ), (String.eqb_spec rt FLOAT_OBJ),
    (String.eqb_spec lt STRING_OBJ), (String.eqb_spec rt STRING_OBJ);
    simpl andb; cbv iota; try (exfalso; apply Hnd; tauto);
    (eexists; split; [reflexivity | simpl; lia]).
Qed.

Lemma float_arith_dispatch vm ins ip op left right a b :
  In op arithmetic_opcodes ->
  sp vm <= StackSize ->
  index (stack vm) (sp vm - 2) = Some left ->
  index (stack vm) (sp vm - 1) = Some right ->
  float_value left = Some a ->
  float_value right = Some b ->
  (as_Integer left = None \/ as_Integer right = None) ->
  (op <> OpMod ->
     exists vm',
       exec opcode_byte Builtins op ins ip vm = Ok tt vm'
       /\ sp vm' = sp vm - 1
       /\ top vm' = Some (Float (float_exact op a b)))
  /\ (op = OpMod ->
      exists vm',
        exec opcode_byte Builtins op ins ip vm
        = Err ("unknown float operator: " +:+ fmt_d (opcode_byte op)) vm').
Proof.
  intros Hop Hsp H2 H1 Ha Hb Hnot.
  assert (P : forall o, exists vm',
    push o (set_sp (set_sp vm (sp vm - 1)) (sp vm - 1 - 1)) = Ok tt vm'
    /\ sp vm' = sp vm - 1 /\ top vm' = Some o)
    by (intros o; apply (pushed_after_two_pops vm _ _ o Hsp H2 H1)).
  rewrite (exec_arithmetic _ _ _ _ _ Hop).
  destruct left; simpl in Ha; try discriminate;
    destruct right; simpl in Hb; try discriminate;
    injection Ha as <-; injection Hb as <-;
    try (destruct Hnot; discriminate).
  - rewrite (binary_operation_types vm op _ _ INTEGER_OBJ FLOAT_OBJ H2 H1 eq_refl eq_refl).
    change (String.eqb INTEGER_OBJ INTEGER_OBJ) with true.
    change (String.eqb FLOAT_OBJ INTEGER_OBJ) with false.
    change (String.eqb INTEGER_OBJ FLOAT_OBJ) with false.
    change (String.eqb FLOAT_OBJ FLOAT_OBJ) with true.
    simpl andb. cbv iota.
    unfold executeIntLeftFloatRight, float_arith. cbn -[push f64.of_int64 f64.add f64.sub f64.mul f64.div].
    split; [intros Hne | intros ->; eexists; reflexivity].
    simpl in Hop. destruct Hop as [<-|[<-|[<-|[<-|[<-|[]]]]]];
      try contradiction; apply P.
  - rewrite (binary_operation_types vm op _ _ FLOAT_OBJ INTEGER_OBJ H2 H1 eq_refl eq_refl).
    change (String.eqb INTEGER_OBJ INTEGER_OBJ) with true.
    change (String.eqb FLOAT_OBJ INTEGER_OBJ) with false.
    change (String.eqb INTEGER_OBJ FLOAT_OBJ) with false.
    change (String.eqb FLOAT_OBJ FLOAT_OBJ) with true.
    simpl andb. cbv iota.
    unfold executeIntRightFloatLeft, float_arith. cbn -[push f64.of_int64 f64.add f64.sub f64.mul f64.div].
    split; [intros Hne | intros ->; eexists; reflexivity].
    simpl in Hop. destruct Hop as [<-|[<-|[<-|[<-|[<-|[]]]]]];
      try contradiction; apply P.
  - rewrite (binary_operation_types vm op _ _ FLOAT_OBJ FLOAT_OBJ H2 H1 eq_refl eq_refl).
    change (String.eqb FLOAT_OBJ INTEGER_OBJ) with false.
    change (String.eqb FLOAT_OBJ FLOAT_OBJ) with true.
    simpl andb. cbv iota.
    unfold executeFloatOperation, float_arith. cbn -[push f64.of_int64 f64.add f64.sub f64.mul f64.div].
    split; [intros Hne | intros ->; eexists; reflexivity].
    simpl in Hop. destruct Hop as [<-|[<-|[<-|[<-|[<-|[]]]]]];
      try contradiction; apply P.
Qed.

(** X9: when both operands are numbers and at least one is a Float, an
    integer operand is converted to float64 and [+], [-], [*], [/] push the
    Float result of the float operation; [OpMod] fails with "unknown float
    operator: <opcode>". A division by a float zero does not panic: its
    result is an infinity or not a number. *)
Theorem float_arithmetic_with_promotion vm ins ip op left right a b :
  In op arithmetic_opcodes ->
  sp vm <= StackSize ->
  index (stack vm) (sp vm - 2) = Some left ->
  index (stack vm) (sp vm - 1) = Some right ->
  float_value left = Some a ->
  float_value right = Some b ->
  (as_Integer left = None \/ as_Integer right = None) ->
  (op <> OpMod ->
     exists vm',
       exec opcode_byte Builtins op ins ip vm = Ok tt vm'
       /\ sp vm' = sp vm - 1
       /\ top vm' = Some (Float (float_exact op a b)))
  /\ (op = OpMod ->
      exists vm',
        exec opcode_byte Builtins op ins ip vm
        = Err ("unknown float operator: " +:+ fmt_d (opcode_byte op)) vm')
  /\ (op = OpDiv -> f64.is_zero b = true ->
      match float_exact op a b with
      | S754_infinity _ | S754_nan => True
      | _ => False
      end).
Proof.
  intros Hop Hsp H2 H1 Ha Hb Hnot.
  destruct (float_arith_dispatch vm ins ip op left right a b
              Hop Hsp H2 H1 Ha Hb Hnot) as [Hok Hmod].
  split; [exact Hok|]. split; [exact Hmod|].
  intros -> Hz. destruct b; try discriminate. destruct a; exact I.
Qed.

(** *** Comparisons *)

Lemma both_types_typed vm left right LT RT lt rt :
  Type_ (heap vm) left = Some lt ->
  Type_ (heap vm) right = Some rt ->
  both_types left right LT RT vm = Ok (String.eqb lt LT && String.eqb rt RT) vm.
Proof.
  intros Hl Hr. destruct (String.eqb lt LT) eqn:E.
  - rewrite (both_types_left vm left right LT RT lt rt Hl E Hr). reflexivity.
  - rewrite (both_types_other vm left right LT RT lt Hl E). reflexivity.
Qed.

Lemma comparison_types vm op left right lt rt :
  index (stack vm) (sp vm - 2) = Some left ->
  index (stack vm) (sp vm - 1) = Some right ->
  Type_ (heap vm) left = Some lt ->
  Type_ (heap vm) right = Some rt ->
  executeComparison opcode_byte op vm
  = (if String.eqb lt INTEGER_OBJ && String.eqb rt INTEGER_OBJ
     then executeIntegerComparison opcode_byte op left right
     else if String.eqb lt INTEGER_OBJ && String.eqb rt FLOAT_OBJ
     then executeIntLeftFloatRightComparison opcode_byte op left right
     else if String.eqb lt FLOAT_OBJ && String.eqb rt FLOAT_OBJ
     then executeFloatComparison opcode_byte op left right
     else if String.eqb lt FLOAT_OBJ && String.eqb rt INTEGER_OBJ
     then executeIntRightFloatLeftComparison opcode_byte op left right
     else if String.eqb lt STRING_OBJ && String.eqb rt STRING_OBJ
     then executeStringComparison opcode_byte op left right
     else
       match op with
       | OpEqual => push (nativeBoolToBooleanObject (same_object right left))
       | OpNotEqual => push (nativeBoolToBooleanObject (negb (same_object right left)))
       | _ => Errorf ("unknown operator: " +:+ fmt_d (opcode_byte op) +:+ " ("
                      +:+ lt +:+ " " +:+ rt +:+ ")")
       end)
      (set_sp (set_sp vm (sp vm - 1)) (sp vm - 1 - 1)).
Proof.
  intros H2 H1 Hl Hr. unfold executeComparison.
  rewrite (two_pops _ _ _ _ H2 H1).
  set (vm2 := set_sp (set_sp vm (sp vm - 1)) (sp vm - 1 - 1)).
  assert (Hl' : Type_ (heap vm2) left = Some lt) by exact Hl.
  assert (Hr' : Type_ (heap vm2) right = Some rt) by exact Hr.
  rewrite (bind_eq _ _ _ _ _ (both_types_typed vm2 _ _ INTEGER_OBJ INTEGER_OBJ _ _ Hl' Hr')).
  destruct (String.eqb lt INTEGER_OBJ && String.eqb rt INTEGER_OBJ); [reflexivity|].
  rewrite (bind_eq _ _ _ _ _ (both_types_typed vm2 _ _ INTEGER_OBJ FLOAT_OBJ _ _ Hl' Hr')).
  destruct (String.eqb lt INTEGER_OBJ && String.eqb rt FLOAT_OBJ); [reflexivity|].
  rewrite (bind_eq _ _ _ _ _ (both_types_typed vm2 _ _ FLOAT_OBJ FLOAT_OBJ _ _ Hl' Hr')).
  destruct (String.eqb lt FLOAT_OBJ && String.eqb rt FLOAT_OBJ); [reflexivity|].
  rewrite (bind_eq _ _ _ _ _ (both_types_typed vm2 _ _ FLOAT_OBJ INTEGER_OBJ _ _ Hl' Hr')).
  destruct (String.eqb lt FLOAT_OBJ && String.eqb rt INTEGER_OBJ); [reflexivity|].
  rewrite (bind_eq _ _ _ _ _ (both_types_typed vm2 _ _ STRING_OBJ STRING_OBJ _ _ Hl' Hr')).
  destruct (String.eqb lt STRING_OBJ && String.eqb rt STRING_OBJ); [reflexivity|].
  destruct op; try reflexivity;
    rewrite (bind_eq _ _ _ _ _ (Type_of_ok left vm2 lt Hl'));
    rewrite (bind_eq _ _ _ _ _ (Type_of_ok right vm2 rt Hr')); reflexivity.
Qed.

Lemma Z_holds_dec op x y :
  In op comparison_opcodes ->
  exists b, (b = true <-> Z_holds op x y)
    /\ executeIntegerComparison opcode_byte op (Integer x) (Integer y)
       = push (nativeBoolToBooleanObject b).
Proof.
  simpl. intros [<-|[<-|[<-|[<-|[<-|[<-|[]]]]]]]; simpl Z_holds;
    unfold executeIntegerComparison; cbn -[push].
  - exists (y =? x). split; [rewrite Z.eqb_eq; split; auto | reflexivity].
  - exists (negb (y =? x)). split; [|reflexivity].
    rewrite Bool.negb_true_iff, Z.eqb_neq. split; auto.
  - exists (x >? y). split; [rewrite Z.gtb_ltb, Z.ltb_lt; lia | reflexivity].
  - exists (x <? y). split; [apply Z.ltb_lt | reflexivity].
  - exists (x >=? y). split; [rewrite Z.geb_leb, Z.leb_le; lia | reflexivity].
  - exists (x <=? y). split; [apply Z.leb_le | reflexivity].
Qed.

(** X10: on two Integer operands each of the six comparison opcodes
    pushes the Boolean that tells whether the comparison holds of the two
    integers (left operand first). *)
Theorem integer_comparison vm ins ip op x y :
  In op comparison_opcodes ->
  sp vm <= StackSize ->
  index (stack vm) (sp vm - 2) = Some (Integer x) ->
  index (stack vm) (sp vm - 1) = Some (Integer y) ->
  exists vm' b,
    exec opcode_byte Builtins op ins ip vm = Ok tt vm'
    /\ sp vm' = sp vm - 1
    /\ top vm' = Some (Boolean b)
    /\ (b = true <-> Z_holds op x y).
Proof.
  intros Hop Hsp H2 H1. rewrite (exec_comparison _ _ _ _ _ Hop).
  rewrite (comparison_types vm op _ _ INTEGER_OBJ INTEGER_OBJ H2 H1 eq_refl eq_refl).
  change (String.eqb INTEGER_OBJ INTEGER_OBJ) with true. simpl andb. cbv iota.
  destruct (Z_holds_dec op x y Hop) as (b & Hb & ->).
  destruct (pushed_after_two_pops vm _ _ (nativeBoolToBooleanObject b) Hsp H2 H1)
    as (vm' & E & S & T).
  exists vm', b. split; [exact E|]. split; [exact S|]. split; [|exact Hb].
  rewrite T. destruct b; reflexivity.
Qed.

(** X11: when the operands are neither two numbers nor two strings,
    [==] and [!=] compare them by identity (two references are equal when
    they are the same address; operands of different types are never
    equal), and every ordering comparison fails with "unknown operator:
    <opcode> (L R)". *)
Theorem identity_comparison vm ins ip op left right lt rt :
  In op comparison_opcodes ->
  sp vm <= StackSize ->
  index (stack vm) (sp vm - 2) = Some left ->
  index (stack vm) (sp vm - 1) = Some right ->
  Type_ (heap vm) left = Some lt ->
  Type_ (heap vm) right = Some rt ->
  ~ dispatched lt rt ->
  (op = OpEqual ->
     exists vm', exec opcode_byte Builtins op ins ip vm = Ok tt vm'
       /\ sp vm' = sp vm - 1
       /\ top vm' = Some (Boolean (same_object right left)))
  /\ (op = OpNotEqual ->
     exists vm', exec opcode_byte Builtins op ins ip vm = Ok tt vm'
       /\ sp vm' = sp vm - 1
       /\ top vm' = Some (Boolean (negb (same_object right left))))
  /\ (op <> OpEqual -> op <> OpNotEqual ->
     exists vm', exec opcode_byte Builtins op ins ip vm
       = Err ("unknown operator: " +:+ fmt_d (opcode_byte op) +:+ " ("
              +:+ lt +:+ " " +:+ rt +:+ ")") vm')
  /\ (forall p q, left = Ref p -> right = Ref q ->
        (same_object right left = true <-> p = q))
  /\ (lt <> rt -> same_object right left = false).
Proof.
  intros Hop Hsp H2 H1 Hl Hr Hnd. rewrite (exec_comparison _ _ _ _ _ Hop).
  rewrite (comparison_types vm op _ _ lt rt H2 H1 Hl Hr).
  assert (P : forall b, exists vm',
    push (nativeBoolToBooleanObject b) (set_sp (set_sp vm (sp vm - 1)) (sp vm - 1 - 1)) = Ok tt vm'
    /\ sp vm' = sp vm - 1 /\ top vm' = Some (Boolean b)).
  { intros b. destruct (pushed_after_two_pops vm _ _ (nativeBoolToBooleanObject b) Hsp H2 H1)
      as (vm' & E & S & T). exists vm'. split; [exact E|]. split; [exact S|].
    rewrite T. destruct b; reflexivity. }
  assert (D : (String.eqb lt INTEGER_OBJ && String.eqb rt INTEGER_OBJ = false)
           /\ (String.eqb lt INTEGER_OBJ && String.eqb rt FLOAT_OBJ = false)
           /\ (String.eqb lt FLOAT_OBJ && String.eqb rt FLOAT_OBJ = false)
           /\ (String.eqb lt FLOAT_OBJ && String.eqb rt INTEGER_OBJ = false)
           /\ (String.eqb lt STRING_OBJ && String.eqb rt STRING_OBJ = false)).
  { unfold dispatched, is_number in Hnd.
    destruct (String.eqb_spec lt INTEGER_OBJ), (String.eqb_spec rt INTEGER_OBJ),
      (String.eqb_spec lt FLOAT_OBJ), (String.eqb_spec rt FLOAT_OBJ),
      (String.eqb_spec lt STRING_OBJ), (String.eqb_spec rt STRING_OBJ);
      simpl; try (exfalso; apply Hnd; tauto); auto. }
  destruct D as (D1 & D2 & D3 & D4 & D5). rewrite D1, D2, D3, D4, D5.
  split; [|split; [|split; [|split]]].
  - intros ->. apply P.
  - intros ->. apply P.
  - intros N1 N2. eexists.
    simpl in Hop. destruct Hop as [<-|[<-|[<-|[<-|[<-|[<-|[]]]]]]];
      try contradiction; reflexivity.
  - intros p q -> ->. simpl. rewrite Nat.eqb_eq. split; auto.
  - intros Hne. destruct left as [| | | | | | |p], right as [| | | | | | |q];
      simpl in *; try reflexivity;
      try discriminate;
      try (injection Hl as <-; injection Hr as <-; congruence).
    destruct (Nat.eqb_spec q p); [|reflexivity]. subst. congruence.
Qed.

Lemma SFcompare_swap x y : SFcompare y x = option_map CompOpp (SFcompare x y).
Proof.
  destruct x as [sx|sx| |sx mx ex], y as [sy|sy| |sy my ey]; simpl;
    try reflexivity;
    try (destruct sx; reflexivity); try (destruct sy; reflexivity);
    try (destruct sx, sy; reflexivity).
  change (PosDef.Pos.compare_cont Eq my mx) with (Pos.compare my mx).
  change (PosDef.Pos.compare_cont Eq mx my) with (Pos.compare mx my).
  rewrite (Z.compare_antisym ex ey), (Pos.compare_antisym mx my).
  destruct sx, sy; try reflexivity;
    destruct (ex ?= ey); simpl; try reflexivity;
    destruct (mx ?= my)%positive; reflexivity.
Qed.

Lemma float_holds_dec op a b :
  In op comparison_opcodes ->
  exists r, (r = true <-> float_holds op (SFcompare a b))
    /\ forall opcode_byte, float_compare opcode_byte op a b = push (nativeBoolToBooleanObject r).
Proof.
  intros Hop.
  exists (match op with
          | OpEqual => f64.eqb a b
          | OpNotEqual => negb (f64.eqb a b)
          | OpGreaterThan => f64.ltb b a
          | OpLessThan => f64.ltb a b
          | OpGreaterThanOrEqual => f64.leb b a
          | _ => f64.leb a b
          end).
  simpl in Hop. destruct Hop as [<-|[<-|[<-|[<-|[<-|[<-|[]]]]]]];
    (split; [|intros; reflexivity]);
    unfold float_holds, f64.eqb, f64.ltb, f64.leb, SFeqb, SFltb, SFleb;
    try rewrite (SFcompare_swap a b);
    destruct (SFcompare a b) as [[]|]; simpl;
    split; intros H; try discriminate; try reflexivity; try congruence; auto;
    try (destruct H; congruence).
Qed.

(** X12: when both operands are numbers and at least one is a Float, an
    integer operand is converted to float64 and each of the six comparison
    opcodes pushes the Boolean of the IEEE-754 comparison: with an operand
    that is not a number, only [!=] holds. *)
Theorem float_comparison_with_promotion vm ins ip op left right a b :
  In op comparison_opcodes ->
  sp vm <= StackSize ->
  index (stack vm) (sp vm - 2) = Some left ->
  index (stack vm) (sp vm - 1) = Some right ->
  float_value left = Some a ->
  float_value right = Some b ->
  (as_Integer left = None \/ as_Integer right = None) ->
  exists vm' r,
    exec opcode_byte Builtins op ins ip vm = Ok tt vm'
    /\ sp vm' = sp vm - 1
    /\ top vm' = Some (Boolean r)
    /\ (r = true <-> float_holds op (SFcompare a b)).
Proof.
  intros Hop Hsp H2 H1 Ha Hb Hnot.
  destruct (float_holds_dec op a b Hop) as (r & Hr & E).
  destruct (pushed_after_two_pops vm _ _ (nativeBoolToBooleanObject r) Hsp H2 H1)
    as (vm' & Ep & S & T).
  exists vm', r. rewrite (exec_comparison _ _ _ _ _ Hop).
  split; [|split; [exact S|split; [rewrite T; destruct r; reflexivity|exact Hr]]].
  rewrite <- Ep, <- (E opcode_byte).
  destruct left; simpl in Ha; try discriminate;
    destruct right; simpl in Hb; try discriminate;
    injection Ha as <-; injection Hb as <-;
    try (destruct Hnot; discriminate).
  - rewrite (comparison_types vm op _ _ INTEGER_OBJ FLOAT_OBJ H2 H1 eq_refl eq_refl).
    reflexivity.
  - rewrite (comparison_types vm op _ _ FLOAT_OBJ INTEGER_OBJ H2 H1 eq_refl eq_refl).
    reflexivity.
  - rewrite (comparison_types vm op _ _ FLOAT_OBJ FLOAT_OBJ H2 H1 eq_refl eq_refl).
    reflexivity.
Qed.

(** *** Prefix and logical operators *)

(** X13: [OpBang] replaces the top of the stack by the Boolean negation
    of its truthiness; applied twice it leaves the truthiness itself. *)
Theorem bang_is_negated_truthiness vm ins ip v :
  sp vm <= StackSize ->
  top vm = Some v ->
  exists vm',
    exec opcode_byte Builtins OpBang ins ip vm = Ok tt vm'
    /\ sp vm' = sp vm
    /\ top vm' = Some (Boolean (negb (isTruthy v)))
    /\ exists vm'',
         exec opcode_byte Builtins OpBang ins ip vm' = Ok tt vm''
         /\ sp vm'' = sp vm
         /\ top vm'' = Some (Boolean (isTruthy v)).
Proof.
  intros Hsp Hv.
  assert (B : forall s x, sp s <= StackSize -> top s = Some x ->
            exists s', exec opcode_byte Builtins OpBang ins ip s = Ok tt s'
              /\ sp s' = sp s /\ top s' = Some (Boolean (negb (isTruthy x)))).
  { intros s x Hs Hx. unfold exec, executeBangOperator.
    rewrite (bind_eq _ _ _ _ _ (pop_ok s (sp s - 1) x eq_refl Hx)).
    destruct (push_after_one_pop s x (Boolean (negb (isTruthy x))) Hs Hx)
      as (s' & E & S & T & _).
    exists s'. split; [|auto].
    destruct x as [| | |[]| | | |]; exact E. }
  destruct (B vm v Hsp Hv) as (vm' & E & S & T).
  exists vm'. split; [exact E|]. split; [exact S|]. split; [exact T|].
  destruct (B vm' _ ltac:(lia) T) as (vm'' & E' & S' & T').
  exists vm''. split; [exact E'|]. split; [lia|].
  rewrite T'. simpl. rewrite Bool.negb_involutive. reflexivity.
Qed.

(** X14: [OpMinus] on an Integer pushes its negation in 64 bits (the most
    negative integer is its own negation); on an operand of any other
    type, a Float included, it fails with "unsupported type for negation:
    T". *)
Theorem minus_on_integers_only vm ins ip v t :
  sp vm <= StackSize ->
  top vm = Some v ->
  Type_ (heap vm) v = Some t ->
  (forall x, v = Integer x ->
     exists vm',
       exec opcode_byte Builtins OpMinus ins ip vm = Ok tt vm'
       /\ sp vm' = sp vm
       /\ top vm' = Some (Integer (wrap64 (- x)))
       /\ (- 2 ^ 63 < x < 2 ^ 63 -> wrap64 (- x) = - x)
       /\ (x = - 2 ^ 63 -> wrap64 (- x) = x))
  /\ (t <> INTEGER_OBJ ->
      exists vm',
        exec opcode_byte Builtins OpMinus ins ip vm
        = Err ("unsupported type for negation: " +:+ t) vm').
Proof.
  intros Hsp Hv Ht. unfold exec, executeMinusOperator.
  rewrite (bind_eq _ _ _ _ _ (pop_ok vm (sp vm - 1) v eq_refl Hv)).
  rewrite (bind_eq _ _ _ _ _ (Type_of_ok v (set_sp vm (sp vm - 1)) t Ht)).
  split.
  - intros x ->. simpl in Ht. injection Ht as <-.
    change (String.eqb INTEGER_OBJ INTEGER_OBJ) with true. simpl negb. cbv iota.
    cbn -[push wrap64].
    destruct (push_after_one_pop vm _ (Integer (wrap64 (- x))) Hsp Hv)
      as (vm' & E & S & T & _).
    exists vm'. split; [exact E|]. split; [exact S|]. split; [exact T|].
    split; [intros H; apply wrap64_id; lia | intros ->; vm_compute; reflexivity].
  - intros Hne. apply String.eqb_neq in Hne. rewrite Hne. simpl negb. cbv iota.
    eexists. reflexivity.
Qed.

(** X15: [OpAnd] and [OpOr] pop both operands and push the Boolean
    conjunction, respectively disjunction, of their truthiness. *)
Theorem and_or_are_strict vm ins ip left right :
  sp vm <= StackSize ->
  index (stack vm) (sp vm - 2) = Some left ->
  index (stack vm) (sp vm - 1) = Some right ->
  (exists vm',
     exec opcode_byte Builtins OpAnd ins ip vm = Ok tt vm'
     /\ sp vm' = sp vm - 1
     /\ top vm' = Some (Boolean (isTruthy left && isTruthy right)))
  /\ (exists vm',
     exec opcode_byte Builtins OpOr ins ip vm = Ok tt vm'
     /\ sp vm' = sp vm - 1
     /\ top vm' = Some (Boolean (isTruthy left || isTruthy right))).
Proof.
  intros Hsp H2 H1.
  assert (P : forall b, exists vm',
    discard_error (push (nativeBoolToBooleanObject b))
      (set_sp (set_sp vm (sp vm - 1)) (sp vm - 1 - 1)) = Ok tt vm'
    /\ sp vm' = sp vm - 1 /\ top vm' = Some (Boolean b)).
  { intros b. destruct (pushed_after_two_pops vm _ _ (nativeBoolToBooleanObject b) Hsp H2 H1)
      as (vm' & E & S & T). exists vm'. unfold discard_error. rewrite E.
    split; [reflexivity|]. split; [exact S|]. rewrite T. destruct b; reflexivity. }
  split; unfold exec; rewrite (two_pops _ _ _ _ H2 H1); apply P.
Qed.

(** *** Arrays, closures and calls *)

Lemma read_slots_ok (stack : list Object) : forall (n : nat) i,
  0 <= i -> i + Z.of_nat n <= Z.of_nat (length stack) ->
  exists els, read_slots stack i n = Some els
    /\ length els = n
    /\ forall j, 0 <= j < Z.of_nat n -> index els j = index stack (i + j).
Proof.
  induction n as [|n IH]; intros i Hi Hlen.
  - exists []. split; [reflexivity|]. split; [reflexivity|]. intros j Hj. lia.
  - destruct (index_in_range stack i ltac:(lia)) as [o Ho].
    destruct (IH (i + 1) ltac:(lia) ltac:(lia)) as (rest & E & L & Hrest).
    exists (o :: rest). cbn [read_slots]. rewrite Ho, E.
    split; [reflexivity|]. split; [simpl; lia|].
    intros j Hj. destruct (Z.eq_dec j 0) as [->|Hne].
    + rewrite Z.add_0_r. rewrite Ho. reflexivity.
    + replace (i + j) with (i + 1 + (j - 1)) by lia.
      rewrite <- Hrest by lia. unfold index.
      destruct (Z.ltb_spec j 0); [lia|]. destruct (Z.ltb_spec (j - 1) 0); [lia|].
      replace (Z.to_nat j) with (S (Z.to_nat (j - 1))) by lia. reflexivity.
Qed.

(** X16: [OpArray n] replaces the [n] topmost slots of the stack by a
    reference to a fresh array that holds them in stack order. *)
Theorem array_literal vm f ins ip n :
  current vm = Some (Some f) ->
  ReadUint16 ins (ip + 1) = Some n ->
  Z.of_nat (length (stack vm)) = StackSize ->
  0 <= n <= sp vm -> sp vm <= StackSize -> sp vm - n < StackSize ->
  exists vm' els,
    exec opcode_byte Builtins OpArray ins ip vm = Ok tt vm'
    /\ sp vm' = sp vm - n + 1
    /\ top vm' = Some (Ref (length (heap vm)))
    /\ heap vm' = heap vm ++ [Array els]
    /\ Z.of_nat (length els) = n
    /\ (forall j, 0 <= j < n -> index els j = index (stack vm) (sp vm - n + j))
    /\ (forall j, j <> sp vm - n -> index (stack vm') j = index (stack vm) j).
Proof.
  intros Hf Hr Hcap Hn Hsp Hroom.
  destruct (read_slots_ok (stack vm) (Z.to_nat n) (sp vm - n) ltac:(lia) ltac:(lia))
    as (els & E & L & Hels).
  unfold exec. rewrite (bind_must _ _ _ _ Hr). cbv beta.
  rewrite (bind_eq _ _ _ _ _ (add_current_ip_ok _ _ 2 Hf)).
  set (s0 := jumped vm f (vm.ip f + 2)).
  assert (EB : buildArray (sp s0 - n) (sp s0) s0
               = Ok (Ref (length (heap vm))) (set_heap s0 (heap vm ++ [Array els]))).
  { unfold buildArray. unfold bind at 1, get. cbv beta.
    change (stack s0) with (stack vm). change (sp s0) with (sp vm).
    replace (sp vm - (sp vm - n)) with n by lia.
    rewrite (bind_must _ _ _ _ E). reflexivity. }
  unfold bind at 1, get. cbv beta.
  rewrite (bind_eq _ _ _ _ _ EB).
  unfold bind at 1, modify at 1. cbv beta.
  rewrite push_ok by (simpl; unfold StackSize in *; lia).
  eexists _, els. split; [reflexivity|]. simpl.
  split; [lia|]. split; [|split; [reflexivity|split; [lia|split]]].
  - unfold top. simpl. replace (sp vm - n + 1 - 1) with (sp vm - n) by lia.
    apply index_insert_eq. lia.
  - intros j Hj. apply Hels. lia.
  - intros j Hj. apply index_insert_ne; lia.
Qed.

(** X17: [pushClosure] on a constant that is a compiled function
    replaces the [numFree] topmost slots of the stack by a reference to a
    fresh closure of that function which holds them, in stack order, as its
    free variables; on any other constant it fails with "not a function:
    <Go type>" and leaves the machine as it was. *)
Theorem closure_creation vm cidx nfree constant :
  index (constants vm) cidx = Some constant ->
  (forall fn,
     as_CompiledFunction (heap vm) constant = Some fn ->
     Z.of_nat (length (stack vm)) = StackSize ->
     0 <= nfree <= sp vm -> sp vm <= StackSize -> sp vm - nfree < StackSize ->
     exists vm' free,
       pushClosure cidx nfree vm = Ok tt vm'
       /\ sp vm' = sp vm - nfree + 1
       /\ top vm' = Some (Ref (length (heap vm)))
       /\ heap vm' = heap vm ++ [Closure fn free]
       /\ Z.of_nat (length free) = nfree
       /\ (forall j, 0 <= j < nfree ->
             index free j = index (stack vm) (sp vm - nfree + j))
       /\ constants vm' = constants vm)
  /\ (forall T,
        as_CompiledFunction (heap vm) constant = None ->
        fmt_T (heap vm) constant = Some T ->
        pushClosure cidx nfree vm = Err ("not a function: " +:+ T) vm).
Proof.
  intros Hc. split.
  - intros fn Hfn Hcap Hn Hsp Hroom.
    destruct (read_slots_ok (stack vm) (Z.to_nat nfree) (sp vm - nfree) ltac:(lia) ltac:(lia))
      as (free & E & L & Hfree).
    unfold pushClosure. unfold bind at 1, get. cbv beta.
    rewrite (bind_must _ _ _ _ Hc). cbv beta. rewrite Hfn.
    rewrite (bind_must _ _ _ _ E). cbv beta.
    unfold bind at 1, modify at 1. cbv beta.
    unfold bind at 1. unfold new at 1. unfold bind at 1, get at 1. cbv beta.
    unfold bind at 1, modify at 1. cbv beta. unfold ret at 1.
    rewrite push_ok by (simpl; unfold StackSize in *; lia).
    eexists _, free. split; [reflexivity|]. simpl.
    split; [lia|]. split; [|split; [reflexivity|split; [lia|split; [|reflexivity]]]].
    + unfold top. simpl. replace (sp vm - nfree + 1 - 1) with (sp vm - nfree) by lia.
      apply index_insert_eq. lia.
    + intros j Hj. apply Hfree. lia.
  - intros T Hfn HT. unfold pushClosure. unfold bind at 1, get. cbv beta.
    rewrite (bind_must _ _ _ _ Hc). cbv beta. rewrite Hfn.
    rewrite (bind_must _ _ _ _ HT). reflexivity.
Qed.

(** X18: after the call of a closure with the right number of
    arguments, the new current frame starts at instruction pointer -1 and
    refers to that closure: [OpGetFree j] pushes the [j]-th free variable
    of the closure and [OpCurrentClosure] pushes the closure itself. *)
Theorem free_variables_of_the_called_closure vm nargs p fn free :
  index (stack vm) (sp vm - 1 - nargs) = Some (Ref p) ->
  heap vm !! p = Some (Closure fn free) ->
  nargs = NumParameters fn ->
  0 <= framesIndex vm < Z.of_nat (length (frames vm)) ->
  exists vm1 f,
    executeCall nargs vm = Ok tt vm1
    /\ current vm1 = Some (Some f)
    /\ cl f = p /\ ip f = -1
    /\ stack vm1 = stack vm
    /\ sp vm1 = sp vm - nargs + NumLocals fn
    /\ (0 <= sp vm1 < StackSize -> sp vm1 < Z.of_nat (length (stack vm1)) ->
        (forall ins ip j v,
           ReadUint8 ins (ip + 1) = Some j -> index free j = Some v ->
           exists vm2,
             exec opcode_byte Builtins OpGetFree ins ip vm1 = Ok tt vm2
             /\ sp vm2 = sp vm1 + 1 /\ top vm2 = Some v)
        /\ (forall ins ip,
           exists vm2,
             exec opcode_byte Builtins OpCurrentClosure ins ip vm1 = Ok tt vm2
             /\ sp vm2 = sp vm1 + 1 /\ top vm2 = Some (Ref p))).
Proof.
  intros Hc Hp Hn Hfr.
  set (fr := NewFrame p fn free (sp vm - nargs)).
  set (vm1 := set_sp (set_framesIndex
                        (set_frames vm (<[Z.to_nat (framesIndex vm) := Some fr]> (frames vm)))
                        (framesIndex vm + 1))
                     (basePointer fr + NumLocals fn)).
  assert (E : executeCall nargs vm = Ok tt vm1).
  { rewrite (executeCall_closure vm nargs p fn free Hc Hp). unfold callClosure.
    replace (nargs =? NumParameters fn) with true by lia. cbn [negb]. cbv iota.
    unfold bind at 1, get. cbv beta zeta.
    rewrite (bind_eq _ _ _ _ _ (pushFrame_ok vm _ Hfr)). reflexivity. }
  assert (Hcur : current vm1 = Some (Some fr)).
  { unfold current, vm1. simpl.
    replace (framesIndex vm + 1 - 1) with (framesIndex vm) by lia.
    apply index_insert_eq. lia. }
  exists vm1, fr. split; [exact E|]. split; [exact Hcur|].
  split; [reflexivity|]. split; [reflexivity|]. split; [reflexivity|].
  split; [reflexivity|].
  intros Hsp Hlen.
  assert (P : forall s o, sp s = sp vm1 -> stack s = stack vm1 ->
            exists s', push o s = Ok tt s' /\ sp s' = sp vm1 + 1 /\ top s' = Some o).
  { intros s o Hs Hst. eexists.
    split; [apply push_ok; [rewrite Hs; exact Hsp | rewrite Hs, Hst; exact Hlen]|].
    cbn [sp set_sp stack set_stack]. split; [rewrite Hs; reflexivity|].
    unfold top. cbn [sp set_sp stack set_stack].
    replace (sp s + 1 - 1) with (sp s) by lia. apply index_insert_eq.
    rewrite Hs, Hst. split; [apply Hsp | exact Hlen]. }
  split.
  - intros ins ip j v Hr Hv. unfold exec.
    rewrite (bind_must _ _ _ _ Hr). cbv beta.
    rewrite (bind_eq _ _ _ _ _ (add_current_ip_ok _ _ 1 Hcur)).
    rewrite (bind_eq _ _ _ _ _ (currentFrame_ok _ _ (current_jumped _ _ _ Hcur))).
    change (Free (set_ip fr (vm.ip fr + 1))) with free.
    rewrite (bind_must _ _ _ _ Hv). cbv beta.
    apply P; reflexivity.
  - intros ins ip. unfold exec.
    rewrite (bind_eq _ _ _ _ _ (currentFrame_ok _ _ Hcur)).
    apply P; reflexivity.
Qed.

(** X19: a call whose callee is a built-in applies it to the [nargs]
    topmost slots and replaces callee and arguments by its result ([Null]
    when it returns nothing); no frame is pushed, and a panic of the
    built-in is a panic of the machine. *)
Theorem builtin_call_replaces_callee_and_arguments vm b nargs args :
  0 <= nargs ->
  sp vm <= StackSize ->
  index (stack vm) (sp vm - 1 - nargs) = Some (Builtin b) ->
  slice (stack vm) (sp vm - nargs) (sp vm) = Some args ->
  (forall r h', builtins.Fn b args (heap vm) = builtins.Return r h' ->
     exists vm',
       executeCall nargs vm = Ok tt vm'
       /\ sp vm' = sp vm - nargs
       /\ top vm' = Some (result_pushed r)
       /\ heap vm' = h'
       /\ frames vm' = frames vm /\ framesIndex vm' = framesIndex vm)
  /\ (builtins.Fn b args (heap vm) = builtins.Panics -> executeCall nargs vm = Panic).
Proof.
  intros Hn Hsp Hc Hargs.
  pose proof (index_Some_range _ _ _ Hc) as Rc.
  assert (E : executeCall nargs vm
              = match builtins.Fn b args (heap vm) with
                | builtins.Panics => Panic
                | builtins.Return result h =>
                    discard_error (push (result_pushed result))
                      (set_sp (set_heap vm h) (sp vm - nargs - 1))
                end).
  { unfold executeCall. unfold bind at 1, get.
    rewrite (bind_must _ _ _ _ Hc). unfold callBuiltin. unfold bind at 1, get.
    rewrite (bind_must _ _ _ _ Hargs).
    destruct (builtins.Fn b args (heap vm)) as [r h'|]; [|reflexivity].
    unfold bind at 1, modify at 1. destruct r; reflexivity. }
  rewrite E. split.
  - intros r h' ->. unfold discard_error.
    rewrite push_ok by (simpl; unfold StackSize in *; lia).
    eexists. split; [reflexivity|]. simpl. split; [lia|].
    split; [|auto]. unfold top. simpl.
    replace (sp vm - nargs - 1 + 1 - 1) with (sp vm - nargs - 1) by lia.
    apply index_insert_eq. lia.
  - intros ->. reflexivity.
Qed.

(** X20: a call whose callee is neither a closure nor a built-in fails
    with "calling non-function and non-built-in object: T" and leaves the
    machine as it was. *)
Theorem calling_a_non_function vm nargs callee t :
  index (stack vm) (sp vm - 1 - nargs) = Some callee ->
  Type_ (heap vm) callee = Some t ->
  t <> BUILTIN_OBJ -> t <> CLOSURE_OBJ ->
  executeCall nargs vm
  = Err ("calling non-function and non-built-in object: " +:+ t) vm.
Proof.
  intros Hc Ht H1 H2. unfold executeCall. unfold bind at 1, get.
  rewrite (bind_must _ _ _ _ Hc).
  assert (L : (let* t0 := Type_of callee in
               @Errorf unit ("calling non-function and non-built-in object: " +:+ t0)) vm
              = Err ("calling non-function and non-built-in object: " +:+ t) vm).
  { rewrite (bind_eq _ _ _ _ _ (Type_of_ok callee vm t Ht)). reflexivity. }
  destruct callee as [| | | | | | |p]; try exact L.
  - simpl in Ht. congruence.
  - simpl in Ht. destruct (heap vm !! p) as [[]|]; try exact L.
    congruence.
Qed.

(** X21: [OpReturn] and [OpReturnValue] executed in a frame whose base
    pointer is 0, as the frame of the main program is, panic: [sp] becomes
    -1 and the push writes outside the stack. *)
Theorem return_from_the_main_frame_panics vm f ins ip :
  current vm = Some (Some f) ->
  basePointer f <= 0 ->
  exec opcode_byte Builtins OpReturn ins ip vm = Panic
  /\ exec opcode_byte Builtins OpReturnValue ins ip vm = Panic.
Proof.
  intros Hf Hb.
  assert (P : forall o s, sp s < 0 -> push o s = Panic).
  { intros o s Hs. unfold push, stack_set, bind, get, store.
    unfold StackSize. replace (2048 <=? sp s) with false by lia.
    replace (0 <=? sp s) with false by lia. reflexivity. }
  assert (F : forall s, frames s = frames vm -> framesIndex s = framesIndex vm ->
            popFrame s = Ok (Some f) (set_framesIndex s (framesIndex s - 1))).
  { intros s H1 H2. unfold popFrame, bind, modify, get. simpl.
    rewrite H1, H2. unfold current in Hf. rewrite Hf. reflexivity. }
  split.
  - unfold exec. rewrite (bind_eq _ _ _ _ _ (F vm eq_refl eq_refl)).
    rewrite (bind_must _ _ _ _ eq_refl). cbv beta.
    unfold bind at 1, modify at 1. apply P. simpl. lia.
  - unfold exec.
    destruct (index (stack vm) (sp vm - 1)) as [rv|] eqn:Etop.
    + rewrite (bind_eq _ _ _ _ _ (pop_ok vm _ rv eq_refl Etop)).
      rewrite (bind_eq _ _ _ _ _ (F (set_sp vm (sp vm - 1)) eq_refl eq_refl)).
      rewrite (bind_must _ _ _ _ eq_refl). cbv beta.
      unfold bind at 1, modify at 1. apply P. simpl. lia.
    + unfold bind at 1, pop, bind, get. rewrite Etop. reflexivity.
Qed.

(** *** The shape of the machine across the dispatch loop *)

Lemma heap_extends_refl h : heap_extends h h.
Proof. intros p o H. destruct o; eauto. Qed.

Lemma heap_extends_trans a b c :
  heap_extends a b -> heap_extends b c -> heap_extends a c.
Proof.
  intros H1 H2 p o Hp. specialize (H1 p o Hp).
  destruct o; try (apply (H2 _ _ H1)).
  destruct H1 as [els H1]. apply (H2 _ _ H1).
Qed.

Lemma heap_extends_app h l : heap_extends h (h ++ l).
Proof.
  intros p o Hp. pose proof (lookup_lt_Some _ _ _ Hp) as L.
  assert (E : (h ++ l) !! p = Some o) by (rewrite lookup_app_l by exact L; exact Hp).
  destruct o; eauto.
Qed.

Lemma heap_extends_insert h p els els' :
  h !! p = Some (Array els) -> heap_extends h (<[p := Array els']> h).
Proof.
  intros Hp q o Hq. destruct (Nat.eq_dec q p) as [->|Hne].
  - rewrite Hp in Hq. injection Hq as <-. exists els'.
    apply list_lookup_insert_eq. eapply lookup_lt_Some. exact Hp.
  - assert (E : <[p := Array els']> h !! q = Some o)
      by (rewrite list_lookup_insert_ne by congruence; exact Hq).
    destruct o; eauto.
Qed.

Lemma as_Array_Some h o p els :
  as_Array h o = Some (p, els) -> h !! p = Some (Array els).
Proof.
  destruct o; simpl; try discriminate.
  destruct (h !! p0) as [[]|] eqn:E; try discriminate.
  intros [= <- <-]. exact E.
Qed.

Lemma Fn_heap_extends b args h r h' :
  builtins.Fn b args h = builtins.Return r h' -> heap_extends h h'.
Proof.
  destruct b; simpl;
    unfold builtins.RemoveFromArrayBuiltin, builtins.AddToArrayStartBuiltin,
      builtins.AddToArrayEndBuiltin, builtins.MaxBuiltin, builtins.MinBuiltin,
      builtins.ArrayFirstBuiltin, builtins.ArrayLastBuiltin,
      builtins.AllButFirstBuiltin, builtins.IndexOfBuiltin,
      builtins.OrganizeBuiltins, builtins.SumBuiltin,
      builtins.with_Type, builtins.NewError, builtins.NewInteger,
      builtins.NewFloat, builtins.alloc;
    intros E; repeat case_match; simplify_eq;
    first [ apply heap_extends_refl | apply heap_extends_app
          | eapply heap_extends_insert, as_Array_Some; eassumption ].
Qed.

Lemma machine_stable_refl s : machine_stable s s.
Proof. repeat split. apply heap_extends_refl. Qed.

Lemma machine_stable_trans a b c :
  machine_stable a b -> machine_stable b c -> machine_stable a c.
Proof.
  intros (C1 & S1 & G1 & F1 & H1) (C2 & S2 & G2 & F2 & H2).
  repeat split; try congruence. eapply heap_extends_trans; eassumption.
Qed.

Lemma closures_cached_later s s' :
  frames s' = frames s -> heap_extends (heap s) (heap s') ->
  closures_cached s -> closures_cached s'.
Proof.
  intros F H C i f Hf. rewrite F in Hf. apply (H _ _ (C i f Hf)).
Qed.

Lemma sound_update (g : VM -> VM) :
  (forall s, constants (g s) = constants s
             /\ length (stack (g s)) = length (stack s)
             /\ length (globals (g s)) = length (globals s)
             /\ frames (g s) = frames s
             /\ heap_extends (heap s) (heap (g s))) ->
  sound (modify g).
Proof.
  intros H s C. destruct (H s) as (Hc & Hs & Hg & Hf & Hh). simpl. split.
  - repeat split; try assumption. rewrite Hf. reflexivity.
  - eapply closures_cached_later; eassumption.
Qed.

Lemma sound_ret {A} (a : A) : sound (ret a).
Proof. intros s C. split; [apply machine_stable_refl | exact C]. Qed.

Lemma sound_bind {A B} (m : M A) (k : A -> M B) :
  sound m -> (forall a, sound (k a)) -> sound (bind m k).
Proof.
  intros Hm Hk s C. unfold bind. specialize (Hm s C).
  destruct (m s) as [a s1|e s1|]; [|exact Hm|exact I].
  destruct Hm as [M1 C1]. specialize (Hk a s1 C1).
  destruct (k a s1) as [b s2|e s2|]; [| |exact I];
    (destruct Hk as [M2 C2]; split; [eapply machine_stable_trans; eassumption | exact C2]).
Qed.

Lemma sound_get : sound get.
Proof. intros s C. split; [apply machine_stable_refl | exact C]. Qed.

Lemma sound_panic {A} : sound (@panic A).
Proof. intros s C. exact I. Qed.

Lemma sound_Errorf {A} msg : sound (@Errorf A msg).
Proof. intros s C. split; [apply machine_stable_refl | exact C]. Qed.

Lemma sound_must {A} (o : option A) : sound (must o).
Proof. destruct o; [apply sound_ret | apply sound_panic]. Qed.

Lemma sound_discard_error (m : M unit) : sound m -> sound (discard_error m).
Proof.
  intros H s C. unfold discard_error. specialize (H s C). destruct (m s); assumption.
Qed.

Lemma sound_set_sp (n : VM -> Z) : sound (modify (fun s => set_sp s (n s))).
Proof.
  apply sound_update. intros s. simpl. repeat split. apply heap_extends_refl.
Qed.

Lemma sound_Type_of o : sound (Type_of o).
Proof.
  unfold Type_of. apply sound_bind; [apply sound_get|]. intros s. apply sound_must.
Qed.

Lemma sound_new o : sound (new o).
Proof.
  unfold new. apply sound_bind; [apply sound_get|]. intros s0.
  apply sound_bind; [|intros; apply sound_ret].
  apply sound_update. intros s. simpl. repeat split. apply heap_extends_app.
Qed.

Lemma sound_stack_set i o : sound (stack_set i o).
Proof.
  intros s C. unfold stack_set, bind, get.
  destruct (store (stack s) i o) as [l|] eqn:E; simpl; [|exact I].
  apply store_Some in E. destruct E as [_ ->]. split.
  - repeat split; simpl; [apply length_insert | apply heap_extends_refl].
  - exact C.
Qed.

Lemma sound_push o : sound (push o).
Proof.
  unfold push. apply sound_bind; [apply sound_get|]. intros s0.
  destruct (StackSize <=? sp s0); [apply sound_Errorf|].
  apply sound_bind; [apply sound_stack_set|]. intros _.
  apply (sound_set_sp (fun s => sp s + 1)).
Qed.

Lemma sound_pop : sound pop.
Proof.
  unfold pop. apply sound_bind; [apply sound_get|]. intros s0.
  apply sound_bind; [apply sound_must|]. intros o.
  apply sound_bind; [|intros; apply sound_ret].
  apply (sound_set_sp (fun s => sp s - 1)).
Qed.

Lemma sound_currentFrame : sound currentFrame.
Proof.
  unfold currentFrame. apply sound_bind; [apply sound_get|]. intros s0.
  apply sound_bind; [apply sound_must|]. intros o. apply sound_must.
Qed.

Lemma currentFrame_inv s f s' :
  currentFrame s = Ok f s' -> s' = s /\ current s = Some (Some f).
Proof.
  unfold currentFrame, bind, get, current.
  destruct (index (frames s) (framesIndex s - 1)) as [[f'|]|];
    simpl; try discriminate. intros [= -> ->]. auto.
Qed.

Lemma sound_set_current_ip i : sound (set_current_ip i).
Proof.
  intros s C. unfold set_current_ip. unfold bind at 1.
  destruct (currentFrame s) as [f s1|e s1|] eqn:Ec;
    [|unfold currentFrame, bind, get in Ec;
      destruct (index (frames s) (framesIndex s - 1)) as [[f'|]|];
      simpl in Ec; discriminate | exact I].
  apply currentFrame_inv in Ec. destruct Ec as [-> Hf].
  unfold bind, get.
  destruct (store (frames s) (framesIndex s - 1) (Some (set_ip f i)))
    as [l|] eqn:E; simpl; [|exact I].
  apply store_Some in E. destruct E as [R ->]. split.
  - repeat split; simpl; [apply length_insert | apply heap_extends_refl].
  - intros j g Hg. simpl in Hg |- *.
    destruct (Z.eq_dec j (framesIndex s - 1)) as [->|Hne].
    + rewrite index_insert_eq in Hg by lia. injection Hg as <-.
      apply (C _ _ Hf).
    + rewrite index_insert_ne in Hg by lia. apply (C _ _ Hg).
Qed.

Lemma sound_add_current_ip n : sound (add_current_ip n).
Proof.
  unfold add_current_ip. apply sound_bind; [apply sound_currentFrame|].
  intros f. apply sound_set_current_ip.
Qed.

Lemma sound_popFrame : sound popFrame.
Proof.
  unfold popFrame. apply sound_bind.
  - apply sound_update. intros s. simpl. repeat split. apply heap_extends_refl.
  - intros _. apply sound_bind; [apply sound_get|]. intros s. apply sound_must.
Qed.

Ltac sound_tac :=
  first
    [ apply sound_ret | apply sound_get | apply sound_panic
    | apply sound_Errorf | apply sound_must | apply sound_push
    | apply sound_pop | apply sound_Type_of | apply sound_new
    | apply sound_stack_set | apply sound_currentFrame
    | apply sound_set_current_ip | apply sound_add_current_ip
    | apply sound_popFrame
    | apply sound_discard_error
    | apply sound_update; intros ?; simpl; repeat split; apply heap_extends_refl
    | apply sound_bind; [|intros ?]
    | match goal with
      | |- sound (match ?x with _ => _ end) => destruct x
      end ].

Ltac sound_all := repeat sound_tac.

Lemma sound_both_types l r lt rt : sound (both_types l r lt rt).
Proof. unfold both_types. sound_all. Qed.

Lemma sound_buildDict_loop n i m : sound (buildDict_loop n i m).
Proof.
  revert i m. induction n as [|n IH]; intros i m; simpl; [apply sound_ret|].
  repeat first [apply IH | sound_tac].
Qed.

Lemma sound_from {A} (m : M A) s s1 :
  machine_stable s s1 -> closures_cached s1 -> sound m ->
  match m s1 with
  | Ok _ s' | Err _ s' => machine_stable s s' /\ closures_cached s'
  | Panic => True
  end.
Proof.
  intros M1 C1 Hm. specialize (Hm s1 C1).
  destruct (m s1) as [a s2|e s2|]; [| |exact I];
    (destruct Hm as [M2 C2]; split; [eapply machine_stable_trans; eassumption | exact C2]).
Qed.

Lemma sound_callBuiltin b n : sound (callBuiltin b n).
Proof.
  intros s C. unfold callBuiltin. unfold bind at 1, get.
  destruct (slice (stack s) (sp s - n) (sp s)) as [args|]; [|exact I].
  unfold bind at 1, must, ret.
  destruct (builtins.Fn b args (heap s)) as [r h'|] eqn:E; [|exact I].
  apply Fn_heap_extends in E.
  unfold bind at 1, modify at 1.
  assert (M1 : machine_stable s (set_sp (set_heap s h') (sp s - n - 1)))
    by (repeat split; exact E).
  assert (C1 : closures_cached (set_sp (set_heap s h') (sp s - n - 1)))
    by (apply (closures_cached_later s (set_sp (set_heap s h') (sp s - n - 1))
                 eq_refl E C)).
  destruct r; apply (sound_from _ _ _ M1 C1); apply sound_discard_error, sound_push.
Qed.

Lemma sound_callClosure p fn free n s :
  heap s !! p = Some (Closure fn free) ->
  closures_cached s ->
  match callClosure p fn free n s with
  | Ok _ s' | Err _ s' => machine_stable s s' /\ closures_cached s'
  | Panic => True
  end.
Proof.
  intros Hp C. unfold callClosure.
  destruct (negb (n =? NumParameters fn)); [apply sound_Errorf; exact C|].
  unfold bind at 1, get. cbv beta zeta. unfold pushFrame, bind, get.
  destruct (store (frames s) (framesIndex s) _) as [l|] eqn:E; simpl; [|exact I].
  apply store_Some in E. destruct E as [R ->]. split.
  - repeat split; simpl; [apply length_insert | apply heap_extends_refl].
  - intros j g Hg. simpl in Hg |- *.
    destruct (Z.eq_dec j (framesIndex s)) as [->|Hne].
    + rewrite index_insert_eq in Hg by lia. injection Hg as <-. exact Hp.
    + rewrite index_insert_ne in Hg by lia. apply (C _ _ Hg).
Qed.

Lemma sound_executeCall n : sound (executeCall n).
Proof.
  intros s C. unfold executeCall. unfold bind at 1, get.
  destruct (index (stack s) (sp s - 1 - n)) as [callee|]; [|exact I].
  unfold bind at 1, must, ret.
  assert (D : sound (let* t := Type_of callee in
                     @Errorf unit ("calling non-function and non-built-in object: " +:+ t)))
    by sound_all.
  destruct callee as [| | | | | |b|p]; try exact (D s C).
  - apply sound_callBuiltin, C.
  - destruct (heap s !! p) as [[]|] eqn:Hp; try exact (D s C).
    apply sound_callClosure; assumption.
Qed.

Lemma sound_executeBinaryOperation op :
  sound (executeBinaryOperation opcode_byte op).
Proof.
  unfold executeBinaryOperation, executeBinaryIntegerOperation,
    executeFloatOperation, executeIntLeftFloatRight, executeIntRightFloatLeft,
    executeBinaryStringOperation, float_arith.
  sound_all.
Qed.

Lemma sound_executeComparison op :
  sound (executeComparison opcode_byte op).
Proof.
  unfold executeComparison, executeIntegerComparison,
    executeIntLeftFloatRightComparison, executeFloatComparison,
    executeIntRightFloatLeftComparison, executeStringComparison, float_compare.
  repeat first [apply sound_both_types | sound_tac].
Qed.

Lemma sound_set_global idx : 
  sound (let* o := pop in
         let* vm := get in
         let* g := must (store (globals vm) idx o) in
         modify (fun vm => set_globals vm g)).
Proof.
  apply sound_bind; [apply sound_pop|]. intros o s C.
  unfold bind at 1, get.
  destruct (store (globals s) idx o) as [l|] eqn:E; simpl; [|exact I].
  apply store_Some in E. destruct E as [_ ->]. split; [|exact C].
  repeat split; simpl; [apply length_insert | apply heap_extends_refl].
Qed.

Lemma sound_exec op ins ip : sound (exec opcode_byte Builtins op ins ip).
Proof.
  destruct op; unfold exec;
    try (apply sound_bind; [apply sound_must|]; intros ?;
         apply sound_bind; [apply sound_add_current_ip|]; intros _;
         apply sound_set_global);
    unfold executeBangOperator, executeMinusOperator, buildArray, buildDict,
      executeIndexExpression, executeArrayIndex, executeDictIndex,
      pushClosure, executeGetAttr;
    repeat first
      [ apply sound_executeBinaryOperation
      | apply sound_executeComparison
      | apply sound_both_types | apply sound_buildDict_loop
      | apply sound_executeCall
      | sound_tac ].
Qed.

Lemma sound_step : sound (step opcode_byte Builtins).
Proof.
  unfold step.
  apply sound_bind; [apply sound_add_current_ip|]. intros _.
  apply sound_bind; [apply sound_currentFrame|]. intros f.
  apply sound_bind; [apply sound_must|]. intros b.
  destruct (decode opcode_byte b); [apply sound_exec | apply sound_ret].
Qed.

(** X22: one iteration of the dispatch loop, whether it completes or
    returns an error, leaves the constants unchanged, keeps the capacity of
    the operand stack, the globals store and the frame stack, keeps every
    heap object at its address (unchanged unless it is an array, which
    remains an array), and keeps every frame in agreement with the closure
    it refers to. *)
Theorem step_keeps_the_machine_shape s :
  closures_cached s ->
  match step opcode_byte Builtins s with
  | Ok _ s' | Err _ s' => machine_stable s s' /\ closures_cached s'
  | Panic => True
  end.
Proof.
  revert s. change (sound (step opcode_byte Builtins)). unfold step.
  apply sound_bind; [apply sound_add_current_ip|]. intros _.
  apply sound_bind; [apply sound_currentFrame|]. intros f.
  apply sound_bind; [apply sound_must|]. intros b.
  destruct (decode opcode_byte b); [apply sound_exec | apply sound_ret].
Qed.

Lemma running_inv s b s' :
  running s = Ok b s' ->
  s' = s /\ exists f, current s = Some (Some f)
    /\ b = (ip f <? Z.of_nat (length (Frame_Instructions f)) - 1).
Proof.
  unfold running. intros E. apply bind_Ok in E. destruct E as (f & s1 & Ec & E).
  apply currentFrame_inv in Ec. destruct Ec as [-> Hf].
  unfold ret in E. injection E as <- <-. eauto.
Qed.

(** X23: [Run], when it returns, has kept the shape of the machine in the
    same sense, over all the iterations it made; when it returns without
    error the instruction pointer of the current frame is at or past the
    last instruction of that frame. *)
Theorem run_keeps_the_machine_shape fuel : forall s r,
  closures_cached s ->
  Run opcode_byte Builtins fuel s = Some r ->
  match r with
  | Ok _ s' => machine_stable s s' /\ closures_cached s' /\ ended s'
  | Err _ s' => machine_stable s s' /\ closures_cached s'
  | Panic => True
  end.
Proof.
  induction fuel as [|fuel IH]; intros s r C.
  - simpl. destruct (running s) as [[|] s1|e s1|] eqn:Er; try discriminate.
    + apply running_inv in Er. destruct Er as (-> & f & Hf & Hb).
      intros [= <-]. split; [apply machine_stable_refl|]. split; [exact C|].
      exists f. split; [exact Hf|]. symmetry in Hb. apply Z.ltb_ge in Hb. lia.
    + unfold running in Er. unfold bind in Er.
      destruct (currentFrame s) as [f s2|e2 s2|] eqn:Ec; try discriminate.
      unfold currentFrame, bind, get in Ec.
      destruct (index (frames s) (framesIndex s - 1)) as [[f'|]|];
        simpl in Ec; discriminate.
    + intros [= <-]. exact I.
  - simpl. destruct (running s) as [[|] s1|e s1|] eqn:Er.
    + apply running_inv in Er. destruct Er as (-> & f & Hf & Hb).
      pose proof (sound_step s C) as St.
      destruct (step opcode_byte Builtins s) as [[] s2|e s2|].
      * destruct St as [M1 C1]. intros E. specialize (IH s2 r C1 E).
        destruct r as [a s3|e s3|]; [| |exact I].
        -- destruct IH as (M2 & C2 & En). split; [|auto].
           eapply machine_stable_trans; eassumption.
        -- destruct IH as (M2 & C2). split; [|auto].
           eapply machine_stable_trans; eassumption.
      * intros [= <-]. exact St.
      * intros [= <-]. exact I.
    + apply running_inv in Er. destruct Er as (-> & f & Hf & Hb).
      intros [= <-]. split; [apply machine_stable_refl|]. split; [exact C|].
      exists f. split; [exact Hf|]. symmetry in Hb. apply Z.ltb_ge in Hb. lia.
    + unfold running in Er. unfold bind in Er.
      destruct (currentFrame s) as [f s2|e2 s2|] eqn:Ec; try discriminate.
      unfold currentFrame, bind, get in Ec.
      destruct (index (frames s) (framesIndex s - 1)) as [[f'|]|];
        simpl in Ec; discriminate.
    + intros [= <-]. exact I.
Qed.

Lemma New_closures_cached ins consts h : closures_cached (New ins consts h).
Proof.
  intros i f Hf. unfold New in *. cbn [frames heap] in *.
  unfold index in Hf. destruct (i <? 0); [discriminate|].
  destruct (Z.to_nat i) as [|k].
  - injection Hf as <-. cbn [cl Fn Free NewFrame].
    rewrite lookup_app_r by lia. rewrite Nat.sub_diag. reflexivity.
  - rewrite lookup_cons in Hf. apply lookup_replicate in Hf.
    destruct Hf as [Hf _]. discriminate.
Qed.

(** *** Dict keys *)

Lemma uint64_injective i j :
  - 2 ^ 63 <= i < 2 ^ 63 -> - 2 ^ 63 <= j < 2 ^ 63 ->
  uint64 i = uint64 j -> i = j.
Proof.
  intros Hi Hj. unfold uint64. intros E.
  pose proof (Z.div_mod i (2 ^ 64) ltac:(lia)) as Di.
  pose proof (Z.div_mod j (2 ^ 64) ltac:(lia)) as Dj.
  rewrite E in Di.
  assert (i - j = 2 ^ 64 * (i / 2 ^ 64 - j / 2 ^ 64)) by lia.
  assert (- 2 ^ 64 < i - j < 2 ^ 64) by lia.
  nia.
Qed.

(** X24: two hashable values with the same [DictKey] have the same type;
    two Integers (in the 64-bit range) or two Booleans with the same
    [DictKey] are equal. *)
Theorem DictKey_separates_values h o1 o2 k :
  Dictable o1 = Some k -> Dictable o2 = Some k ->
  Type_ h o1 = Type_ h o2
  /\ (forall i j, o1 = Integer i -> o2 = Integer j ->
        - 2 ^ 63 <= i < 2 ^ 63 -> - 2 ^ 63 <= j < 2 ^ 63 -> i = j)
  /\ (forall a b, o1 = Boolean a -> o2 = Boolean b -> a = b).
Proof.
  intros H1 H2. split; [|split].
  - destruct o1, o2; simpl in *; try discriminate; try reflexivity;
      injection H1 as <-; injection H2 as E; discriminate.
  - intros i j -> -> Hi Hj. simpl in *. injection H1 as <-.
    injection H2 as E. symmetry. apply uint64_injective; assumption.
  - intros a b -> ->. simpl in *. injection H1 as <-. injection H2 as E.
    destruct a, b; simpl in E; congruence.
Qed.

(** *** The built-in array library *)

Lemma array_is_ARRAY h p els k :
  h !! p = Some (Array els) ->
  builtins.with_Type h (Ref p) k = k ARRAY_OBJ.
Proof. intros H. unfold builtins.with_Type. simpl. rewrite H. reflexivity. Qed.

Lemma as_Array_Ref h p els :
  h !! p = Some (Array els) -> as_Array h (Ref p) = Some (p, els).
Proof. intros H. simpl. rewrite H. reflexivity. Qed.

Lemma index_app_shift {A} (l1 l2 : list A) j :
  Z.of_nat (length l1) <= j -> index (l1 ++ l2) j = index l2 (j - Z.of_nat (length l1)).
Proof.
  intros H. unfold index.
  destruct (Z.ltb_spec j 0); [lia|]. destruct (Z.ltb_spec (j - Z.of_nat (length l1)) 0); [lia|].
  rewrite lookup_app_r by lia. f_equal. lia.
Qed.

(** X25: [removeFromArray(a, i)] with [i] inside the array removes the
    element at [i] from the array object itself (the elements after it
    move down by one, nothing else in the heap changes) and returns the
    same reference; with [i] outside it returns the error value "index out
    of bounds: i" and leaves the array as it was. *)
Theorem removeFromArray_in_place h p els i :
  h !! p = Some (Array els) ->
  (0 <= i < Z.of_nat (length els) ->
     exists h' els',
       builtins.RemoveFromArrayBuiltin [Ref p; Integer i] h = builtins.Return (Ref p) h'
       /\ h' !! p = Some (Array els')
       /\ Z.of_nat (length els') = Z.of_nat (length els) - 1
       /\ (forall j, j < i -> index els' j = index els j)
       /\ (forall j, i <= j -> index els' j = index els (j + 1))
       /\ length h' = length h
       /\ (forall q, q <> p -> h' !! q = h !! q))
  /\ (~ 0 <= i < Z.of_nat (length els) ->
       builtins.RemoveFromArrayBuiltin [Ref p; Integer i] h
       = builtins.Return (Ref (length h))
           (h ++ [Error ("index out of bounds: " +:+ fmt_d i)])).
Proof.
  intros Hp. unfold builtins.RemoveFromArrayBuiltin.
  rewrite (array_is_ARRAY _ _ _ _ Hp). change (String.eqb ARRAY_OBJ ARRAY_OBJ) with true.
  cbn [negb]. cbv iota. unfold builtins.with_Type at 1. cbn [Type_].
  change (String.eqb INTEGER_OBJ INTEGER_OBJ) with true. cbn [negb]. cbv iota.
  rewrite (as_Array_Ref _ _ _ Hp). cbn [as_Integer].
  split.
  - intros R. replace ((i <? 0) || (Z.of_nat (length els) <=? i)) with false by lia.
    eexists _, _. split; [reflexivity|].
    assert (Lt : length (take (Z.to_nat i) els) = Z.to_nat i)
      by (rewrite length_take; lia).
    split; [apply list_lookup_insert_eq; eapply lookup_lt_Some; exact Hp|].
    split; [rewrite length_app, length_take, length_drop; lia|].
    split; [|split; [|split]].
    + intros j Hj. unfold index. destruct (Z.ltb_spec j 0); [reflexivity|].
      rewrite lookup_app_l by lia. apply lookup_take_lt. lia.
    + intros j Hj. rewrite index_app_shift by lia. unfold index.
      destruct (Z.ltb_spec (j - Z.of_nat (length (take (Z.to_nat i) els))) 0); [lia|].
      destruct (Z.ltb_spec (j + 1) 0); [lia|].
      rewrite lookup_drop. f_equal. lia.
    + apply length_insert.
    + intros q Hq. apply list_lookup_insert_ne. congruence.
  - intros R. replace ((i <? 0) || (Z.of_nat (length els) <=? i)) with true by lia.
    reflexivity.
Qed.

(** X26: [addToArrayStart(a, x)] and [addToArrayEnd(a, x)] change the
    array object itself and return it: afterwards [first(a)], respectively
    [last(a)], is [x], and removing the element at index 0, respectively at
    the old length, restores the heap. *)
Theorem added_element_is_first_or_last h p els x :
  h !! p = Some (Array els) ->
  exists h1 h2,
    builtins.AddToArrayStartBuiltin [Ref p; x] h = builtins.Return (Ref p) h1
    /\ builtins.ArrayFirstBuiltin [Ref p] h1 = builtins.Return x h1
    /\ builtins.RemoveFromArrayBuiltin [Ref p; Integer 0] h1 = builtins.Return (Ref p) h
    /\ builtins.AddToArrayEndBuiltin [Ref p; x] h = builtins.Return (Ref p) h2
    /\ builtins.ArrayLastBuiltin [Ref p] h2 = builtins.Return x h2
    /\ builtins.RemoveFromArrayBuiltin [Ref p; Integer (Z.of_nat (length els))] h2
       = builtins.Return (Ref p) h.
Proof.
  intros Hp. pose proof (lookup_lt_Some _ _ _ Hp) as Lp.
  assert (H1 : <[p := Array (x :: els)]> h !! p = Some (Array (x :: els)))
    by (apply list_lookup_insert_eq; exact Lp).
  assert (H2 : <[p := Array (els ++ [x])]> h !! p = Some (Array (els ++ [x])))
    by (apply list_lookup_insert_eq; exact Lp).
  exists (<[p := Array (x :: els)]> h), (<[p := Array (els ++ [x])]> h).
  split; [|split; [|split; [|split; [|split]]]].
  - unfold builtins.AddToArrayStartBuiltin. rewrite (array_is_ARRAY _ _ _ _ Hp).
    change (String.eqb ARRAY_OBJ ARRAY_OBJ) with true. cbn [negb]. cbv iota.
    rewrite (as_Array_Ref _ _ _ Hp). reflexivity.
  - unfold builtins.ArrayFirstBuiltin. rewrite (array_is_ARRAY _ _ _ _ H1).
    change (String.eqb ARRAY_OBJ ARRAY_OBJ) with true. cbn [negb]. cbv iota.
    rewrite (as_Array_Ref _ _ _ H1). reflexivity.
  - unfold builtins.RemoveFromArrayBuiltin. rewrite (array_is_ARRAY _ _ _ _ H1).
    change (String.eqb ARRAY_OBJ ARRAY_OBJ) with true. cbn [negb]. cbv iota.
    unfold builtins.with_Type at 1. cbn [Type_].
    change (String.eqb INTEGER_OBJ INTEGER_OBJ) with true. cbn [negb]. cbv iota.
    rewrite (as_Array_Ref _ _ _ H1). cbn [as_Integer].
    assert (E0 : (0 <? 0) || (Z.of_nat (length (x :: els)) <=? 0) = false).
    { apply orb_false_intro; [reflexivity|]. apply Z.leb_gt. simpl length. lia. }
    rewrite E0.
    change (Z.to_nat 0) with 0%nat. change (Z.to_nat (0 + 1)) with 1%nat.
    cbn [take drop app]. rewrite drop_0.
    rewrite list_insert_insert_eq. rewrite list_insert_id by exact Hp. reflexivity.
  - unfold builtins.AddToArrayEndBuiltin. rewrite (array_is_ARRAY _ _ _ _ Hp).
    change (String.eqb ARRAY_OBJ ARRAY_OBJ) with true. cbn [negb]. cbv iota.
    rewrite (as_Array_Ref _ _ _ Hp). reflexivity.
  - unfold builtins.ArrayLastBuiltin. rewrite (array_is_ARRAY _ _ _ _ H2).
    change (String.eqb ARRAY_OBJ ARRAY_OBJ) with true. cbn [negb]. cbv iota.
    rewrite (as_Array_Ref _ _ _ H2). cbv zeta.
    rewrite length_app. cbn [length]. 
    replace (0 <? Z.of_nat (length els + 1)) with true
      by (symmetry; apply Z.ltb_lt; lia).
    replace (index (els ++ [x]) (Z.of_nat (length els + 1) - 1)) with (Some x);
      [reflexivity|].
    rewrite index_app_shift by lia.
    replace (Z.of_nat (length els + 1) - 1 - Z.of_nat (length els)) with 0 by lia.
    reflexivity.
  - unfold builtins.RemoveFromArrayBuiltin. rewrite (array_is_ARRAY _ _ _ _ H2).
    change (String.eqb ARRAY_OBJ ARRAY_OBJ) with true. cbn [negb]. cbv iota.
    unfold builtins.with_Type at 1. cbn [Type_].
    change (String.eqb INTEGER_OBJ INTEGER_OBJ) with true. cbn [negb]. cbv iota.
    rewrite (as_Array_Ref _ _ _ H2). cbn [as_Integer].
    rewrite length_app. cbn [length].
    assert (E0 : (Z.of_nat (length els) <? 0)
                 || (Z.of_nat (length els + 1) <=? Z.of_nat (length els)) = false).
    { apply orb_false_intro; [apply Z.ltb_ge | apply Z.leb_gt]; lia. }
    rewrite E0.
    rewrite Nat2Z.id. replace (Z.to_nat (Z.of_nat (length els) + 1)) with (length els + 1)%nat by lia.
    rewrite take_app_length. rewrite drop_ge by (rewrite length_app; simpl; lia).
    rewrite app_nil_r.
    rewrite list_insert_insert_eq. rewrite list_insert_id by exact Hp. reflexivity.
Qed.

(** X27: [allButFirst] on a non-empty array returns a fresh array with
    the elements but the first and leaves its argument unchanged; changing
    the result afterwards does not change the argument. *)
Theorem allButFirst_returns_a_copy h p e rest x :
  h !! p = Some (Array (e :: rest)) ->
  exists q h1 h2,
    builtins.AllButFirstBuiltin [Ref p] h = builtins.Return (Ref q) h1
    /\ q <> p
    /\ h1 !! q = Some (Array rest)
    /\ h1 !! p = Some (Array (e :: rest))
    /\ builtins.AddToArrayStartBuiltin [Ref q; x] h1 = builtins.Return (Ref q) h2
    /\ h2 !! q = Some (Array (x :: rest))
    /\ h2 !! p = Some (Array (e :: rest)).
Proof.
  intros Hp. pose proof (lookup_lt_Some _ _ _ Hp) as Lp.
  assert (Hq : (h ++ [Array rest]) !! length h = Some (Array rest)).
  { rewrite lookup_app_r by lia. rewrite Nat.sub_diag. reflexivity. }
  exists (length h), (h ++ [Array rest]), (<[length h := Array (x :: rest)]> (h ++ [Array rest])).
  split; [|split; [|split; [|split; [|split; [|split]]]]].
  - unfold builtins.AllButFirstBuiltin. rewrite (array_is_ARRAY _ _ _ _ Hp).
    change (String.eqb ARRAY_OBJ ARRAY_OBJ) with true. cbn [negb]. cbv iota.
    rewrite (as_Array_Ref _ _ _ Hp). reflexivity.
  - lia.
  - exact Hq.
  - rewrite lookup_app_l by exact Lp. exact Hp.
  - unfold builtins.AddToArrayStartBuiltin. rewrite (array_is_ARRAY _ _ _ _ Hq).
    change (String.eqb ARRAY_OBJ ARRAY_OBJ) with true. cbn [negb]. cbv iota.
    rewrite (as_Array_Ref _ _ _ Hq). reflexivity.
  - apply list_lookup_insert_eq. rewrite length_app. simpl. lia.
  - rewrite list_lookup_insert_ne by lia. rewrite lookup_app_l by exact Lp. exact Hp.
Qed.

Lemma indexOf_Integer_spec needle zs i0 :
  exists i, builtins.indexOf_Integer needle i0 (Integer <$> zs) = Some i
    /\ ((i = -1 /\ needle ∉ zs)
        \/ (exists k : nat, i = i0 + Z.of_nat k /\ zs !! k = Some needle
              /\ forall j : nat, (j < k)%nat -> zs !! j <> Some needle)).
Proof.
  revert i0. induction zs as [|z zs IH]; intros i0.
  - exists (-1). split; [reflexivity|]. left. split; [reflexivity|]. apply not_elem_of_nil.
  - cbn [fmap list_fmap builtins.indexOf_Integer as_Integer].
    destruct (Z.eqb_spec z needle) as [->|Hne].
    + exists i0. split; [reflexivity|]. right. exists 0%nat.
      split; [lia|]. split; [reflexivity|]. intros j Hj. lia.
    + destruct (IH (i0 + 1)) as (i & E & [[-> Hn]|(k & -> & Hk & Hfirst)]).
      * exists (-1). split; [exact E|]. left. split; [reflexivity|].
        rewrite elem_of_cons. intros [?|?]; [congruence|contradiction].
      * exists (i0 + 1 + Z.of_nat k). split; [exact E|]. right. exists (S k).
        split; [lia|]. split; [exact Hk|].
        intros [|j] Hj; simpl; [congruence| apply Hfirst; lia].
Qed.

Lemma indexOf_String_spec needle ss i0 :
  exists i, builtins.indexOf_String needle i0 (String <$> ss) = Some i
    /\ ((i = -1 /\ needle ∉ ss)
        \/ (exists k : nat, i = i0 + Z.of_nat k /\ ss !! k = Some needle
              /\ forall j : nat, (j < k)%nat -> ss !! j <> Some needle)).
Proof.
  revert i0. induction ss as [|z zs IH]; intros i0.
  - exists (-1). split; [reflexivity|]. left. split; [reflexivity|]. apply not_elem_of_nil.
  - cbn [fmap list_fmap builtins.indexOf_String as_String].
    destruct (String.eqb_spec z needle) as [->|Hne].
    + exists i0. split; [reflexivity|]. right. exists 0%nat.
      split; [lia|]. split; [reflexivity|]. intros j Hj. lia.
    + destruct (IH (i0 + 1)) as (i & E & [[-> Hn]|(k & -> & Hk & Hfirst)]).
      * exists (-1). split; [exact E|]. left. split; [reflexivity|].
        rewrite elem_of_cons. intros [?|?]; [congruence|contradiction].
      * exists (i0 + 1 + Z.of_nat k). split; [exact E|]. right. exists (S k).
        split; [lia|]. split; [exact Hk|].
        intros [|j] Hj; simpl; [congruence| apply Hfirst; lia].
Qed.

Lemma indexOf_Integer_meets_string needle zs s rest i0 :
  needle ∉ zs ->
  builtins.indexOf_Integer needle i0 ((Integer <$> zs) ++ String s :: rest) = None.
Proof.
  revert i0. induction zs as [|z zs IH]; intros i0 Hn; [reflexivity|].
  cbn [fmap list_fmap app builtins.indexOf_Integer as_Integer].
  rewrite not_elem_of_cons in Hn. destruct Hn as [Hne Hn].
  destruct (Z.eqb_spec z needle); [congruence|]. apply IH, Hn.
Qed.

Lemma indexOf_String_meets_integer needle ss z rest i0 :
  needle ∉ ss ->
  builtins.indexOf_String needle i0 ((String <$> ss) ++ Integer z :: rest) = None.
Proof.
  revert i0. induction ss as [|s ss IH]; intros i0 Hn; [reflexivity|].
  cbn [fmap list_fmap app builtins.indexOf_String as_String].
  rewrite not_elem_of_cons in Hn. destruct Hn as [Hne Hn].
  destruct (String.eqb_spec s needle); [congruence|]. apply IH, Hn.
Qed.

Lemma IndexOf_unfold h p els needle :
  h !! p = Some (Array els) ->
  (exists z, needle = Integer z) \/ (exists s, needle = String s) ->
  builtins.IndexOfBuiltin [Ref p; needle] h
  = match (match needle with
           | Integer n => builtins.indexOf_Integer n 0 els
           | String n => builtins.indexOf_String n 0 els
           | _ => None
           end) with
    | Some i => builtins.Return (Integer i) h
    | None => builtins.Panics
    end.
Proof.
  intros Hp Hn. unfold builtins.IndexOfBuiltin.
  rewrite (array_is_ARRAY _ _ _ _ Hp). change (String.eqb ARRAY_OBJ ARRAY_OBJ) with true.
  cbn [negb]. cbv iota. rewrite (as_Array_Ref _ _ _ Hp).
  destruct Hn as [[z ->]|[s ->]]; reflexivity.
Qed.

(** X28: [indexOf] on an array of integers and an integer needle, or on
    an array of strings and a string needle, returns the index of the first
    occurrence of the needle, or -1 when there is none; an element of the
    other kind met before any occurrence makes it panic. *)
Theorem indexOf_first_occurrence h p :
  (forall zs needle, h !! p = Some (Array (Integer <$> zs)) ->
     exists i,
       builtins.IndexOfBuiltin [Ref p; Integer needle] h = builtins.Return (Integer i) h
       /\ ((i = -1 /\ needle ∉ zs)
           \/ (exists k : nat, i = Z.of_nat k /\ zs !! k = Some needle
                 /\ forall j : nat, (j < k)%nat -> zs !! j <> Some needle)))
  /\ (forall ss needle, h !! p = Some (Array (String <$> ss)) ->
     exists i,
       builtins.IndexOfBuiltin [Ref p; String needle] h = builtins.Return (Integer i) h
       /\ ((i = -1 /\ needle ∉ ss)
           \/ (exists k : nat, i = Z.of_nat k /\ ss !! k = Some needle
                 /\ forall j : nat, (j < k)%nat -> ss !! j <> Some needle)))
  /\ (forall zs s rest needle,
        h !! p = Some (Array ((Integer <$> zs) ++ String s :: rest)) ->
        needle ∉ zs ->
        builtins.IndexOfBuiltin [Ref p; Integer needle] h = builtins.Panics)
  /\ (forall ss z rest needle,
        h !! p = Some (Array ((String <$> ss) ++ Integer z :: rest)) ->
        needle ∉ ss ->
        builtins.IndexOfBuiltin [Ref p; String needle] h = builtins.Panics).
Proof.
  split; [|split; [|split]].
  - intros zs needle Hp. rewrite (IndexOf_unfold _ _ _ _ Hp) by eauto.
    destruct (indexOf_Integer_spec needle zs 0) as (i & -> & Hi).
    exists i. split; [reflexivity|]. exact Hi.
  - intros ss needle Hp. rewrite (IndexOf_unfold _ _ _ _ Hp) by eauto.
    destruct (indexOf_String_spec needle ss 0) as (i & -> & Hi).
    exists i. split; [reflexivity|]. exact Hi.
  - intros zs s rest needle Hp Hn. rewrite (IndexOf_unfold _ _ _ _ Hp) by eauto.
    rewrite indexOf_Integer_meets_string by exact Hn. reflexivity.
  - intros ss z rest needle Hp Hn. rewrite (IndexOf_unfold _ _ _ _ Hp) by eauto.
    rewrite indexOf_String_meets_integer by exact Hn. reflexivity.
Qed.

Lemma sort_insert_perm less x l : builtins.sort_insert less x l ≡ₚ x :: l.
Proof.
  induction l as [|y l IH]; simpl; [reflexivity|].
  destruct (less x y); [reflexivity|].
  rewrite IH. apply Permutation_swap.
Qed.

Lemma sort_Z_perm less l : builtins.sort_Z less l ≡ₚ l.
Proof.
  unfold builtins.sort_Z. induction l as [|x l IH]; simpl; [reflexivity|].
  rewrite sort_insert_perm. rewrite IH. reflexivity.
Qed.

Lemma sort_insert_ascending x l :
  Sorted Z.le l -> Sorted Z.le (builtins.sort_insert Z.ltb x l).
Proof.
  induction 1 as [|y l Hs IH Hd]; simpl.
  - repeat constructor.
  - destruct (Z.ltb_spec x y).
    + constructor; [constructor; assumption|]. constructor. lia.
    + constructor; [exact IH|].
      destruct l as [|z l]; simpl.
      * constructor. lia.
      * destruct (Z.ltb_spec x z); constructor; [lia|].
        inversion Hd; assumption.
Qed.

Lemma sort_insert_descending x l :
  Sorted Z.ge l -> Sorted Z.ge (builtins.sort_insert Z.gtb x l).
Proof.
  induction 1 as [|y l Hs IH Hd]; simpl.
  - repeat constructor.
  - rewrite Z.gtb_ltb. destruct (Z.ltb_spec y x).
    + constructor; [constructor; assumption|]. constructor. lia.
    + constructor; [exact IH|].
      destruct l as [|z l]; simpl.
      * constructor. lia.
      * rewrite Z.gtb_ltb. destruct (Z.ltb_spec z x); constructor; [lia|].
        inversion Hd; assumption.
Qed.

Lemma sort_Z_ascending l : Sorted Z.le (builtins.sort_Z Z.ltb l).
Proof.
  unfold builtins.sort_Z. induction l; simpl; [constructor|].
  apply sort_insert_ascending. assumption.
Qed.

Lemma sort_Z_descending l : Sorted Z.ge (builtins.sort_Z Z.gtb l).
Proof.
  unfold builtins.sort_Z. induction l; simpl; [constructor|].
  apply sort_insert_descending. assumption.
Qed.

Lemma mapM_as_Integer zs : mapM as_Integer (Integer <$> zs) = Some zs.
Proof.
  induction zs as [|z zs IH]; [reflexivity|].
  cbn [fmap list_fmap mapM]. simpl. 
  change (mapM as_Integer (Integer <$> zs)) with (mapM as_Integer (Integer <$> zs)) in IH.
  rewrite IH. reflexivity.
Qed.

Lemma sort_Slice_ascending zs :
  exists zs', builtins.sort_Slice Z.ltb (Integer <$> zs) = Some (Integer <$> zs')
    /\ Sorted Z.le zs' /\ zs' ≡ₚ zs.
Proof.
  unfold builtins.sort_Slice. destruct (Nat.ltb_spec (length (Integer <$> zs)) 2) as [L|L].
  - exists zs. split; [reflexivity|]. split; [|reflexivity].
    rewrite length_fmap in L. destruct zs as [|a [|b zs]]; simpl in L; try lia;
      repeat constructor.
  - exists (builtins.sort_Z Z.ltb zs). rewrite mapM_as_Integer.
    split; [reflexivity|]. split; [apply sort_Z_ascending | apply sort_Z_perm].
Qed.

Lemma sort_Slice_descending zs :
  exists zs', builtins.sort_Slice Z.gtb (Integer <$> zs) = Some (Integer <$> zs')
    /\ Sorted Z.ge zs' /\ zs' ≡ₚ zs.
Proof.
  unfold builtins.sort_Slice. destruct (Nat.ltb_spec (length (Integer <$> zs)) 2) as [L|L].
  - exists zs. split; [reflexivity|]. split; [|reflexivity].
    rewrite length_fmap in L. destruct zs as [|a [|b zs]]; simpl in L; try lia;
      repeat constructor.
  - exists (builtins.sort_Z Z.gtb zs). rewrite mapM_as_Integer.
    split; [reflexivity|]. split; [apply sort_Z_descending | apply sort_Z_perm].
Qed.

Lemma Organize_unfold h p els rest :
  h !! p = Some (Array els) ->
  builtins.OrganizeBuiltins (Ref p :: rest) h
  = match (match rest with
           | [] => Some "asc"%string
           | a1 :: _ =>
               match Type_ h a1 with
               | Some t1 => if String.eqb t1 STRING_OBJ then as_String a1 else Some "asc"%string
               | None => None
               end
           end) with
    | Some by_ =>
        match (if String.eqb by_ "asc" then builtins.sort_Slice Z.ltb els
               else if String.eqb by_ "desc" then builtins.sort_Slice Z.gtb els
               else Some els) with
        | Some els' => builtins.Return (Ref p) (<[p := Array els']> h)
        | None => builtins.Panics
        end
    | None => builtins.Panics
    end.
Proof.
  intros Hp. unfold builtins.OrganizeBuiltins.
  rewrite (array_is_ARRAY _ _ _ _ Hp). change (String.eqb ARRAY_OBJ ARRAY_OBJ) with true.
  cbn [negb]. cbv iota. rewrite (as_Array_Ref _ _ _ Hp).
  destruct rest as [|a1 rest]; [reflexivity|].
  destruct (Type_ h a1) as [t1|]; [|reflexivity].
  destruct (String.eqb t1 STRING_OBJ); [|reflexivity].
  destruct (as_String a1); reflexivity.
Qed.

(** X29: [organize(a)] on an array of integers sorts the array object
    itself in ascending order (the result is ordered and a permutation of
    the elements) and returns it; with "desc" the order is descending;
    with any other string the array is left as it is; a second argument
    that is not a string, and any further argument, is ignored. *)
Theorem organize_sorts_in_place h p zs :
  h !! p = Some (Array (Integer <$> zs)) ->
  (exists zs',
     builtins.OrganizeBuiltins [Ref p] h
     = builtins.Return (Ref p) (<[p := Array (Integer <$> zs')]> h)
     /\ Sorted Z.le zs' /\ zs' ≡ₚ zs)
  /\ (exists zs',
     builtins.OrganizeBuiltins [Ref p; String "desc"] h
     = builtins.Return (Ref p) (<[p := Array (Integer <$> zs')]> h)
     /\ Sorted Z.ge zs' /\ zs' ≡ₚ zs)
  /\ (forall by_, by_ <> "asc"%string -> by_ <> "desc"%string ->
        builtins.OrganizeBuiltins [Ref p; String by_] h = builtins.Return (Ref p) h)
  /\ (forall a1 t1 more, Type_ h a1 = Some t1 -> t1 <> STRING_OBJ ->
        builtins.OrganizeBuiltins (Ref p :: a1 :: more) h
        = builtins.OrganizeBuiltins [Ref p] h).
Proof.
  intros Hp. split; [|split; [|split]].
  - rewrite (Organize_unfold _ _ _ _ Hp). change (String.eqb "asc" "asc") with true.
    cbv iota. destruct (sort_Slice_ascending zs) as (zs' & -> & S & P).
    exists zs'. auto.
  - rewrite (Organize_unfold _ _ _ _ Hp). cbn [Type_ as_String].
    change (String.eqb STRING_OBJ STRING_OBJ) with true. cbv iota.
    change (String.eqb "desc" "asc") with false.
    change (String.eqb "desc" "desc") with true. cbv iota.
    destruct (sort_Slice_descending zs) as (zs' & -> & S & P).
    exists zs'. auto.
  - intros by_ H1 H2. rewrite (Organize_unfold _ _ _ _ Hp). cbn [Type_ as_String].
    change (String.eqb STRING_OBJ STRING_OBJ) with true. cbv iota.
    apply String.eqb_neq in H1, H2. rewrite H1, H2.
    rewrite list_insert_id by exact Hp. reflexivity.
  - intros a1 t1 more Ht Hne. rewrite !(Organize_unfold _ _ _ _ Hp).
    rewrite Ht. apply String.eqb_neq in Hne. rewrite Hne. reflexivity.
Qed.

Lemma sum_loop_numeric h els : forall s hf,
  Forall is_numeric els ->
  exists s', builtins.sum_loop h s hf els = Some (inr (s', hf || existsb is_Float els)).
Proof.
  induction els as [|e els IH]; intros s hf Hall.
  - exists s. simpl. rewrite orb_false_r. reflexivity.
  - inversion Hall as [|? ? He Hrest]; subst.
    destruct e; simpl in He; try contradiction; cbn [builtins.sum_loop Type_].
    + change (String.eqb INTEGER_OBJ INTEGER_OBJ) with true. cbn [negb andb]. cbv iota.
      destruct (IH (f64.add s (f64.of_int64 Value0)) hf Hrest) as (s' & ->).
      exists s'. reflexivity.
    + change (String.eqb FLOAT_OBJ INTEGER_OBJ) with false.
      change (String.eqb FLOAT_OBJ FLOAT_OBJ) with true. cbn [negb andb]. cbv iota.
      destruct (IH (f64.add s Value0) true Hrest) as (s' & ->).
      exists s'. cbn [existsb is_Float orb]. rewrite orb_true_r. reflexivity.
Qed.

Lemma sum_loop_rejects h pre bad rest t : forall s hf,
  Forall is_numeric pre ->
  Type_ h bad = Some t -> t <> INTEGER_OBJ -> t <> FLOAT_OBJ ->
  builtins.sum_loop h s hf (pre ++ bad :: rest)
  = Some (inl ("argument to `sum` must be INTEGER or FLOAT, got " +:+ t)).
Proof.
  induction pre as [|e pre IH]; intros s hf Hall Ht H1 H2.
  - cbn [app builtins.sum_loop]. rewrite Ht.
    apply String.eqb_neq in H1, H2. rewrite H1, H2. reflexivity.
  - inversion Hall as [|? ? He Hrest]; subst.
    destruct e; simpl in He; try contradiction; cbn [app builtins.sum_loop Type_].
    + change (String.eqb INTEGER_OBJ INTEGER_OBJ) with true. cbn [negb andb]. cbv iota.
      apply IH; assumption.
    + change (String.eqb FLOAT_OBJ INTEGER_OBJ) with false.
      change (String.eqb FLOAT_OBJ FLOAT_OBJ) with true. cbn [negb andb]. cbv iota.
      apply IH; assumption.
Qed.

(** X30: [sum] on an array of numbers returns a Float when an element
    is a Float and an Integer otherwise, and leaves the heap as it was;
    the first element that is not a number ends it with the error value
    "argument to `sum` must be INTEGER or FLOAT, got T". *)
Theorem sum_result_kind h p :
  (forall els, h !! p = Some (Array els) -> Forall is_numeric els ->
     exists v, builtins.SumBuiltin [Ref p] h = builtins.Return v h
       /\ Type_ h v = Some (if existsb is_Float els then FLOAT_OBJ else INTEGER_OBJ))
  /\ (forall pre bad rest t,
        h !! p = Some (Array (pre ++ bad :: rest)) -> Forall is_numeric pre ->
        Type_ h bad = Some t -> t <> INTEGER_OBJ -> t <> FLOAT_OBJ ->
        builtins.SumBuiltin [Ref p] h
        = builtins.Return (Ref (length h))
            (h ++ [Error ("argument to `sum` must be INTEGER or FLOAT, got " +:+ t)])).
Proof.
  split.
  - intros els Hp Hall. unfold builtins.SumBuiltin.
    rewrite (array_is_ARRAY _ _ _ _ Hp). change (String.eqb ARRAY_OBJ ARRAY_OBJ) with true.
    cbn [negb]. cbv iota. rewrite (as_Array_Ref _ _ _ Hp).
    destruct (sum_loop_numeric h els f64.zero false Hall) as (s' & ->).
    cbn [orb]. destruct (existsb is_Float els); eexists; split; reflexivity.
  - intros pre bad rest t Hp Hall Ht H1 H2. unfold builtins.SumBuiltin.
    rewrite (array_is_ARRAY _ _ _ _ Hp). change (String.eqb ARRAY_OBJ ARRAY_OBJ) with true.
    cbn [negb]. cbv iota. rewrite (as_Array_Ref _ _ _ Hp).
    rewrite (sum_loop_rejects h pre bad rest t _ _ Hall Ht H1 H2). reflexivity.
Qed.

End Further.

(** ** The further properties at concrete machines *)

Ltac by_computation :=
  vm_compute;
  first [ reflexivity | discriminate
        | split; first [reflexivity | discriminate] ].

Ltac in_list := simpl; repeat (first [left; reflexivity | right]).

Lemma fresh_machine_closures_cached ins consts h :
  closures_cached (fresh_machine ins consts h).
Proof. exact (New_closures_cached ins consts h). Qed.

Lemma machine_with_closures_cached ins consts h operands :
  closures_cached (machine_with ins consts h operands).
Proof. exact (New_closures_cached ins consts h). Qed.

Lemma unknown_opcode_is_skipped_witness :
  step table_order spec_order_builtins (machine_with [99] [] [] [])
  = Ok tt (jumped (machine_with [99] [] [] []) (main_frame [99] [])
             (ip (main_frame [99] []) + 1)).
Proof.
  apply (unknown_opcode_is_skipped table_order spec_order_builtins
           (machine_with [99] [] [] []) (main_frame [99] []) 99);
    by_computation.
Defined.

Lemma jump_targets_witness :
  exists s' f',
    step table_order spec_order_builtins
      (machine_with [table_order OpJumpNotTruthy; 0; 9] [] [] [Boolean false])
    = Ok tt s'
    /\ current s' = Some (Some f') /\ ip f' = 8 /\ sp s' = 0.
Proof.
  destruct (jump_targets table_order spec_order_builtins
              (machine_with [table_order OpJumpNotTruthy; 0; 9] [] [] [Boolean false])
              (main_frame [table_order OpJumpNotTruthy; 0; 9] [])
              (table_order OpJumpNotTruthy) 9) as [_ H]; [by_computation ..|].
  destruct (H ltac:(by_computation) (Boolean false) ltac:(by_computation))
    as (s' & f' & E & C & I & S & _).
  exists s', f'. split; [exact E|]. split; [exact C|]. split; [exact I | exact S].
Defined.

Lemma global_set_then_get_witness :
  exists s1 s2,
    exec table_order spec_order_builtins OpSetGlobal
      [table_order OpSetGlobal; 0; 3] 0 (machine_with [] [] [] [Integer 7]) = Ok tt s1
    /\ index (globals s1) 3 = Some (Integer 7)
    /\ exec table_order spec_order_builtins OpGetGlobal
         [table_order OpGetGlobal; 0; 3] 0 s1 = Ok tt s2
    /\ top s2 = Some (Integer 7).
Proof.
  destruct (global_set_then_get table_order spec_order_builtins
              (machine_with [] [] [] [Integer 7]) (main_frame [] [])
              [table_order OpSetGlobal; 0; 3] 0 [table_order OpGetGlobal; 0; 3] 0
              3 (Integer 7))
    as (s1 & s2 & E1 & _ & G & _ & E2 & _ & T & _); [by_computation ..|].
  exists s1, s2. split; [exact E1|]. split; [exact G|]. split; [exact E2 | exact T].
Defined.

Lemma local_set_then_get_witness :
  exists s1 s2,
    exec table_order spec_order_builtins OpSetLocal
      [table_order OpSetLocal; 1] 0 (machine_with [] [] [] [Integer 7]) = Ok tt s1
    /\ index (stack s1) 1 = Some (Integer 7)
    /\ exec table_order spec_order_builtins OpGetLocal
         [table_order OpGetLocal; 1] 0 s1 = Ok tt s2
    /\ top s2 = Some (Integer 7).
Proof.
  destruct (local_set_then_get table_order spec_order_builtins
              (machine_with [] [] [] [Integer 7]) (main_frame [] [])
              [table_order OpSetLocal; 1] 0 [table_order OpGetLocal; 1] 0
              1 (Integer 7))
    as (s1 & s2 & E1 & _ & G & _ & E2 & _ & T & _); [by_computation ..|].
  exists s1, s2. split; [exact E1|]. split; [exact G|]. split; [exact E2 | exact T].
Defined.

Lemma string_concatenation_witness :
  (exists vm',
     exec table_order spec_order_builtins OpAdd [] 0
       (machine_with [] [] [] [String "Va"; String "ja"]) = Ok tt vm'
     /\ sp vm' = 1
     /\ top vm' = Some (String "Vaja"))
  /\ (exists vm',
     exec table_order spec_order_builtins OpSub [] 0
       (machine_with [] [] [] [String "Va"; String "ja"])
     = Err "unknown string operator: 2" vm').
Proof.
  split.
  - destruct (string_concatenation table_order spec_order_builtins
                (machine_with [] [] [] [String "Va"; String "ja"]) [] 0
                OpAdd "Va" "ja") as [H _]; [in_list | by_computation ..|].
    exact (H eq_refl).
  - destruct (string_concatenation table_order spec_order_builtins
                (machine_with [] [] [] [String "Va"; String "ja"]) [] 0
                OpSub "Va" "ja") as [_ H]; [in_list | by_computation ..|].
    apply H. discriminate.
Defined.

Lemma unsupported_operand_types_witness :
  exists vm',
    exec table_order spec_order_builtins OpAdd [] 0
      (machine_with [] [] [] [Integer 1; Boolean true])
    = Err "unsupported types for binary operation: INTEGER BOOLEAN" vm'
    /\ sp vm' = 0.
Proof.
  apply (unsupported_operand_types table_order spec_order_builtins
           (machine_with [] [] [] [Integer 1; Boolean true]) [] 0 OpAdd
           (Integer 1) (Boolean true) INTEGER_OBJ BOOLEAN_OBJ);
    [in_list | by_computation ..|].
  unfold dispatched, is_number. intros [[_ [H|H]]|[H _]]; discriminate.
Defined.

Lemma float_arithmetic_with_promotion_witness :
  exists vm',
    exec table_order spec_order_builtins OpAdd [] 0
      (machine_with [] [] [] [Integer 1; Float (f64.of_int64 2)]) = Ok tt vm'
    /\ sp vm' = 1
    /\ top vm' = Some (Float (f64.of_int64 3)).
Proof.
  destruct (float_arithmetic_with_promotion table_order spec_order_builtins
              (machine_with [] [] [] [Integer 1; Float (f64.of_int64 2)]) [] 0 OpAdd
              (Integer 1) (Float (f64.of_int64 2)) (f64.of_int64 1) (f64.of_int64 2))
    as [H _]; [in_list | by_computation ..| right; reflexivity |].
  apply H. discriminate.
Defined.

Lemma integer_comparison_witness :
  exists vm',
    exec table_order spec_order_builtins OpLessThan [] 0
      (machine_with [] [] [] [Integer 1; Integer 2]) = Ok tt vm'
    /\ sp vm' = 1
    /\ top vm' = Some (Boolean true).
Proof.
  destruct (integer_comparison table_order spec_order_builtins
              (machine_with [] [] [] [Integer 1; Integer 2]) [] 0 OpLessThan 1 2)
    as (vm' & b & E & S & T & Hb); [in_list | by_computation ..|].
  assert (b = true) as -> by (apply Hb; simpl; lia).
  exists vm'. split; [exact E|]. split; [exact S | exact T].
Defined.

Lemma identity_comparison_witness :
  (exists vm',
     exec table_order spec_order_builtins OpEqual [] 0
       (machine_with [] [] [] [Boolean true; Null]) = Ok tt vm'
     /\ sp vm' = 1
     /\ top vm' = Some (Boolean false))
  /\ (exists vm',
     exec table_order spec_order_builtins OpLessThan [] 0
       (machine_with [] [] [] [Boolean true; Null])
     = Err "unknown operator: 11 (BOOLEAN NULL)" vm').
Proof.
  assert (N : ~ dispatched BOOLEAN_OBJ NULL_OBJ).
  { unfold dispatched, is_number. intros [[[H|H] _]|[H _]]; discriminate. }
  split.
  - destruct (identity_comparison table_order spec_order_builtins
                (machine_with [] [] [] [Boolean true; Null]) [] 0 OpEqual
                (Boolean true) Null BOOLEAN_OBJ NULL_OBJ)
      as (H & _); [in_list | by_computation ..| exact N |].
    exact (H eq_refl).
  - destruct (identity_comparison table_order spec_order_builtins
                (machine_with [] [] [] [Boolean true; Null]) [] 0 OpLessThan
                (Boolean true) Null BOOLEAN_OBJ NULL_OBJ)
      as (_ & _ & H & _); [in_list | by_computation ..| exact N |].
    apply H; discriminate.
Defined.

Lemma float_comparison_with_promotion_witness :
  exists vm',
    exec table_order spec_order_builtins OpLessThan [] 0
      (machine_with [] [] [] [Integer 1; Float (f64.of_int64 2)]) = Ok tt vm'
    /\ sp vm' = 1
    /\ top vm' = Some (Boolean true).
Proof.
  destruct (float_comparison_with_promotion table_order spec_order_builtins
              (machine_with [] [] [] [Integer 1; Float (f64.of_int64 2)]) [] 0
              OpLessThan (Integer 1) (Float (f64.of_int64 2))
              (f64.of_int64 1) (f64.of_int64 2))
    as (vm' & r & E & S & T & Hr); [in_list | by_computation ..| right; reflexivity |].
  assert (r = true) as -> by (apply Hr; by_computation).
  exists vm'. split; [exact E|]. split; [exact S | exact T].
Defined.

Lemma bang_is_negated_truthiness_witness :
  exists vm',
    exec table_order spec_order_builtins OpBang [] 0
      (machine_with [] [] [] [Integer 5]) = Ok tt vm'
    /\ top vm' = Some (Boolean false)
    /\ exists vm'',
         exec table_order spec_order_builtins OpBang [] 0 vm' = Ok tt vm''
         /\ top vm'' = Some (Boolean true).
Proof.
  destruct (bang_is_negated_truthiness table_order spec_order_builtins
              (machine_with [] [] [] [Integer 5]) [] 0 (Integer 5))
    as (vm' & E & _ & T & vm'' & E' & _ & T'); [by_computation ..|].
  exists vm'. split; [exact E|]. split; [exact T|].
  exists vm''. split; [exact E' | exact T'].
Defined.

Lemma minus_on_integers_only_witness :
  (exists vm',
     exec table_order spec_order_builtins OpMinus [] 0
       (machine_with [] [] [] [Integer 5]) = Ok tt vm'
     /\ top vm' = Some (Integer (-5)))
  /\ (exists vm',
     exec table_order spec_order_builtins OpMinus [] 0
       (machine_with [] [] [] [Float (f64.of_int64 5)])
     = Err "unsupported type for negation: FLOAT" vm').
Proof.
  split.
  - destruct (minus_on_integers_only table_order spec_order_builtins
                (machine_with [] [] [] [Integer 5]) [] 0 (Integer 5) INTEGER_OBJ)
      as [H _]; [by_computation ..|].
    destruct (H 5 eq_refl) as (vm' & E & _ & T & _).
    exists vm'. split; [exact E | exact T].
  - destruct (minus_on_integers_only table_order spec_order_builtins
                (machine_with [] [] [] [Float (f64.of_int64 5)]) [] 0
                (Float (f64.of_int64 5)) FLOAT_OBJ)
      as [_ H]; [by_computation ..|].
    apply H. discriminate.
Defined.

Lemma and_or_are_strict_witness :
  (exists vm',
     exec table_order spec_order_builtins OpAnd [] 0
       (machine_with [] [] [] [Integer 0; Null]) = Ok tt vm'
     /\ sp vm' = 1
     /\ top vm' = Some (Boolean false))
  /\ (exists vm',
     exec table_order spec_order_builtins OpOr [] 0
       (machine_with [] [] [] [Integer 0; Null]) = Ok tt vm'
     /\ sp vm' = 1
     /\ top vm' = Some (Boolean true)).
Proof.
  apply (and_or_are_strict table_order spec_order_builtins
           (machine_with [] [] [] [Integer 0; Null]) [] 0 (Integer 0) Null);
    by_computation.
Defined.

Lemma array_literal_witness :
  exists vm' els,
    exec table_order spec_order_builtins OpArray [table_order OpArray; 0; 2] 0
      (machine_with [] [] [] [Integer 1; Integer 2]) = Ok tt vm'
    /\ sp vm' = 1
    /\ top vm' = Some (Ref 1%nat)
    /\ heap vm' !! 1%nat = Some (Array els)
    /\ index els 0 = Some (Integer 1)
    /\ index els 1 = Some (Integer 2).
Proof.
  destruct (array_literal table_order spec_order_builtins
              (machine_with [] [] [] [Integer 1; Integer 2]) (main_frame [] [])
              [table_order OpArray; 0; 2] 0 2)
    as (vm' & els & E & S & T & H & L & Hels & _); [by_computation ..|].
  exists vm', els. split; [exact E|]. split; [exact S|]. split; [exact T|].
  split; [rewrite H; reflexivity|].
  split; [rewrite (Hels 0) by lia | rewrite (Hels 1) by lia]; reflexivity.
Defined.

Lemma closure_creation_witness :
  exists vm' free,
    pushClosure 0 1
      (machine_with [] [Ref 0%nat] [CompiledFn one_parameter_fn] [Integer 5])
    = Ok tt vm'
    /\ sp vm' = 1
    /\ heap vm' !! 2%nat = Some (Closure one_parameter_fn free)
    /\ index free 0 = Some (Integer 5).
Proof.
  destruct (closure_creation
              (machine_with [] [Ref 0%nat] [CompiledFn one_parameter_fn] [Integer 5])
              0 1 (Ref 0%nat)) as [H _]; [by_computation|].
  destruct (H one_parameter_fn) as (vm' & free & E & S & _ & Hh & _ & Hfree & _);
    [by_computation ..|].
  exists vm', free. split; [exact E|]. split; [exact S|].
  split; [rewrite Hh; reflexivity|].
  rewrite (Hfree 0) by lia. reflexivity.
Defined.

Lemma free_variables_of_the_called_closure_witness :
  exists vm1 vm2,
    executeCall 1
      (machine_with [] [] [Closure one_parameter_fn [Integer 5]] [Ref 0%nat; Integer 1])
    = Ok tt vm1
    /\ exec table_order spec_order_builtins OpGetFree [table_order OpGetFree; 0] 0 vm1
       = Ok tt vm2
    /\ top vm2 = Some (Integer 5).
Proof.
  destruct (free_variables_of_the_called_closure table_order spec_order_builtins
              (machine_with [] [] [Closure one_parameter_fn [Integer 5]]
                 [Ref 0%nat; Integer 1])
              1 0%nat one_parameter_fn [Integer 5])
    as (vm1 & f & E & _ & _ & _ & Hst & Hsp & H); [by_computation ..|].
  destruct H as [H _].
  - rewrite Hsp. by_computation.
  - rewrite Hsp, Hst. by_computation.
  - destruct (H [table_order OpGetFree; 0] 0 0 (Integer 5))
      as (vm2 & E2 & _ & T); [by_computation ..|].
    exists vm1, vm2. split; [exact E|]. split; [exact E2 | exact T].
Defined.

Lemma builtin_call_replaces_callee_and_arguments_witness :
  exists vm',
    executeCall 1
      (machine_with [] [] [Array [Integer 3; Integer 4]] [Builtin ArrayFirst; Ref 0%nat])
    = Ok tt vm'
    /\ sp vm' = 1
    /\ top vm' = Some (Integer 3).
Proof.
  destruct (builtin_call_replaces_callee_and_arguments
              (machine_with [] [] [Array [Integer 3; Integer 4]]
                 [Builtin ArrayFirst; Ref 0%nat])
              ArrayFirst 1 [Ref 0%nat]) as [H _]; [by_computation ..|].
  destruct (H (Integer 3) _ ltac:(vm_compute; reflexivity))
    as (vm' & E & S & T & _).
  exists vm'. split; [exact E|]. split; [exact S | exact T].
Defined.

Lemma calling_a_non_function_witness :
  error_of (executeCall 0 (machine_with [] [] [] [Integer 1]))
  = Some "calling non-function and non-built-in object: INTEGER"%string.
Proof.
  rewrite (calling_a_non_function (machine_with [] [] [] [Integer 1]) 0
             (Integer 1) INTEGER_OBJ); [reflexivity | by_computation ..].
Defined.

Lemma return_from_the_main_frame_panics_witness :
  exec table_order spec_order_builtins OpReturn [] 0
    (machine_with [] [] [] [Integer 1]) = Panic
  /\ exec table_order spec_order_builtins OpReturnValue [] 0
       (machine_with [] [] [] [Integer 1]) = Panic.
Proof.
  apply (return_from_the_main_frame_panics table_order spec_order_builtins
           (machine_with [] [] [] [Integer 1]) (main_frame [] []));
    by_computation.
Defined.

Lemma step_keeps_the_machine_shape_witness :
  exists s',
    step table_order spec_order_builtins concat_machine = Ok tt s'
    /\ machine_stable concat_machine s' /\ closures_cached s'.
Proof.
  pose proof (step_keeps_the_machine_shape table_order spec_order_builtins
                concat_machine (fresh_machine_closures_cached _ _ _)) as H.
  destruct (step table_order spec_order_builtins concat_machine)
    as [[] s'|e s'|] eqn:E.
  - exists s'. split; [reflexivity | exact H].
  - exfalso. vm_compute in E. discriminate.
  - exfalso. vm_compute in E. discriminate.
Defined.

Lemma run_keeps_the_machine_shape_witness :
  exists s',
    Run table_order spec_order_builtins 100 concat_machine = Some (Ok tt s')
    /\ machine_stable concat_machine s' /\ closures_cached s' /\ ended s'.
Proof.
  destruct (Run table_order spec_order_builtins 100 concat_machine)
    as [[[] s'|e s'|]|] eqn:E.
  - exists s'. split; [reflexivity|].
    exact (run_keeps_the_machine_shape table_order spec_order_builtins 100
             concat_machine (Ok tt s') (fresh_machine_closures_cached _ _ _) E).
  - exfalso. vm_compute in E. discriminate.
  - exfalso. vm_compute in E. discriminate.
  - exfalso. vm_compute in E. discriminate.
Defined.

Lemma DictKey_separates_values_witness :
  (forall i j, Integer 7 = Integer i -> Integer 7 = Integer j ->
     - 2 ^ 63 <= i < 2 ^ 63 -> - 2 ^ 63 <= j < 2 ^ 63 -> i = j)
  /\ Dictable (Integer 7) = Some (INTEGER_OBJ, 7).
Proof.
  destruct (DictKey_separates_values [] (Integer 7) (Integer 7) (INTEGER_OBJ, 7))
    as (_ & H & _); [reflexivity ..|].
  split; [exact H | reflexivity].
Defined.

Lemma removeFromArray_in_place_witness :
  exists h' els',
    builtins.RemoveFromArrayBuiltin [Ref 0%nat; Integer 1]
      [Array [Integer 1; Integer 2; Integer 3]] = builtins.Return (Ref 0%nat) h'
    /\ h' !! 0%nat = Some (Array els')
    /\ Z.of_nat (length els') = 2
    /\ index els' 0 = Some (Integer 1)
    /\ index els' 1 = Some (Integer 3).
Proof.
  destruct (removeFromArray_in_place [Array [Integer 1; Integer 2; Integer 3]] 0%nat
              [Integer 1; Integer 2; Integer 3] 1 eq_refl) as [H _].
  destruct H as (h' & els' & E & Hp & L & Hlo & Hhi & _); [by_computation|].
  exists h', els'. split; [exact E|]. split; [exact Hp|]. split; [exact L|].
  split; [rewrite (Hlo 0) by lia | rewrite (Hhi 1) by lia]; reflexivity.
Defined.

Lemma added_element_is_first_or_last_witness :
  exists h1 h2,
    builtins.AddToArrayStartBuiltin [Ref 0%nat; Integer 9] [Array [Integer 1; Integer 2]]
    = builtins.Return (Ref 0%nat) h1
    /\ builtins.ArrayFirstBuiltin [Ref 0%nat] h1 = builtins.Return (Integer 9) h1
    /\ builtins.AddToArrayEndBuiltin [Ref 0%nat; Integer 9] [Array [Integer 1; Integer 2]]
       = builtins.Return (Ref 0%nat) h2
    /\ builtins.ArrayLastBuiltin [Ref 0%nat] h2 = builtins.Return (Integer 9) h2.
Proof.
  destruct (added_element_is_first_or_last [Array [Integer 1; Integer 2]] 0%nat
              [Integer 1; Integer 2] (Integer 9) eq_refl)
    as (h1 & h2 & E1 & F & _ & E2 & L & _).
  exists h1, h2. split; [exact E1|]. split; [exact F|]. split; [exact E2 | exact L].
Defined.

Lemma allButFirst_returns_a_copy_witness :
  exists q h1 h2,
    builtins.AllButFirstBuiltin [Ref 0%nat] [Array [Integer 1; Integer 2]]
    = builtins.Return (Ref q) h1
    /\ q <> 0%nat
    /\ h1 !! q = Some (Array [Integer 2])
    /\ builtins.AddToArrayStartBuiltin [Ref q; Integer 9] h1 = builtins.Return (Ref q) h2
    /\ h2 !! 0%nat = Some (Array [Integer 1; Integer 2]).
Proof.
  destruct (allButFirst_returns_a_copy [Array [Integer 1; Integer 2]] 0%nat
              (Integer 1) [Integer 2] (Integer 9) eq_refl)
    as (q & h1 & h2 & E & N & Hq & _ & E2 & _ & Hp).
  exists q, h1, h2. split; [exact E|]. split; [exact N|]. split; [exact Hq|].
  split; [exact E2 | exact Hp].
Defined.

Lemma organize_sorts_in_place_witness :
  exists zs',
    builtins.OrganizeBuiltins [Ref 0%nat] [Array [Integer 3; Integer 1; Integer 2]]
    = builtins.Return (Ref 0%nat) [Array (Integer <$> zs')]
    /\ Sorted Z.le zs' /\ zs' ≡ₚ [3; 1; 2].
Proof.
  destruct (organize_sorts_in_place [Array [Integer 3; Integer 1; Integer 2]] 0%nat
              [3; 1; 2] eq_refl) as ((zs' & E & S & P) & _).
  exists zs'. split; [exact E|]. split; [exact S | exact P].
Defined.
